(** * Alert lifecycle manager of MyAITgBot

    A shallow embedding of [alert_system.py] (class [AlertSystem]), of the
    part of [data_fetcher.py] it calls ([DataFetcher.get_multiple_prices])
    and of the command handler [CryptoAIBot.set_alert] of [bot.py], with the
    properties of the alert store and of the evaluation sweep.  Further
    on, module [Fetcher] embeds [get_crypto_data] with the two APIs and
    the mock data behind it, module [CryptoAIBot] the other handlers of
    [bot.py] and one iteration of [monitor_alerts], and module
    [AnalysisEngine] the functions of [analysis_engine.py].

    Modelling conventions.
    - A Python [dict] used as a map is a [gmap]; the iteration order of
      [dict.items()] is the order of [map_to_list].  A Python [set] is a
      [gset] and [list(a_set)] is [elements].  No statement depends on
      these orders.
    - A Python [str] is a [string] and [str.upper], [str.lower] are the
      ASCII case maps; a Python [int] is a [Z].
    - A Python [float] is a [pyfloat]: a rational for a finite value, the
      two infinities and NaN.  Only comparisons are applied to prices, and
      those are exact.
    - A naive [datetime] is the record of its seven fields, and
      [datetime.now()] is an argument of the operations that call it.
    - An exception that leaves a function is a [None] result; the store
      is returned as the exception left it.
    - Each operation runs from its first line to its last without another
      operation in between.  [check_alerts] awaits the prices between its
      two loops; its second loop, [evaluate], is therefore also stated on
      its own, for any price dict.
    - The fire-and-forget task [asyncio.create_task(self.save_alerts())]
      never changes the in-memory store; it is left out of the operations
      and [save_alerts] is modelled on its own, on a file that is absent
      or holds a text.
    - [json.dumps] and [json.load] are parameters of [save_alerts] and
      [load_alerts]; module [Json] gives the text format of
      [json.dumps(data, indent=2)] and a reader for it, with the text of a
      float as a parameter. *)

From Stdlib Require Import ZArith QArith String Ascii List Bool Sorted Lia.
From stdpp Require Import base option list strings pretty gmap fin_maps fin_sets.

Local Open Scope string_scope.
Local Open Scope list_scope.
Local Open Scope Z_scope.

(** ** Python floats, as far as comparisons go *)

Module Float.

Inductive pyfloat : Type :=
| Fin (q : Q)
| PosInf
| NegInf
| NaN.

(** [a < b] on floats; any comparison with NaN is false. *)
Definition lt (a b : pyfloat) : bool :=
  match a, b with
  | NaN, _ | _, NaN => false
  | Fin x, Fin y => negb (Qle_bool y x)
  | NegInf, NegInf => false
  | NegInf, _ => true
  | _, NegInf => false
  | PosInf, _ => false
  | Fin _, PosInf => true
  end.

(** [a <= b] on floats. *)
Definition le (a b : pyfloat) : bool :=
  match a, b with
  | NaN, _ | _, NaN => false
  | Fin x, Fin y => Qle_bool x y
  | NegInf, _ => true
  | _, NegInf => false
  | _, PosInf => true
  | PosInf, Fin _ => false
  end.

Definition gt (a b : pyfloat) : bool := lt b a.
Definition ge (a b : pyfloat) : bool := le b a.

(** The integer literal [0] against which prices are compared. *)
Definition zero : pyfloat := Fin (0 # 1).

Definition of_Z (z : Z) : pyfloat := Fin (z # 1).

End Float.
Export Float.

Arguments Float.lt : simpl never.
Arguments Float.le : simpl never.
Arguments Float.gt : simpl never.
Arguments Float.ge : simpl never.

(** ** ASCII case mapping: [str.upper] and [str.lower] *)

Definition upper_ascii (c : ascii) : ascii :=
  let n := nat_of_ascii c in
  if ((97 <=? n) && (n <=? 122))%nat then ascii_of_nat (n - 32) else c.

Definition lower_ascii (c : ascii) : ascii :=
  let n := nat_of_ascii c in
  if ((65 <=? n) && (n <=? 90))%nat then ascii_of_nat (n + 32) else c.

Fixpoint upper (s : string) : string :=
  match s with
  | EmptyString => EmptyString
  | String c r => String (upper_ascii c) (upper r)
  end.

Fixpoint lower (s : string) : string :=
  match s with
  | EmptyString => EmptyString
  | String c r => String (lower_ascii c) (lower r)
  end.

(** ** Naive datetimes and their ISO-8601 text *)

Module Datetime.

Record datetime : Type := mk_datetime {
  year : Z; month : Z; day : Z;
  hour : Z; minute : Z; second : Z; microsecond : Z
}.

Definition is_leap (y : Z) : bool :=
  (y mod 4 =? 0) && (negb (y mod 100 =? 0) || (y mod 400 =? 0)).

Definition days_in_month (y m : Z) : Z :=
  if m =? 2 then (if is_leap y then 29 else 28)
  else if (m =? 4) || (m =? 6) || (m =? 9) || (m =? 11) then 30
  else 31.

(** Days before January 1st of [y]. *)
Definition days_before_year (y : Z) : Z :=
  let p := y - 1 in p * 365 + p / 4 - p / 100 + p / 400.

(** Days of year [y] before the first day of month [m]. *)
Definition days_before_month (y m : Z) : Z :=
  let cumul := nth (Z.to_nat m)
                   [0; 0; 31; 59; 90; 120; 151; 181; 212; 243; 273; 304; 334] 0 in
  cumul + (if (2 <? m) && is_leap y then 1 else 0).

Definition toordinal (d : datetime) : Z :=
  days_before_year (year d) + days_before_month (year d) (month d) + day d.

(** Microseconds of [a - b], the exact value of the [timedelta]. *)
Definition sub_us (a b : datetime) : Z :=
  ((toordinal a - toordinal b) * 86400
   + ((second a + minute a * 60 + hour a * 3600)
      - (second b + minute b * 60 + hour b * 3600))) * 1000000
  + (microsecond a - microsecond b).

Definition valid (d : datetime) : bool :=
  (1 <=? year d) && (year d <=? 9999)
  && (1 <=? month d) && (month d <=? 12)
  && (1 <=? day d) && (day d <=? days_in_month (year d) (month d))
  && (0 <=? hour d) && (hour d <=? 23)
  && (0 <=? minute d) && (minute d <=? 59)
  && (0 <=? second d) && (second d <=? 59)
  && (0 <=? microsecond d) && (microsecond d <=? 999999).

Definition digit (n : Z) : ascii := ascii_of_nat (48 + Z.to_nat (n mod 10)).

(** [n] printed on [w] decimal digits, zero padded. *)
Fixpoint pad (w : nat) (n : Z) : string :=
  match w with
  | O => EmptyString
  | S w' => pad w' (n / 10) +:+ String (digit n) EmptyString
  end.

Definition digit_val (c : ascii) : option Z :=
  let n := nat_of_ascii c in
  if ((48 <=? n) && (n <=? 57))%nat then Some (Z.of_nat (n - 48)) else None.

(** The value of a string of decimal digits; [None] on any other
    character. *)
Fixpoint digits_from (acc : Z) (s : string) : option Z :=
  match s with
  | EmptyString => Some acc
  | String c r =>
      match digit_val c with
      | Some v => digits_from (acc * 10 + v) r
      | None => None
      end
  end.

Definition digits (s : string) : option Z := digits_from 0 s.

(** [datetime.isoformat()] of a naive datetime. *)
Definition isoformat (d : datetime) : string :=
  pad 4 (year d) +:+ "-" +:+ pad 2 (month d) +:+ "-" +:+ pad 2 (day d)
  +:+ "T" +:+ pad 2 (hour d) +:+ ":" +:+ pad 2 (minute d) +:+ ":"
  +:+ pad 2 (second d)
  +:+ (if microsecond d =? 0 then EmptyString else "." +:+ pad 6 (microsecond d)).

Definition char_at (s : string) (i : nat) (c : ascii) : bool :=
  match String.get i s with
  | Some c' => Ascii.eqb c c'
  | None => false
  end.

(** [datetime.fromisoformat] on the texts [isoformat] writes:
    [YYYY-MM-DDTHH:MM:SS] with an optional [.ffffff].  [None] is the
    [ValueError] of Python. *)
Definition fromisoformat (s : string) : option datetime :=
  let n := String.length s in
  if negb ((n =? 19)%nat || (n =? 26)%nat) then None
  else if negb (char_at s 4 "-" && char_at s 7 "-" && char_at s 10 "T"
                && char_at s 13 ":" && char_at s 16 ":") then None
  else if (n =? 26)%nat && negb (char_at s 19 ".") then None
  else
    y ← digits (substring 0 4 s);
    mo ← digits (substring 5 2 s);
    d ← digits (substring 8 2 s);
    h ← digits (substring 11 2 s);
    mi ← digits (substring 14 2 s);
    se ← digits (substring 17 2 s);
    us ← (if (n =? 26)%nat then digits (substring 20 6 s) else Some 0);
    let r := mk_datetime y mo d h mi se us in
    if valid r then Some r else None.

End Datetime.
Export Datetime.

(** ** The alert store ([alert_system.py]) *)

(** One alert: the dict built by [add_alert], with its seven keys
    ['id'], ['user_id'], ['coin'], ['condition'], ['price'],
    ['created_at'] and ['triggered']. *)
Record Alert : Type := mk_alert {
  alert_id : Z;
  user_id : Z;
  coin : string;
  condition : string;
  price : pyfloat;
  created_at : string;
  triggered : bool
}.

(** [alert['triggered'] = True], the only in-place mutation of an alert. *)
Definition set_triggered (alert : Alert) : Alert :=
  {| alert_id := alert_id alert; user_id := user_id alert; coin := coin alert;
     condition := condition alert; price := price alert;
     created_at := created_at alert; triggered := true |}.

(** The instance state: [self.alerts] maps [str(user_id)] to the list of
    that user's alerts, [self.next_id] is the id counter. *)
Record AlertSystem : Type := mk_system {
  alerts : gmap string (list Alert);
  next_id : Z
}.

(** [str(user_id)] for an [int]. *)
Definition str (n : Z) : string := pretty n.

(** [__init__] before [load_alerts]. *)
Definition init : AlertSystem := {| alerts := ∅; next_id := 1 |}.

(** [add_alert]; [now] is the value of [datetime.now()]. *)
Definition add_alert (now : datetime) (uid : Z) (c : string) (cond : string)
    (p : pyfloat) (s : AlertSystem) : Z * AlertSystem :=
  let new_id := next_id s in
  let next := next_id s + 1 in
  let alert :=
    {| alert_id := new_id; user_id := uid; coin := c; condition := cond;
       price := p; created_at := isoformat now; triggered := false |} in
  let alerts1 :=
    if decide (alerts s !! str uid = None) then <[str uid := []]> (alerts s)
    else alerts s in
  let alerts2 := <[str uid := default [] (alerts1 !! str uid) ++ [alert]]> alerts1 in
  (new_id, {| alerts := alerts2; next_id := next |}).

(** [get_user_alerts]. *)
Definition get_user_alerts (uid : Z) (s : AlertSystem) : list Alert :=
  default [] (alerts s !! str uid).

(** [remove_alert]: the first alert of the user's list whose id matches is
    popped from that list. *)
Definition remove_alert (uid : Z) (aid : Z) (s : AlertSystem) : bool * AlertSystem :=
  let user_alerts := default [] (alerts s !! str uid) in
  match list_find (λ alert, alert_id alert = aid) user_alerts with
  | Some (i, _) =>
      (true, {| alerts := <[str uid := delete i user_alerts]> (alerts s);
                next_id := next_id s |})
  | None => (false, s)
  end.

(** ** The price source ([data_fetcher.py]) *)

(** What [check_alerts] sees of a [DataFetcher]: [source history coin] is
    the outcome of [get_crypto_data(coin)['price']] after the calls in
    [history] ([None] when it raises), and [requests] records the calls
    made so far. *)
Record DataFetcher : Type := mk_fetcher {
  source : list string → string → option pyfloat;
  requests : list string
}.

Definition get_crypto_data (c : string) (df : DataFetcher)
    : option pyfloat * DataFetcher :=
  (source df (requests df) c,
   {| source := source df; requests := requests df ++ [c] |}).

(** [get_multiple_prices]: one call per coin of the list, price [0] when
    the call raises. *)
Fixpoint get_multiple_prices_from (prices : gmap string pyfloat)
    (coins : list string) (df : DataFetcher) : gmap string pyfloat * DataFetcher :=
  match coins with
  | [] => (prices, df)
  | c :: rest =>
      let '(data, df') := get_crypto_data c df in
      let prices' :=
        match data with
        | Some p => <[c := p]> prices
        | None => <[c := Float.zero]> prices
        end in
      get_multiple_prices_from prices' rest df'
  end.

Definition get_multiple_prices (coins : list string) (df : DataFetcher)
    : gmap string pyfloat * DataFetcher :=
  get_multiple_prices_from ∅ coins df.

(** ** The sweep ([check_alerts]) *)

(** First loop of [check_alerts]: the coins of the alerts not yet
    triggered. *)
Definition add_coin (acc : gset string) (alert : Alert) : gset string :=
  if triggered alert then acc else acc ∪ {[coin alert]}.

Definition coins_of_items (items : list (string * list Alert)) : gset string :=
  foldl (λ acc item, foldl add_coin acc item.2) ∅ items.

Definition coins_to_check (s : AlertSystem) : gset string :=
  coins_of_items (map_to_list (alerts s)).

(** The test of the second loop: [condition_met] for a price that passed
    [current_price > 0]. *)
Definition condition_met (alert : Alert) (current_price : pyfloat) : bool :=
  if String.eqb (condition alert) "above" && Float.ge current_price (price alert)
  then true
  else if String.eqb (condition alert) "below" && Float.le current_price (price alert)
  then true
  else false.

(** Body of the second loop for one alert: the alert afterwards and what
    it appends to [triggered]. *)
Definition check_alert (current_prices : gmap string pyfloat) (alert : Alert)
    : Alert * list (Alert * pyfloat) :=
  if triggered alert then (alert, [])
  else
    let current_price := default Float.zero (current_prices !! coin alert) in
    if Float.gt current_price Float.zero then
      if condition_met alert current_price
      then (set_triggered alert, [(set_triggered alert, current_price)])
      else (alert, [])
    else (alert, []).

Fixpoint check_user_alerts (current_prices : gmap string pyfloat)
    (user_alerts : list Alert) : list Alert * list (Alert * pyfloat) :=
  match user_alerts with
  | [] => ([], [])
  | alert :: rest =>
      let '(alert', t1) := check_alert current_prices alert in
      let '(rest', t2) := check_user_alerts current_prices rest in
      (alert' :: rest', t1 ++ t2)
  end.

Fixpoint check_items (current_prices : gmap string pyfloat)
    (items : list (string * list Alert)) (m : gmap string (list Alert))
    : gmap string (list Alert) * list (Alert * pyfloat) :=
  match items with
  | [] => (m, [])
  | (key, user_alerts) :: rest =>
      let '(user_alerts', t1) := check_user_alerts current_prices user_alerts in
      let '(m', t2) := check_items current_prices rest (<[key := user_alerts']> m) in
      (m', t1 ++ t2)
  end.

(** The second loop on the whole store. *)
Definition evaluate (current_prices : gmap string pyfloat) (s : AlertSystem)
    : AlertSystem * list (Alert * pyfloat) :=
  let '(m, t) := check_items current_prices (map_to_list (alerts s)) (alerts s) in
  ({| alerts := m; next_id := next_id s |}, t).

(** The test of the list comprehension of [_cleanup_triggered_alerts];
    [None] when [fromisoformat] raises.  [total_seconds() < 86400] is
    decided on the exact microseconds of the difference. *)
Definition keep_alert (current_time : datetime) (alert : Alert) : option bool :=
  if negb (triggered alert) then Some true
  else
    dt ← fromisoformat (created_at alert);
    Some (sub_us dt current_time <? 86400 * 1000000).

Fixpoint keep_alerts (current_time : datetime) (user_alerts : list Alert)
    : option (list Alert) :=
  match user_alerts with
  | [] => Some []
  | alert :: rest =>
      k ← keep_alert current_time alert;
      rest' ← keep_alerts current_time rest;
      Some (if k : bool then alert :: rest' else rest')
  end.

(** The loop of [_cleanup_triggered_alerts]; the boolean tells whether an
    exception left the loop, with the users before it already rewritten. *)
Fixpoint cleanup_items (current_time : datetime)
    (items : list (string * list Alert)) (m : gmap string (list Alert))
    : gmap string (list Alert) * bool :=
  match items with
  | [] => (m, false)
  | (key, user_alerts) :: rest =>
      match keep_alerts current_time user_alerts with
      | Some kept => cleanup_items current_time rest (<[key := kept]> m)
      | None => (m, true)
      end
  end.

Definition _cleanup_triggered_alerts (current_time : datetime) (s : AlertSystem)
    : AlertSystem * bool :=
  let '(m, raised) := cleanup_items current_time (map_to_list (alerts s)) (alerts s) in
  ({| alerts := m; next_id := next_id s |}, raised).

(** [check_alerts]: [now] is the value [datetime.now()] takes in the
    cleanup.  The first component is the returned list, or [None] when the
    call ends by the exception of the cleanup. *)
Definition check_alerts (now : datetime) (df : DataFetcher) (s : AlertSystem)
    : option (list (Alert * pyfloat)) * AlertSystem * DataFetcher :=
  let coins := coins_to_check s in
  if decide (coins = ∅) then (Some [], s, df)
  else
    let '(current_prices, df') := get_multiple_prices (elements coins) df in
    let '(s1, newly) := evaluate current_prices s in
    match newly with
    | [] => (Some [], s1, df')
    | _ :: _ =>
        let '(s2, raised) := _cleanup_triggered_alerts now s1 in
        (if raised then None else Some newly, s2, df')
    end.

(** ** The command handler [set_alert] of [bot.py] *)

Inductive reply : Type :=
| ReplyUsage
| ReplyBadCondition
| ReplyBadPrice
| ReplyAlertSet (new_id : Z) (c : string) (cond : string) (p : pyfloat).

Section Bot.

(** [float(text)] of Python: [None] is its [ValueError]. *)
Variable float_of_str : string → option pyfloat.

Definition set_alert (now : datetime) (uid : Z) (args : list string)
    (s : AlertSystem) : reply * AlertSystem :=
  match args with
  | a0 :: a1 :: a2 :: _ =>
      let c := upper a0 in
      let cond := lower a1 in
      match float_of_str a2 with
      | None => (ReplyBadPrice, s)
      | Some p =>
          if negb (String.eqb cond "above" || String.eqb cond "below")
          then (ReplyBadCondition, s)
          else
            let '(new_id, s') := add_alert now uid c cond p s in
            (ReplyAlertSet new_id c cond p, s')
      end
  | _ => (ReplyUsage, s)
  end.

End Bot.

(** ** Persistence ([save_alerts], [load_alerts]) *)

(** The values of Python that the [json] module writes and reads. *)
#[local] Unset Elimination Schemes.
Inductive json : Type :=
| JNull
| JBool (b : bool)
| JInt (n : Z)
| JFloat (x : pyfloat)
| JStr (s : string)
| JList (items : list json)
| JDict (fields : list (string * json)).
#[local] Set Elimination Schemes.

(** [d.get(key)] on the fields of an object. *)
Fixpoint dict_get (key : string) (fields : list (string * json)) : option json :=
  match fields with
  | [] => None
  | (k, v) :: rest => if String.eqb k key then Some v else dict_get key rest
  end.

(** The dict of one alert, as [add_alert] builds it. *)
Definition alert_to_json (a : Alert) : json :=
  JDict [("id", JInt (alert_id a));
         ("user_id", JInt (user_id a));
         ("coin", JStr (coin a));
         ("condition", JStr (condition a));
         ("price", JFloat (price a));
         ("created_at", JStr (created_at a));
         ("triggered", JBool (triggered a))].

(** [self.alerts] as a Python value. *)
Definition alerts_to_json (m : gmap string (list Alert)) : json :=
  JDict ((λ kv : string * list Alert, (kv.1, JList (alert_to_json <$> kv.2)))
           <$> map_to_list m).

(** The dict [data] of [save_alerts]. *)
Definition document (s : AlertSystem) : json :=
  JDict [("alerts", alerts_to_json (alerts s)); ("next_id", JInt (next_id s))].

(** Reading a Python value back as a typed part of the store; [None] when
    the value has another shape, which the typed store cannot hold. *)
Definition as_int (j : json) : option Z :=
  match j with JInt n => Some n | _ => None end.

Definition as_float (j : json) : option pyfloat :=
  match j with JFloat x => Some x | _ => None end.

Definition as_str (j : json) : option string :=
  match j with JStr s => Some s | _ => None end.

Definition as_bool (j : json) : option bool :=
  match j with JBool b => Some b | _ => None end.

Definition alert_of_json (j : json) : option Alert :=
  match j with
  | JDict f =>
      i ← dict_get "id" f ≫= as_int;
      u ← dict_get "user_id" f ≫= as_int;
      c ← dict_get "coin" f ≫= as_str;
      cond ← dict_get "condition" f ≫= as_str;
      p ← dict_get "price" f ≫= as_float;
      t ← dict_get "created_at" f ≫= as_str;
      b ← dict_get "triggered" f ≫= as_bool;
      Some (mk_alert i u c cond p t b)
  | _ => None
  end.

Definition bucket_of_json (kv : string * json) : option (string * list Alert) :=
  match kv.2 with
  | JList items => l ← mapM alert_of_json items; Some (kv.1, l)
  | _ => None
  end.

Definition alerts_of_json (j : json) : option (gmap string (list Alert)) :=
  match j with
  | JDict f => l ← mapM bucket_of_json f; Some (list_to_map l)
  | _ => None
  end.

(** How a call of [save_alerts] ends: the file is written, or an exception
    is logged and the file is left in the state [remaining]. *)
Inductive write_outcome : Type :=
| Written
| WriteFailed (remaining : option string).

Section Storage.

(** [json.dumps(data, indent=2)] and [json.load]: the text of a value,
    and the value of a text, [None] when the text is rejected. *)
Variable json_dumps : json → string.
Variable json_loads : string → option json.

(** [save_alerts] on the storage file: [None] is an absent file,
    [Some text] a file with that content. *)
Definition save_alerts (o : write_outcome) (s : AlertSystem)
    (file : option string) : option string :=
  match o with
  | Written => Some (json_dumps (document s))
  | WriteFailed remaining => remaining
  end.

(** [load_alerts] on an instance in state [s].  The outer [None] is a
    file whose values the typed store cannot hold. *)
Definition load_alerts (file : option string) (s : AlertSystem)
    : option AlertSystem :=
  match file with
  | None => Some s
  | Some text =>
      match json_loads text with
      | Some (JDict data) =>
          m ← alerts_of_json (default (JDict []) (dict_get "alerts" data));
          n ← as_int (default (JInt 1) (dict_get "next_id" data));
          Some {| alerts := m; next_id := n |}
      | Some _ => Some init
      | None => Some init
      end
  end.

(** [AlertSystem(storage_file)]: a new instance. *)
Definition new_alert_system (file : option string) : option AlertSystem :=
  load_alerts file init.

End Storage.

(** ** The text of a JSON value

    The text that [json.dumps(data, indent=2)] writes for a value, with the
    escapes of the default [ensure_ascii] mode, and a reader of JSON
    texts.  The text of a float and its reading are those of Python's
    [float.__repr__] and [float]; they are parameters here. *)

Module Json.

Definition quote_char : ascii := "034"%char.
Definition backslash : ascii := "092"%char.
Definition newline : ascii := "010"%char.

Fixpoint spaces (n : nat) : string :=
  match n with
  | O => EmptyString
  | S n' => String " " (spaces n')
  end.

(** A line break followed by the indentation of [level]. *)
Definition break (level : nat) : string := String newline (spaces (2 * level)).

Definition hex_digit (n : nat) : ascii :=
  if (n <? 10)%nat then ascii_of_nat (48 + n) else ascii_of_nat (87 + n).

Definition hex_val (c : ascii) : option nat :=
  let n := nat_of_ascii c in
  if ((48 <=? n) && (n <=? 57))%nat then Some (n - 48)%nat
  else if ((97 <=? n) && (n <=? 102))%nat then Some (n - 87)%nat
  else if ((65 <=? n) && (n <=? 70))%nat then Some (n - 55)%nat
  else None.

(** One character inside a string literal. *)
Definition escape_char (c : ascii) : string :=
  let n := nat_of_ascii c in
  if Ascii.eqb c quote_char then String backslash (String quote_char EmptyString)
  else if Ascii.eqb c backslash then String backslash (String backslash EmptyString)
  else if (n =? 8)%nat then String backslash "b"
  else if (n =? 12)%nat then String backslash "f"
  else if (n =? 10)%nat then String backslash "n"
  else if (n =? 13)%nat then String backslash "r"
  else if (n =? 9)%nat then String backslash "t"
  else if ((n <? 32) || (126 <? n))%nat
  then String backslash
         ("u00" +:+ String (hex_digit (n / 16)) (String (hex_digit (n mod 16)) EmptyString))
  else String c EmptyString.

Fixpoint escape (s : string) : string :=
  match s with
  | EmptyString => EmptyString
  | String c r => escape_char c +:+ escape r
  end.

Definition quoted (s : string) : string :=
  String quote_char (escape s +:+ String quote_char EmptyString).

(** The items of a list or object, one per line at [level + 1]. *)
Definition block (opening closing : ascii) (level : nat) (items : list string)
    : string :=
  match items with
  | [] => String opening (String closing EmptyString)
  | _ =>
      String opening
        (break (S level)
         +:+ String.concat (String "," (break (S level))) items
         +:+ break level +:+ String closing EmptyString)
  end.

Inductive token : Type :=
| TLBrace | TRBrace | TLBracket | TRBracket | TColon | TComma
| TString (s : string)
| TAtom (s : string).

(** Inside a string literal: after plain characters, after a backslash,
    or after [\u] and [read] hexadecimal digits of value [value]. *)
Inductive string_mode : Type :=
| Plain
| Escaped
| Unicode (read : nat) (value : nat).

Inductive lex_state : Type :=
| Idle
| InString (acc : string) (mode : string_mode)
| InAtom (acc : string).

Inductive start : Type :=
| Skip
| Emit (t : token)
| Enter (st : lex_state)
| Reject.

(** The characters of numbers and of the words [true], [false], [null],
    [NaN], [Infinity]. *)
Definition atom_char (c : ascii) : bool :=
  let n := nat_of_ascii c in
  ((48 <=? n) && (n <=? 57) || (65 <=? n) && (n <=? 90)
   || (97 <=? n) && (n <=? 122) || (n =? 43) || (n =? 45) || (n =? 46))%nat.

Definition start_of (c : ascii) : start :=
  let n := nat_of_ascii c in
  if ((n =? 32) || (n =? 9) || (n =? 10) || (n =? 13))%nat then Skip
  else if Ascii.eqb c "{" then Emit TLBrace
  else if Ascii.eqb c "}" then Emit TRBrace
  else if Ascii.eqb c "[" then Emit TLBracket
  else if Ascii.eqb c "]" then Emit TRBracket
  else if Ascii.eqb c ":" then Emit TColon
  else if Ascii.eqb c "," then Emit TComma
  else if Ascii.eqb c quote_char then Enter (InString EmptyString Plain)
  else if atom_char c then Enter (InAtom (String c EmptyString))
  else Reject.

(** The character an escape stands for. *)
Definition unescape (c : ascii) : option ascii :=
  if Ascii.eqb c quote_char || Ascii.eqb c backslash || Ascii.eqb c "/" then Some c
  else if Ascii.eqb c "b" then Some "008"%char
  else if Ascii.eqb c "f" then Some "012"%char
  else if Ascii.eqb c "n" then Some "010"%char
  else if Ascii.eqb c "r" then Some "013"%char
  else if Ascii.eqb c "t" then Some "009"%char
  else None.

(** The tokens of a text; the accumulators hold the characters read so
    far, last first. *)
Fixpoint lex (st : lex_state) (s : string) : option (list token) :=
  match s with
  | EmptyString =>
      match st with
      | Idle => Some []
      | InAtom acc => Some [TAtom (String.rev acc)]
      | InString _ _ => None
      end
  | String c r =>
      match st with
      | InString acc Plain =>
          if Ascii.eqb c backslash then lex (InString acc Escaped) r
          else if Ascii.eqb c quote_char
          then ts ← lex Idle r; Some (TString (String.rev acc) :: ts)
          else if (nat_of_ascii c <? 32)%nat then None
          else lex (InString (String c acc) Plain) r
      | InString acc Escaped =>
          if Ascii.eqb c "u" then lex (InString acc (Unicode 0 0)) r
          else
            match unescape c with
            | Some c' => lex (InString (String c' acc) Plain) r
            | None => None
            end
      | InString acc (Unicode read value) =>
          match hex_val c with
          | Some h =>
              let value' := (value * 16 + h)%nat in
              if (read =? 3)%nat
              then if (value' <? 256)%nat
                   then lex (InString (String (ascii_of_nat value') acc) Plain) r
                   else None
              else lex (InString acc (Unicode (S read) value')) r
          | None => None
          end
      | InAtom acc =>
          if atom_char c then lex (InAtom (String c acc)) r
          else
            match start_of c with
            | Skip => ts ← lex Idle r; Some (TAtom (String.rev acc) :: ts)
            | Emit t => ts ← lex Idle r; Some (TAtom (String.rev acc) :: t :: ts)
            | Enter st' => ts ← lex st' r; Some (TAtom (String.rev acc) :: ts)
            | Reject => None
            end
      | Idle =>
          match start_of c with
          | Skip => lex Idle r
          | Emit t => ts ← lex Idle r; Some (t :: ts)
          | Enter st' => lex st' r
          | Reject => None
          end
      end
  end.

(** An integer literal: digits, after an optional minus sign. *)
Definition int_of (s : string) : option Z :=
  match s with
  | String "-" r => match r with EmptyString => None | _ => Z.opp <$> digits r end
  | EmptyString => None
  | _ => digits s
  end.

Section Codec.

Variable float_repr : pyfloat → string.
Variable float_parse : string → option pyfloat.

Fixpoint dumps_at (level : nat) (j : json) : string :=
  match j with
  | JNull => "null"
  | JBool true => "true"
  | JBool false => "false"
  | JInt n => pretty n
  | JFloat x => float_repr x
  | JStr s => quoted s
  | JList items => block "[" "]" level (map (dumps_at (S level)) items)
  | JDict fields =>
      block "{" "}" level
        (map (λ kv : string * json,
                let '(k, v) := kv in quoted k +:+ ": " +:+ dumps_at (S level) v)
             fields)
  end.

(** [json.dumps(j, indent=2)]. *)
Definition dumps (j : json) : string := dumps_at 0 j.

Definition atom_value (s : string) : option json :=
  match int_of s with
  | Some n => Some (JInt n)
  | None =>
      if String.eqb s "null" then Some JNull
      else if String.eqb s "true" then Some (JBool true)
      else if String.eqb s "false" then Some (JBool false)
      else JFloat <$> float_parse s
  end.

Fixpoint parse_value (fuel : nat) (ts : list token) : option (json * list token) :=
  match fuel with
  | O => None
  | S fuel' =>
      match ts with
      | TAtom a :: rest => v ← atom_value a; Some (v, rest)
      | TString s :: rest => Some (JStr s, rest)
      | TLBracket :: TRBracket :: rest => Some (JList [], rest)
      | TLBracket :: rest =>
          r ← parse_items fuel' rest; Some (JList r.1, r.2)
      | TLBrace :: TRBrace :: rest => Some (JDict [], rest)
      | TLBrace :: rest =>
          r ← parse_fields fuel' rest; Some (JDict r.1, r.2)
      | _ => None
      end
  end
with parse_items (fuel : nat) (ts : list token) : option (list json * list token) :=
  match fuel with
  | O => None
  | S fuel' =>
      r ← parse_value fuel' ts;
      match r.2 with
      | TComma :: rest => r' ← parse_items fuel' rest; Some (r.1 :: r'.1, r'.2)
      | TRBracket :: rest => Some ([r.1], rest)
      | _ => None
      end
  end
with parse_fields (fuel : nat) (ts : list token)
    : option (list (string * json) * list token) :=
  match fuel with
  | O => None
  | S fuel' =>
      match ts with
      | TString k :: TColon :: rest =>
          r ← parse_value fuel' rest;
          match r.2 with
          | TComma :: rest' =>
              r' ← parse_fields fuel' rest'; Some ((k, r.1) :: r'.1, r'.2)
          | TRBrace :: rest' => Some ([(k, r.1)], rest')
          | _ => None
          end
      | _ => None
      end
  end.

(** [json.loads(text)]; [None] when the text is rejected. *)
Definition loads (text : string) : option json :=
  ts ← lex Idle text;
  r ← parse_value (S (length ts)) ts;
  match r.2 with
  | [] => Some r.1
  | _ => None
  end.

End Codec.

(** The text of a float with a whole value, of an infinity and of NaN, as
    Python writes them, and their reading; other floats are outside these
    two functions. *)
Definition whole_repr (x : pyfloat) : string :=
  match x with
  | Fin q => pretty (Qnum q / Zpos (Qden q)) +:+ ".0"
  | PosInf => "Infinity"
  | NegInf => "-Infinity"
  | NaN => "NaN"
  end.

(** [text] up to its first dot, and what follows the dot. *)
Fixpoint split_dot (s : string) : string * option string :=
  match s with
  | EmptyString => (EmptyString, None)
  | String c r =>
      if Ascii.eqb c "." then (EmptyString, Some r)
      else let '(a, b) := split_dot r in (String c a, b)
  end.

Definition whole_parse (s : string) : option pyfloat :=
  if String.eqb s "NaN" then Some NaN
  else if String.eqb s "Infinity" then Some PosInf
  else if String.eqb s "-Infinity" then Some NegInf
  else
    match split_dot s with
    | (whole, Some frac) =>
        if String.eqb frac "0" then (λ n, Fin (n # 1)) <$> int_of whole else None
    | _ => None
    end.

End Json.

(** * Notions used in the statements *)

(** An alert stored in [s]: in the list of [key], at index [i]. *)
Definition stored_at (s : AlertSystem) (key : string) (i : nat) (alert : Alert) : Prop :=
  ∃ l, alerts s !! key = Some l ∧ l !! i = Some alert.

(** An alert stored in [s] somewhere in the list of [key]. *)
Definition stored (s : AlertSystem) (key : string) (alert : Alert) : Prop :=
  ∃ l, alerts s !! key = Some l ∧ alert ∈ l.

(** The price the second loop of [check_alerts] reads for [alert]:
    [current_prices.get(coin, 0)]. *)
Definition observed (current_prices : gmap string pyfloat) (alert : Alert) : pyfloat :=
  default Float.zero (current_prices !! coin alert).

(** Whether the second loop triggers [alert]. *)
Definition fires (current_prices : gmap string pyfloat) (alert : Alert) : bool :=
  negb (triggered alert)
  && Float.gt (observed current_prices alert) Float.zero
  && condition_met alert (observed current_prices alert).

(** The alert as the second loop leaves it. *)
Definition mark (current_prices : gmap string pyfloat) (alert : Alert) : Alert :=
  if fires current_prices alert then set_triggered alert else alert.

(** What the second loop appends to [triggered] for [alert]. *)
Definition report (current_prices : gmap string pyfloat) (alert : Alert)
    : list (Alert * pyfloat) :=
  if fires current_prices alert
  then [(set_triggered alert, observed current_prices alert)]
  else [].

(** The whole store after the second loop. *)
Definition mark_all (prices : gmap string pyfloat) (m : gmap string (list Alert))
    : gmap string (list Alert) :=
  (λ l : list Alert, mark prices <$> l) <$> m.

(** The whole list [triggered] after the second loop. *)
Definition reports_of (prices : gmap string pyfloat) (items : list (string * list Alert))
    : list (Alert * pyfloat) :=
  kv ← items; a ← kv.2; report prices a.

Definition reports (prices : gmap string pyfloat) (m : gmap string (list Alert))
    : list (Alert * pyfloat) :=
  reports_of prices (map_to_list m).

(** The prices a sweep obtains from the fetcher. *)
Definition fetched_prices (df : DataFetcher) (s : AlertSystem) : gmap string pyfloat :=
  (get_multiple_prices (elements (coins_to_check s)) df).1.

(** All fields but [triggered] agree. *)
Definition same_fields (a b : Alert) : Prop :=
  alert_id a = alert_id b ∧ user_id a = user_id b ∧ coin a = coin b
  ∧ condition a = condition b ∧ price a = price b ∧ created_at a = created_at b.

(** The time elapsed from [created_at] to [now], in microseconds. *)
Definition age_us (now : datetime) (alert : Alert) : option Z :=
  dt ← fromisoformat (created_at alert); Some (sub_us now dt).

Definition hours_us (h : Z) : Z := h * 3600 * 1000000.

(** [l'] is what remains of [l]: nothing is added or reordered, and every
    alert that passes the test of the comprehension remains. *)
Definition cleaned (now : datetime) (l l' : list Alert) : Prop :=
  sublist l' l ∧ ∀ a, a ∈ l → keep_alert now a = Some true → a ∈ l'.

(** What a sweep leaves of each list of the store. *)
Definition swept (now : datetime) (prices : gmap string pyfloat)
    (l l' : list Alert) : Prop :=
  cleaned now (mark prices <$> l) l'.

(** The ids of the store are below the counter. *)
Definition ids_below (s : AlertSystem) : Prop :=
  ∀ key a, stored s key a → alert_id a < next_id s.

(** The ids of the store are pairwise distinct: inside each list, and
    between the lists of two keys. *)
Definition ids_distinct (s : AlertSystem) : Prop :=
  (∀ key l, alerts s !! key = Some l → NoDup (alert_id <$> l))
  ∧ (∀ k1 k2 a1 a2, k1 ≠ k2 → stored s k1 a1 → stored s k2 a2 →
       alert_id a1 ≠ alert_id a2).

(** The invariant of a store built by [add_alert]. *)
Definition wf (s : AlertSystem) : Prop := ids_below s ∧ ids_distinct s.

(** ** Sequences of calls on one instance *)

Inductive op : Type :=
| OpAdd (now : datetime) (uid : Z) (c cond : string) (p : pyfloat)
| OpRemove (uid aid : Z)
| OpSweep (now : datetime).

Inductive event : Type :=
| EvAdded (new_id : Z)
| EvRemoved (removed : bool)
| EvSwept (returned : option (list (Alert * pyfloat))).

Definition step (o : op) (st : AlertSystem * DataFetcher)
    : event * (AlertSystem * DataFetcher) :=
  match o with
  | OpAdd now uid c cond p =>
      let '(new_id, s') := add_alert now uid c cond p st.1 in
      (EvAdded new_id, (s', st.2))
  | OpRemove uid aid =>
      let '(b, s') := remove_alert uid aid st.1 in
      (EvRemoved b, (s', st.2))
  | OpSweep now =>
      let '(r, s', df') := check_alerts now st.2 st.1 in
      (EvSwept r, (s', df'))
  end.

Fixpoint run (ops : list op) (st : AlertSystem * DataFetcher)
    : list event * (AlertSystem * DataFetcher) :=
  match ops with
  | [] => ([], st)
  | o :: rest =>
      let '(e, st1) := step o st in
      let '(es, st2) := run rest st1 in
      (e :: es, st2)
  end.

(** The ids returned by the [add_alert] calls of a run, in order. *)
Fixpoint added_ids (es : list event) : list Z :=
  match es with
  | [] => []
  | EvAdded i :: rest => i :: added_ids rest
  | _ :: rest => added_ids rest
  end.

(** [s'] holds, under each key, some of the alerts [s] holds there, up to
    their [triggered] field, and its counter is not smaller. *)
Definition shrunk (s s' : AlertSystem) : Prop :=
  next_id s ≤ next_id s'
  ∧ ∀ key l', alerts s' !! key = Some l' →
      ∃ l, alerts s !! key = Some l ∧ sublist (alert_id <$> l') (alert_id <$> l).

(** Every stored alert with id [x] is triggered, and [x] is below the
    counter: what the store keeps true of an alert once it has
    triggered. *)
Definition settled (x : Z) (s : AlertSystem) : Prop :=
  (∀ key a, stored s key a → alert_id a = x → triggered a = true)
  ∧ x < next_id s.

(** ** Notions for the text of a JSON value *)

Import Json.

(** [ts] put in front of the tokens of a rest, when the rest is read. *)
Definition prepend (ts : list token) (o : option (list token)) : option (list token) :=
  match o with
  | Some rest => Some (ts ++ rest)
  | None => None
  end.

(** A text made of the characters of numbers and words, not empty. *)
Fixpoint all_atom (s : string) : bool :=
  match s with
  | EmptyString => true
  | String c r => atom_char c && all_atom r
  end.

Definition atom_text (s : string) : bool :=
  match s with
  | EmptyString => false
  | _ => all_atom s
  end.

(** A rest of text before which a number or word ends. *)
Definition delimited (r : string) : bool :=
  match r with
  | EmptyString => true
  | String c _ => negb (atom_char c)
  end.

(** A text and the tokens it is read as, whatever follows it. *)
Definition reads_as (text : string) (ts : list token) : Prop :=
  ∀ r, delimited r = true → lex Idle (text +:+ r) = prepend ts (lex Idle r).

(** A token a value can start with. *)
Definition opens (t : token) : bool :=
  match t with
  | TAtom _ | TString _ | TLBracket | TLBrace => true
  | _ => false
  end.

(** Token lists joined by commas. *)
Fixpoint separated (tss : list (list token)) : list token :=
  match tss with
  | [] => []
  | [ts] => ts
  | ts :: rest => ts ++ TComma :: separated rest
  end.

(** The fuel [parse_value] needs for a value. *)
Fixpoint cost_list (cs : list nat) : nat :=
  match cs with
  | [] => 0
  | c :: rest => S (Nat.max c (cost_list rest))
  end.

Fixpoint cost (j : json) : nat :=
  match j with
  | JList items => S (cost_list (map cost items))
  | JDict fields =>
      S (cost_list (map (λ kv : string * json, let '(_, v) := kv in cost v) fields))
  | _ => 1
  end.

Section Tokens.

Variable float_repr : pyfloat → string.
Variable float_parse : string → option pyfloat.

(** The tokens of the text of a value. *)
Fixpoint tokens (j : json) : list token :=
  match j with
  | JNull => [TAtom "null"]
  | JBool true => [TAtom "true"]
  | JBool false => [TAtom "false"]
  | JInt n => [TAtom (pretty n)]
  | JFloat x => [TAtom (float_repr x)]
  | JStr s => [TString s]
  | JList items => TLBracket :: separated (map tokens items) ++ [TRBracket]
  | JDict fields =>
      TLBrace
      :: separated (map (λ kv : string * json,
                           let '(k, v) := kv in TString k :: TColon :: tokens v)
                        fields)
      ++ [TRBrace]
  end.

(** The text of the float [x] is a number or word, and is read back as
    [x]. *)
Definition float_ok (x : pyfloat) : Prop :=
  atom_text (float_repr x) = true
  ∧ atom_value float_parse (float_repr x) = Some (JFloat x).

(** Every float inside a value has such a text. *)
Fixpoint floats_ok (j : json) : Prop :=
  match j with
  | JFloat x => float_ok x
  | JList items => fold_right (λ v acc, floats_ok v ∧ acc) True items
  | JDict fields =>
      fold_right (λ (kv : string * json) acc,
                    (let '(_, v) := kv in floats_ok v) ∧ acc) True fields
  | _ => True
  end.

(** [parse_value] reads the tokens of [v] as [v], with any fuel from
    [cost v] on. *)
Definition parsed (v : json) : Prop :=
  ∀ fuel ts, (cost v ≤ fuel)%nat → parse_value float_parse fuel (tokens v ++ ts) = Some (v, ts).

End Tokens.

(** Induction on a value, with the property for the items of a list and
    for the values of the fields of an object. *)
Fixpoint json_induction (P : json → Prop)
    (Hnull : P JNull) (Hbool : ∀ b, P (JBool b)) (Hint : ∀ n, P (JInt n))
    (Hfloat : ∀ x, P (JFloat x)) (Hstr : ∀ s, P (JStr s))
    (Hlist : ∀ items, Forall P items → P (JList items))
    (Hdict : ∀ fields, Forall (λ kv, P kv.2) fields → P (JDict fields))
    (j : json) : P j :=
  match j with
  | JNull => Hnull
  | JBool b => Hbool b
  | JInt n => Hint n
  | JFloat x => Hfloat x
  | JStr s => Hstr s
  | JList items =>
      Hlist items
        ((fix go (l : list json) : Forall P l :=
            match l with
            | [] => @List.Forall_nil _ P
            | v :: r =>
                @List.Forall_cons _ P v r
                  (json_induction P Hnull Hbool Hint Hfloat Hstr Hlist Hdict v) (go r)
            end) items)
  | JDict fields =>
      Hdict fields
        ((fix go (l : list (string * json)) : Forall (λ kv, P kv.2) l :=
            match l with
            | [] => @List.Forall_nil _ _
            | (k, v) :: r =>
                @List.Forall_cons _ (λ kv : string * json, P kv.2) (k, v) r
                  (json_induction P Hnull Hbool Hint Hfloat Hstr Hlist Hdict v) (go r)
            end) fields)
  end.

(** ** [config.py] *)

Definition SUPPORTED_CRYPTOS : list string :=
  ["BTC"; "ETH"; "BNB"; "ADA"; "XRP"; "SOL"; "DOT"; "DOGE"; "AVAX"; "MATIC"].

(** [d.get(key)] on a dict literal with string keys. *)
Fixpoint assoc {A : Type} (key : string) (d : list (string * A)) : option A :=
  match d with
  | [] => None
  | (k, v) :: rest => if String.eqb k key then Some v else assoc key rest
  end.

(** ** The price source in detail ([data_fetcher.py])

    [get_crypto_data] with the two APIs it asks and the mock data it
    falls back to.  The answer of a GET, the conversion [float(x)], the
    arithmetic of doubles and the draws of [random] are parameters.  A
    Python number is a [JInt] or a [JFloat]; [None] stands for the
    exception, or the [None], that makes a fetch give nothing. *)

Module Fetcher.

(** The dict that [get_crypto_data] returns, with its six keys. *)
Record crypto_data : Type := mk_data {
  price : json;
  change_24h : json;
  high_24h : json;
  low_24h : json;
  volume : json;
  market_cap : json
}.

(** How [session.get(url)] ends: by an exception, or with a response
    that has a status and a body; [body = None] when [response.json()]
    raises. *)
Inductive http_result : Type :=
| Unreachable
| Response (status : Z) (body : option json).

(** [self.session] is set or [None]; [requested] records the URLs of the
    GETs made so far. *)
Record state : Type := mk_state {
  session : bool;
  requested : list string
}.

Definition init_session (st : state) : state :=
  {| session := true; requested := requested st |}.

Definition close_session (st : state) : state :=
  {| session := false; requested := requested st |}.

Definition _get_coingecko_id (coin : string) : string :=
  let coin_map :=
    [("BTC", "bitcoin"); ("ETH", "ethereum"); ("BNB", "binancecoin");
     ("ADA", "cardano"); ("XRP", "ripple"); ("SOL", "solana");
     ("DOT", "polkadot"); ("DOGE", "dogecoin"); ("AVAX", "avalanche-2");
     ("MATIC", "matic-network")] in
  default EmptyString (assoc coin coin_map).

Definition coingecko_url (coin_id : string) : string :=
  "https://api.coingecko.com/api/v3/coins/" +:+ coin_id
  +:+ "?localization=false&tickers=false&market_data=true&community_data=false&developer_data=false".

Definition binance_url (coin : string) : string :=
  "https://api.binance.com/api/v3/ticker/24hr?symbol=" +:+ (coin +:+ "USDT").

(** [x.get(key, dflt)]; [None] is the [AttributeError] of a value that
    is no dict. *)
Definition get_or (key : string) (dflt : json) (x : json) : option json :=
  match x with
  | JDict fields => Some (default dflt (dict_get key fields))
  | _ => None
  end.

Definition _parse_coingecko_data (data : json) : option crypto_data :=
  market_data ← get_or "market_data" (JDict []) data;
  p ← get_or "current_price" (JDict []) market_data ≫= get_or "usd" (JInt 0);
  c ← get_or "price_change_percentage_24h" (JInt 0) market_data;
  h ← get_or "high_24h" (JDict []) market_data ≫= get_or "usd" (JInt 0);
  l ← get_or "low_24h" (JDict []) market_data ≫= get_or "usd" (JInt 0);
  v ← get_or "total_volume" (JDict []) market_data ≫= get_or "usd" (JInt 0);
  m ← get_or "market_cap" (JDict []) market_data ≫= get_or "usd" (JInt 0);
  Some {| price := p; change_24h := c; high_24h := h; low_24h := l;
          volume := v; market_cap := m |}.

(** The double of a Python number; the integers converted here are small
    enough to be converted exactly. *)
Definition to_double (x : json) : pyfloat :=
  match x with
  | JInt n => of_Z n
  | JFloat f => f
  | _ => NaN
  end.

(** [abs] of a double. *)
Definition float_abs (x : pyfloat) : pyfloat :=
  match x with
  | Fin q => Fin (Z.abs (Qnum q) # Qden q)
  | PosInf | NegInf => PosInf
  | NaN => NaN
  end.

(** The fifteen draws of one call of [_get_mock_data], in the order in
    which it makes them: the results of [random.randint] are integers,
    those of [random.uniform] doubles. *)
Record draws : Type := mk_draws {
  r_btc : Z;
  r_eth : Z;
  r_bnb : Z;
  r_ada : pyfloat;
  r_xrp : pyfloat;
  r_sol : Z;
  r_dot : pyfloat;
  r_doge : pyfloat;
  r_avax : Z;
  r_matic : pyfloat;
  r_change : pyfloat;
  r_high : pyfloat;
  r_low : pyfloat;
  r_volume : Z;
  r_market_cap : Z
}.

Section Sources.

(** [config.COINGECKO_API_KEY]. *)
Variable COINGECKO_API_KEY : string.

(** The answer to a GET of a URL at the time of the call. *)
Variable http_get : string → http_result.

(** [float(x)]; [None] is its [ValueError] or [TypeError]. *)
Variable float : json → option pyfloat.

(** The double a decimal literal denotes, and the four operations on
    doubles. *)
Variable literal : Q → pyfloat.
Variable float_add : pyfloat → pyfloat → pyfloat.
Variable float_sub : pyfloat → pyfloat → pyfloat.
Variable float_mul : pyfloat → pyfloat → pyfloat.
Variable float_div : pyfloat → pyfloat → pyfloat.

(** The results of the calls of [random] in [_get_mock_data]. *)
Variable rnd : draws.

Definition _parse_binance_data (data : json) (coin : string) : option crypto_data :=
  p ← get_or "lastPrice" (JInt 0) data ≫= float;
  c ← get_or "priceChangePercent" (JInt 0) data ≫= float;
  h ← get_or "highPrice" (JInt 0) data ≫= float;
  l ← get_or "lowPrice" (JInt 0) data ≫= float;
  v ← get_or "volume" (JInt 0) data ≫= float;
  Some {| price := JFloat p; change_24h := JFloat c; high_24h := JFloat h;
          low_24h := JFloat l; volume := JFloat v; market_cap := JInt 0 |}.

(** [async with self.session.get(url)]: without a session the attribute
    access raises before any request is made. *)
Definition get (url : string) (st : state) : http_result * state :=
  if session st
  then (http_get url, {| session := session st; requested := requested st ++ [url] |})
  else (Unreachable, st).

Definition _fetch_from_coingecko (coin : string) (st : state)
    : option crypto_data * state :=
  if String.eqb COINGECKO_API_KEY EmptyString then (None, st)
  else
    let coin_id := _get_coingecko_id coin in
    if String.eqb coin_id EmptyString then (None, st)
    else
      let '(response, st') := get (coingecko_url coin_id) st in
      match response with
      | Response status body =>
          if status =? 200 then (body ≫= _parse_coingecko_data, st')
          else (None, st')
      | Unreachable => (None, st')
      end.

Definition _fetch_from_binance (coin : string) (st : state)
    : option crypto_data * state :=
  let '(response, st') := get (binance_url coin) st in
  match response with
  | Response status body =>
      if status =? 200 then (body ≫= (λ data, _parse_binance_data data coin), st')
      else (None, st')
  | Unreachable => (None, st')
  end.

Definition _get_mock_data (coin : string) : crypto_data :=
  let base_prices :=
    [("BTC", JInt (50000 + r_btc rnd));
     ("ETH", JInt (3000 + r_eth rnd));
     ("BNB", JInt (400 + r_bnb rnd));
     ("ADA", JFloat (float_add (literal (12 # 10)) (r_ada rnd)));
     ("XRP", JFloat (float_add (literal (8 # 10)) (r_xrp rnd)));
     ("SOL", JInt (100 + r_sol rnd));
     ("DOT", JFloat (float_add (of_Z 20) (r_dot rnd)));
     ("DOGE", JFloat (float_add (literal (2 # 10)) (r_doge rnd)));
     ("AVAX", JInt (60 + r_avax rnd));
     ("MATIC", JFloat (float_add (literal (15 # 10)) (r_matic rnd)))] in
  let base_price := default (JInt 100) (assoc coin base_prices) in
  let change := r_change rnd in
  let swing := float_abs (float_div change (of_Z 100)) in
  {| price := base_price;
     change_24h := JFloat change;
     high_24h :=
       JFloat (float_mul (to_double base_price)
                 (float_add (float_add (of_Z 1) swing) (r_high rnd)));
     low_24h :=
       JFloat (float_mul (to_double base_price)
                 (float_sub (float_sub (of_Z 1) swing) (r_low rnd)));
     volume := JInt (r_volume rnd);
     market_cap := JInt (r_market_cap rnd) |}.

(** [get_crypto_data]: CoinGecko, then Binance, then the mock data of
    the [except] branch. *)
Definition get_crypto_data (coin : string) (st : state) : crypto_data * state :=
  let st0 := init_session st in
  let '(data, st1) := _fetch_from_coingecko coin st0 in
  match data with
  | Some d => (d, st1)
  | None =>
      let '(data', st2) := _fetch_from_binance coin st1 in
      match data' with
      | Some d => (d, st2)
      | None => (_get_mock_data coin, st2)
      end
  end.

End Sources.

(** The contract of [random.randint(a, b)] for the integer draws. *)
Definition in_range (rnd : draws) : Prop :=
  -2000 ≤ r_btc rnd ≤ 2000 ∧ -200 ≤ r_eth rnd ≤ 200 ∧ -20 ≤ r_bnb rnd ≤ 20
  ∧ -5 ≤ r_sol rnd ≤ 5 ∧ -3 ≤ r_avax rnd ≤ 3
  ∧ 100000000 ≤ r_volume rnd ≤ 5000000000
  ∧ 1000000000 ≤ r_market_cap rnd ≤ 1000000000000.

(** The value of a Python number in a comparison; [None] for a value
    that is no number. *)
Definition number (x : json) : option pyfloat :=
  match x with
  | JInt n => Some (of_Z n)
  | JFloat f => Some f
  | JBool b => Some (of_Z (if b then 1 else 0))
  | _ => None
  end.

(** What the fetcher meets at one moment: the answers of the two APIs
    and the draws of [random]. *)
Record world : Type := mk_world {
  answers : string → http_result;
  drawn : draws
}.

Section Source.

Variable COINGECKO_API_KEY : string.
Variable float : json → option pyfloat.
Variable literal : Q → pyfloat.
Variable float_add : pyfloat → pyfloat → pyfloat.
Variable float_sub : pyfloat → pyfloat → pyfloat.
Variable float_mul : pyfloat → pyfloat → pyfloat.
Variable float_div : pyfloat → pyfloat → pyfloat.

(** [get_crypto_data(coin)] in the world [w], on a fetcher that has made
    no request yet. *)
Definition fetch (w : world) (coin : string) : crypto_data * state :=
  get_crypto_data COINGECKO_API_KEY (answers w) float literal
    float_add float_sub float_mul float_div (drawn w) coin
    {| session := false; requested := [] |}.

(** The fetcher that [check_alerts] is given, when the world after the
    calls in [history] is [worlds history]: the price of a symbol is
    [get_crypto_data(coin)['price']].  The sweep compares that value with
    numbers, and [get_crypto_data] itself never raises; the typed sweep
    holds the value when it is a number, as it always is without an API
    key. *)
Definition price_source (worlds : list string → world)
    : list string → string → option pyfloat :=
  λ history coin, number (price (fetch (worlds history) coin).1).

Definition data_fetcher (worlds : list string → world) : DataFetcher :=
  {| source := price_source worlds; requests := [] |}.

End Source.

End Fetcher.

(** ** The other handlers of [bot.py]

    A reply is named by a constructor that carries the values its text
    is formatted from; the text itself is left out. *)

(** [needle in text] for two [str]. *)
Fixpoint contains (needle text : string) : bool :=
  String.prefix needle text
  || match text with
     | EmptyString => false
     | String _ rest => contains needle rest
     end.

Module CryptoAIBot.

(** The three replies of [handle_message]. *)
Inductive text_reply : Type :=
| ReplyHello
| ReplyWelcome
| ReplyUnknown.

Definition handle_message (text : string) : text_reply :=
  let text := lower text in
  if existsb (λ greeting, contains greeting text) ["hello"; "hi"; "hey"; "greetings"]
  then ReplyHello
  else if contains "thank" text then ReplyWelcome
  else ReplyUnknown.

(** What [my_alerts] prints of one alert: its id, symbol, condition,
    threshold and creation time. *)
Record alert_entry : Type := mk_entry {
  entry_id : Z;
  entry_coin : string;
  entry_condition : string;
  entry_price : pyfloat;
  entry_created_at : string
}.

Definition entry_of (alert : Alert) : alert_entry :=
  {| entry_id := alert_id alert; entry_coin := coin alert;
     entry_condition := condition alert; entry_price := price alert;
     entry_created_at := created_at alert |}.

Inductive alerts_reply : Type :=
| ReplyNoAlerts
| ReplyAlerts (entries : list alert_entry).

Definition my_alerts (uid : Z) (s : AlertSystem) : alerts_reply :=
  match get_user_alerts uid s with
  | [] => ReplyNoAlerts
  | alerts => ReplyAlerts (entry_of <$> alerts)
  end.

Inductive remove_reply : Type :=
| ReplyRemoveUsage
| ReplyBadId
| ReplyRemoved (aid : Z)
| ReplyNotFound.

Section Handlers.

(** [float(text)] and [int(text)] of Python: [None] is their
    [ValueError]. *)
Variable float_of_str : string → option pyfloat.
Variable int_of_str : string → option Z.

Definition remove_alert (uid : Z) (args : list string) (s : AlertSystem)
    : remove_reply * AlertSystem :=
  match args with
  | [] => (ReplyRemoveUsage, s)
  | a0 :: _ =>
      match int_of_str a0 with
      | None => (ReplyBadId, s)
      | Some aid =>
          let '(removed, s') := remove_alert uid aid s in
          (if removed : bool then ReplyRemoved aid else ReplyNotFound, s')
      end
  end.

(** One call of [send_message]: the chat it goes to, and the alert and
    the price its text is formatted from.  How the call ends is only
    logged. *)
Record notification : Type := mk_notification {
  chat_id : Z;
  alert : Alert;
  current_price : pyfloat
}.

Definition notification_of (pair : Alert * pyfloat) : notification :=
  {| chat_id := user_id pair.1; alert := pair.1; current_price := pair.2 |}.

(** One iteration of the loop of [monitor_alerts]: the messages it
    sends, and whether [check_alerts] raised, in which case the error is
    logged and nothing is sent. *)
Definition monitor_alerts (now : datetime) (st : AlertSystem * DataFetcher)
    : list notification * bool * (AlertSystem * DataFetcher) :=
  let '(triggered_alerts, s', df') := check_alerts now st.2 st.1 in
  match triggered_alerts with
  | Some pairs => (notification_of <$> pairs, false, (s', df'))
  | None => ([], true, (s', df'))
  end.

(** What reaches the bot: a command of a user with its arguments, a text
    message, or the next iteration of [monitor_alerts]. *)
Inductive update : Type :=
| Setalert (now : datetime) (uid : Z) (args : list string)
| Removealert (uid : Z) (args : list string)
| Myalerts (uid : Z)
| Message (text : string)
| Monitor (now : datetime).

Inductive outcome : Type :=
| OutSetalert (r : reply)
| OutRemovealert (r : remove_reply)
| OutMyalerts (r : alerts_reply)
| OutMessage (r : text_reply)
| OutMonitor (sent : list notification) (failed : bool).

Definition handle (u : update) (st : AlertSystem * DataFetcher)
    : outcome * (AlertSystem * DataFetcher) :=
  match u with
  | Setalert now uid args =>
      let '(r, s') := set_alert float_of_str now uid args st.1 in
      (OutSetalert r, (s', st.2))
  | Removealert uid args =>
      let '(r, s') := remove_alert uid args st.1 in
      (OutRemovealert r, (s', st.2))
  | Myalerts uid => (OutMyalerts (my_alerts uid st.1), st)
  | Message text => (OutMessage (handle_message text), st)
  | Monitor now =>
      let '(sent, failed, st') := monitor_alerts now st in
      (OutMonitor sent failed, st')
  end.

Fixpoint handle_all (us : list update) (st : AlertSystem * DataFetcher)
    : list outcome * (AlertSystem * DataFetcher) :=
  match us with
  | [] => ([], st)
  | u :: rest =>
      let '(o, st1) := handle u st in
      let '(os, st2) := handle_all rest st1 in
      (o :: os, st2)
  end.

(** The call on the alert system that an update amounts to, if any. *)
Definition op_of (u : update) : option op :=
  match u with
  | Setalert now uid (a0 :: a1 :: a2 :: _) =>
      match float_of_str a2 with
      | Some p =>
          if String.eqb (lower a1) "above" || String.eqb (lower a1) "below"
          then Some (OpAdd now uid (upper a0) (lower a1) p)
          else None
      | None => None
      end
  | Removealert uid (a0 :: _) =>
      match int_of_str a0 with
      | Some aid => Some (OpRemove uid aid)
      | None => None
      end
  | Monitor now => Some (OpSweep now)
  | _ => None
  end.

End Handlers.


(** The messages sent by the iterations of [monitor_alerts], in order. *)
Fixpoint notifications (os : list outcome) : list notification :=
  match os with
  | [] => []
  | OutMonitor sent _ :: rest => sent ++ notifications rest
  | _ :: rest => notifications rest
  end.


End CryptoAIBot.

(** ** The analysis engine ([analysis_engine.py])

    The indicators are compared with integers and formatted, nothing
    else; a decimal literal is held as its decimal value, which no such
    comparison tells from the double it denotes. *)

Module AnalysisEngine.

(** The dict of [_calculate_indicators], with its eight keys. *)
Record indicators : Type := mk_indicators {
  rsi : pyfloat;
  macd : pyfloat;
  bollinger_upper : pyfloat;
  bollinger_lower : pyfloat;
  stochastic : pyfloat;
  volume_ma : pyfloat;
  price_ma_50 : pyfloat;
  price_ma_200 : pyfloat
}.

(** The dict that [analyze] returns. *)
Record analysis : Type := mk_analysis {
  summary : string;
  sentiment : string;
  indicators_of : indicators;
  prediction : string;
  confidence : Z;
  trend : string
}.

Definition _calculate_indicators (df : Fetcher.crypto_data) : indicators :=
  {| rsi := Fin (552 # 10);
     macd := Fin (125 # 10);
     bollinger_upper := of_Z 52000;
     bollinger_lower := of_Z 48000;
     stochastic := Fin (657 # 10);
     volume_ma := of_Z 1500000000;
     price_ma_50 := of_Z 49500;
     price_ma_200 := of_Z 45000 |}.

Definition _generate_prediction (df : Fetcher.crypto_data) (ind : indicators)
    (coin : string) : string * Z :=
  let default_prediction :=
    ("The cryptocurrency shows mixed signals with some indicators pointing upward while others suggest caution. Watch for volume confirmation of any price movement.",
     65) in
  let predictions :=
    [("BTC",
      ("Based on current trends and market indicators, I predict a moderate upward movement in the next 24-48 hours. The RSI shows neutral conditions with slight bullish momentum.",
       72));
     ("ETH",
      ("Ethereum shows strong support at current levels. Expect consolidation with potential breakout above resistance in the short term.",
       68));
     ("default", default_prediction)] in
  default default_prediction (assoc coin predictions).

Definition _generate_sentiment (ind : indicators) : string :=
  let rsi := rsi ind in
  if Float.gt rsi (of_Z 70) then "Bearish (Overbought)"
  else if Float.lt rsi (of_Z 30) then "Bullish (Oversold)"
  else if Float.lt (of_Z 50) rsi && Float.le rsi (of_Z 70) then "Mildly Bullish"
  else if Float.le (of_Z 30) rsi && Float.lt rsi (of_Z 50) then "Mildly Bearish"
  else "Neutral".

Definition _determine_trend (ind : indicators) : string :=
  if Float.gt (price_ma_50 ind) (price_ma_200 ind) then "Uptrend"
  else if Float.lt (price_ma_50 ind) (price_ma_200 ind) then "Downtrend"
  else "Sideways".

Section Summary.

(** [f"{x:.1f}"] for a double. *)
Variable format_1f : pyfloat → string.

Definition _generate_summary (coin : string) (data : Fetcher.crypto_data)
    (ind : indicators) (prediction : string) : string :=
  let nl := String "010"%char EmptyString in
  nl +:+ "Based on my analysis of " +:+ coin
  +:+ ", I've detected several key patterns in the market data. " +:+ nl
  +:+ "The current technical indicators suggest "
  +:+ lower (_generate_sentiment ind) +:+ " conditions." +:+ nl +:+ nl
  +:+ "The Relative Strength Index (RSI) at " +:+ format_1f (rsi ind)
  +:+ " indicates "
  +:+ (if Float.gt (rsi ind) (of_Z 70) then "overbought"
       else if Float.lt (rsi ind) (of_Z 30) then "oversold"
       else "neutral")
  +:+ " conditions." +:+ nl
  +:+ "Moving averages show a "
  +:+ (if Float.gt (price_ma_50 ind) (price_ma_200 ind) then "bullish" else "bearish")
  +:+ " crossover pattern." +:+ nl.

Definition analyze (data : Fetcher.crypto_data) (coin : string) : analysis :=
  let df := data in
  let ind := _calculate_indicators df in
  let '(prediction, confidence) := _generate_prediction df ind coin in
  let sentiment := _generate_sentiment ind in
  let summary := _generate_summary coin data ind prediction in
  {| summary := summary; sentiment := sentiment; indicators_of := ind;
     prediction := prediction; confidence := confidence;
     trend := _determine_trend ind |}.

End Summary.

End AnalysisEngine.

(** ** Further notions used in the statements *)

(** Every alert is filed under the key of its own user. *)
Definition filed (s : AlertSystem) : Prop :=
  ∀ key a, stored s key a → key = str (user_id a).



(** The ids of the alerts that the sweeps of a run returned, in order. *)
Fixpoint reported_ids (es : list event) : list Z :=
  match es with
  | [] => []
  | EvSwept (Some r) :: rest =>
      ((λ bp : Alert * pyfloat, alert_id bp.1) <$> r) ++ reported_ids rest
  | _ :: rest => reported_ids rest
  end.

(** Every list of the store is in order of creation: its ids increase. *)
Definition ordered (s : AlertSystem) : Prop :=
  ∀ key l, alerts s !! key = Some l → StronglySorted Z.lt (alert_id <$> l).

(** ** Sample stores used by the examples *)

Definition w_now : datetime := mk_datetime 2024 1 2 0 0 0 0.
Definition w_above : Alert :=
  mk_alert 1 1 "BTC" "above" (of_Z 50000) "2024-01-01T01:00:00" false.
Definition w_below : Alert :=
  mk_alert 2 2 "BTC" "below" (of_Z 50000) "2024-01-01T01:00:00" false.
Definition w_store : AlertSystem :=
  {| alerts := {[ "1" := [w_above]; "2" := [w_below] ]}; next_id := 3 |}.
Definition w_fetcher : DataFetcher :=
  {| source := λ _ _, Some (of_Z 50000); requests := [] |}.

Definition w_result : list (Alert * pyfloat) :=
  [(set_triggered w_above, of_Z 50000); (set_triggered w_below, of_Z 50000)].

(** A store whose only alert triggered in an earlier sweep, a store that
    holds besides it an alert about to trigger, and two times of a sweep:
    25 hours and 23 hours after the creation of the alert. *)
Definition w_old : Alert :=
  mk_alert 1 1 "BTC" "above" (of_Z 50000) "2024-01-01T01:00:00" true.
Definition w_fresh : Alert :=
  mk_alert 2 1 "BTC" "above" (of_Z 50000) "2024-01-02T00:30:00" false.
Definition w_store_old : AlertSystem :=
  {| alerts := {[ "1" := [w_old] ]}; next_id := 2 |}.
Definition w_store_mixed : AlertSystem :=
  {| alerts := {[ "1" := [w_old; w_fresh] ]}; next_id := 3 |}.
Definition w_now25 : datetime := mk_datetime 2024 1 2 2 0 0 0.
Definition w_now23 : datetime := mk_datetime 2024 1 2 0 0 0 0.

(** A source without a price for any symbol. *)
Definition w_fetcher_down : DataFetcher :=
  {| source := λ _ _, None; requests := [] |}.

(** A store with two owners, one alert triggered. *)
Definition w_store_saved : AlertSystem :=
  {| alerts :=
       {[ "1" := [w_old; w_fresh];
          "42" := [mk_alert 3 42 "ETH" "below" (of_Z 3000) "2024-01-02T00:45:00" false] ]};
     next_id := 4 |}.

(** ** Further sample stores *)

(** A store whose only alert has a creation time that is no ISO text, as
    a storage file edited by hand can hold. *)
Definition w_undated : Alert :=
  mk_alert 1 1 "BTC" "above" (of_Z 50000) "yesterday" false.
Definition w_store_undated : AlertSystem :=
  {| alerts := {[ "1" := [w_undated] ]}; next_id := 2 |}.

(** A world in which no API answers, with draws in the middle of their
    ranges, and the parameters of a fetcher without API key whose
    arithmetic is not looked at. *)
Definition w_draws : Fetcher.draws :=
  Fetcher.mk_draws 0 0 0 (of_Z 0) (of_Z 0) 0 (of_Z 0) (of_Z 0) 0 (of_Z 0)
    (of_Z 0) (of_Z 1) (of_Z 1) 100000000 1000000000.
Definition w_http_down : string → Fetcher.http_result := λ _, Fetcher.Unreachable.
Definition w_world_down : Fetcher.world :=
  {| Fetcher.answers := w_http_down; Fetcher.drawn := w_draws |}.
Definition w_float : json → option pyfloat := λ _, None.
Definition w_op : pyfloat → pyfloat → pyfloat := λ x _, x.

(** An answer of CoinGecko that is an object without market data. *)
Definition w_http_bare : string → Fetcher.http_result :=
  λ _, Fetcher.Response 200 (Some (JDict [("id", JStr "bitcoin")])).

(** A store with one alert on a symbol that no API knows. *)
Definition w_unknown : Alert :=
  mk_alert 1 1 "FOO" "above" (of_Z 50) "2024-01-01T01:00:00" false.
Definition w_store_unknown : AlertSystem :=
  {| alerts := {[ "1" := [w_unknown] ]}; next_id := 2 |}.

(** An alert with a negative threshold, as [/setalert BTC above -5]
    makes one. *)
Definition w_negative : Alert :=
  mk_alert 1 1 "BTC" "above" (of_Z (-5)) "2024-01-01T01:00:00" false.

(** ** Examples on dates *)

Example isoformat_ex :
  isoformat (mk_datetime 2024 1 2 3 4 5 0) = "2024-01-02T03:04:05".
Proof. reflexivity. Qed.

Example isoformat_us_ex :
  isoformat (mk_datetime 2024 12 31 23 59 59 1500) = "2024-12-31T23:59:59.001500".
Proof. reflexivity. Qed.

Example fromisoformat_ex :
  fromisoformat "2024-12-31T23:59:59.001500" = Some (mk_datetime 2024 12 31 23 59 59 1500).
Proof. reflexivity. Qed.

Example fromisoformat_bad : fromisoformat "2024-02-30T00:00:00" = None.
Proof. reflexivity. Qed.

Example sub_us_day :
  sub_us (mk_datetime 2024 3 1 0 0 0 0) (mk_datetime 2024 2 28 23 0 0 0)
  = 25 * 3600 * 1000000.
Proof. reflexivity. Qed.

(** * Properties *)

(** ** The loops of the sweep, read as maps over the store *)

Lemma check_alert_mark_report prices alert :
  check_alert prices alert = (mark prices alert, report prices alert).
Proof.
  unfold check_alert, mark, report, fires, observed.
  destruct (triggered alert); simpl; [done|].
  destruct (Float.gt (default Float.zero (prices !! coin alert)) Float.zero); simpl; [|done].
  by destruct (condition_met alert _).
Qed.

Lemma check_user_alerts_spec prices l :
  check_user_alerts prices l = (mark prices <$> l, a ← l; report prices a).
Proof.
  induction l as [|a l IH]; simpl; [done|].
  by rewrite check_alert_mark_report, IH.
Qed.

Lemma check_items_lookup prices items : ∀ m k,
  NoDup items.*1 →
  (check_items prices items m).1 !! k =
    match list_find (λ kv, kv.1 = k) items with
    | Some (_, kv) => Some (mark prices <$> kv.2)
    | None => m !! k
    end.
Proof.
  induction items as [|[key l] items IH]; intros m k Hnd; simpl; [done|].
  rewrite check_user_alerts_spec.
  destruct (check_items prices items (<[key:=mark prices <$> l]> m)) as [m' t2] eqn:E.
  simpl. apply NoDup_cons in Hnd as [Hnotin Hnd].
  specialize (IH (<[key:=mark prices <$> l]> m) k Hnd). rewrite E in IH. simpl in IH.
  rewrite IH. case_decide as Hk; simpl in *.
  - subst. destruct (list_find _ items) as [[i kv]|] eqn:F; simpl.
    + apply list_find_Some in F as (Hi & Hp & _). exfalso. apply Hnotin.
      rewrite <- Hp. apply list_elem_of_fmap. exists kv. split; [done|].
      by eapply list_elem_of_lookup_2.
    + by rewrite lookup_insert_eq.
  - destruct (list_find _ items) as [[i kv]|] eqn:F; simpl; [done|].
    by rewrite lookup_insert_ne.
Qed.

Lemma check_items_report prices items : ∀ m,
  (check_items prices items m).2 = (kv ← items; a ← kv.2; report prices a).
Proof.
  induction items as [|[key l] items IH]; intros m; simpl; [done|].
  rewrite check_user_alerts_spec.
  specialize (IH (<[key:=mark prices <$> l]> m)).
  destruct (check_items prices items _) as [m' t2]. simpl in *. by rewrite IH.
Qed.

Lemma list_find_items {V} (m : gmap string V) k :
  match list_find (λ kv : string * V, kv.1 = k) (map_to_list m) with
  | Some (_, kv) => kv.1 = k ∧ m !! k = Some kv.2
  | None => m !! k = None
  end.
Proof.
  destruct (list_find _ _) as [[i [k' v]]|] eqn:F.
  - apply list_find_Some in F as (Hi & Hp & _). simpl in *. split; [done|].
    subst. apply elem_of_map_to_list. by eapply list_elem_of_lookup_2.
  - destruct (m !! k) as [v|] eqn:E; [|done]. exfalso.
    apply elem_of_map_to_list in E.
    eapply list_find_None in F. rewrite Forall_forall in F.
    by apply (F _ E).
Qed.

Lemma evaluate_spec prices s :
  evaluate prices s =
    ({| alerts := mark_all prices (alerts s); next_id := next_id s |},
     reports prices (alerts s)).
Proof.
  unfold evaluate.
  pose proof (check_items_report prices (map_to_list (alerts s)) (alerts s)) as Hr.
  pose proof (λ k, check_items_lookup prices (map_to_list (alerts s)) (alerts s) k
                     (NoDup_fst_map_to_list _)) as Hl.
  destruct (check_items _ _ _) as [m t]. simpl in *. subst t. f_equal. f_equal.
  apply map_eq. intros k. unfold mark_all. rewrite Hl, lookup_fmap.
  pose proof (list_find_items (alerts s) k) as F.
  destruct (list_find _ _) as [[i kv]|].
  - destruct F as [_ ->]. done.
  - by rewrite F.
Qed.


Lemma stored_stored_at s key alert : stored s key alert → ∃ i, stored_at s key i alert.
Proof.
  intros (l & Hl & Hin). apply list_elem_of_lookup in Hin as [i Hi].
  exists i, l. done.
Qed.

Lemma elem_of_reports prices (m : gmap string (list Alert)) b p :
  (b, p) ∈ reports prices m ↔
  ∃ key l a, m !! key = Some l ∧ a ∈ l ∧ fires prices a = true
             ∧ b = set_triggered a
             ∧ p = observed prices a.
Proof.
  unfold reports, reports_of. rewrite list_elem_of_bind. split.
  - intros ([key l] & Hin & Hkv). simpl in Hin.
    apply list_elem_of_bind in Hin as (a & Hrep & Ha).
    unfold report in Hrep. destruct (fires prices a) eqn:Hf; [|by apply elem_of_nil in Hrep].
    apply list_elem_of_singleton in Hrep. injection Hrep as -> ->.
    exists key, l, a. by apply elem_of_map_to_list in Hkv.
  - intros (key & l & a & Hl & Ha & Hf & -> & ->).
    exists (key, l). split; [|by apply elem_of_map_to_list].
    simpl. apply list_elem_of_bind. exists a. split; [|done].
    unfold report. rewrite Hf. by apply list_elem_of_singleton.
Qed.

Lemma fires_untriggered prices a : fires prices a = true → triggered a = false.
Proof. unfold fires. destruct (triggered a); simpl; [discriminate|done]. Qed.

Lemma mark_cases prices a :
  (fires prices a = false ∧ mark prices a = a)
  ∨ (fires prices a = true ∧ triggered a = false ∧ mark prices a = set_triggered a).
Proof.
  unfold mark. destruct (fires prices a) eqn:Hf; [right|left]; [|done].
  split; [done|]. split; [|done]. by eapply fires_untriggered.
Qed.

Lemma no_report_no_change prices (m : gmap string (list Alert)) :
  reports prices m = [] → mark_all prices m = m.
Proof.
  intros Hnil. apply map_eq. intros k. unfold mark_all. rewrite lookup_fmap.
  destruct (m !! k) as [l|] eqn:Hl; simpl; [|done]. f_equal.
  rewrite <- (list_fmap_id l) at 2. apply list_fmap_ext. intros i a Hi. simpl.
  destruct (mark_cases prices a) as [[_ ->]|(Hf & _ & _)]; [done|]. exfalso.
  assert ((set_triggered a, observed prices a)
          ∈ reports prices m) as Hin.
  { apply elem_of_reports. exists k, l, a. repeat split; try done.
    by eapply list_elem_of_lookup_2. }
  rewrite Hnil in Hin. by apply elem_of_nil in Hin.
Qed.

(** ** The coins requested by a sweep *)

Lemma elem_of_foldl_add_coin l : ∀ acc c,
  c ∈ foldl add_coin acc l ↔ c ∈ acc ∨ ∃ a, a ∈ l ∧ triggered a = false ∧ coin a = c.
Proof.
  induction l as [|a l IH]; intros acc c; simpl.
  - split; [by left|]. intros [?|(a & Ha & _)]; [done|]. by apply elem_of_nil in Ha.
  - rewrite IH. unfold add_coin. split.
    + intros [Hacc|(b & Hb & Ht & Hc)].
      * destruct (triggered a) eqn:Ht; [by left|].
        apply elem_of_union in Hacc as [?|Hs]; [by left|].
        apply elem_of_singleton in Hs. right. exists a. split; [left|done].
      * right. exists b. split; [by right|done].
    + intros [Hacc|(b & Hb & Ht & Hc)].
      * left. destruct (triggered a); [done|]. apply elem_of_union. by left.
      * apply elem_of_cons in Hb as [->|Hb].
        -- left. rewrite Ht. apply elem_of_union. right. by apply elem_of_singleton.
        -- right. by exists b.
Qed.

Lemma elem_of_coins_of_items_from items : ∀ (acc : gset string) c,
  c ∈ foldl (λ acc (item : string * list Alert), foldl add_coin acc item.2) acc items ↔
  c ∈ acc ∨ ∃ kv a, kv ∈ items ∧ a ∈ kv.2 ∧ triggered a = false ∧ coin a = c.
Proof.
  induction items as [|kv items IH]; intros acc c; simpl.
  - split; [by left|]. intros [?|(kv & a & Hkv & _)]; [done|]. by apply elem_of_nil in Hkv.
  - rewrite IH, elem_of_foldl_add_coin. split.
    + intros [[?|(a & Ha & Ht & Hc)]|(kv' & a & Hkv & Ha & Ht & Hc)].
      * by left.
      * right. exists kv, a. split; [left|done].
      * right. exists kv', a. split; [by right|done].
    + intros [?|(kv' & a & Hkv & Ha & Ht & Hc)]; [by left; left|].
      apply elem_of_cons in Hkv as [->|Hkv].
      * left. right. by exists a.
      * right. by exists kv', a.
Qed.

Lemma elem_of_coins_to_check s c :
  c ∈ coins_to_check s ↔
  ∃ key a, stored s key a ∧ triggered a = false ∧ coin a = c.
Proof.
  unfold coins_to_check, coins_of_items. rewrite elem_of_coins_of_items_from. split.
  - intros [Hemp|([k l] & a & Hkv & Ha & Ht & Hc)]; [by apply elem_of_empty in Hemp|].
    exists k, a. split; [|done]. exists l. by apply elem_of_map_to_list in Hkv.
  - intros (k & a & (l & Hl & Ha) & Ht & Hc). right.
    exists (k, l), a. by apply elem_of_map_to_list in Hl.
Qed.

(** ** The price source *)

Lemma get_multiple_prices_from_fetcher coins : ∀ prices df,
  (get_multiple_prices_from prices coins df).2
  = {| source := source df; requests := requests df ++ coins |}.
Proof.
  induction coins as [|c coins IH]; intros prices df; simpl.
  - rewrite app_nil_r. by destruct df.
  - rewrite IH. simpl. by rewrite <- app_assoc.
Qed.

Lemma get_multiple_prices_from_dom coins : ∀ prices df c,
  is_Some ((get_multiple_prices_from prices coins df).1 !! c)
  ↔ is_Some (prices !! c) ∨ c ∈ coins.
Proof.
  induction coins as [|c' coins IH]; intros prices df c; simpl.
  - split; [by left|]. intros [?|Hc]; [done|]. by apply elem_of_nil in Hc.
  - rewrite IH. rewrite elem_of_cons.
    destruct (source df (requests df) c') as [p|];
      (destruct (decide (c = c')) as [->|Hne];
       [rewrite lookup_insert_eq; split; [by right; left|by (left; eexists)]
       |rewrite lookup_insert_ne by done; tauto]).
Qed.

(** ** The cleanup *)

Lemma sub_us_opp a b : sub_us a b = - sub_us b a.
Proof. unfold sub_us. lia. Qed.

Lemma cleaned_refl now l : cleaned now l l.
Proof. split; [done|auto]. Qed.

Lemma keep_alerts_filter now l kept :
  keep_alerts now l = Some kept →
  kept = filter (λ a, keep_alert now a = Some true) l.
Proof.
  revert kept. induction l as [|a l IH]; intros kept; simpl.
  - by intros [= <-].
  - destruct (keep_alert now a) as [k|] eqn:Hk; simpl; [|discriminate].
    destruct (keep_alerts now l) as [rest|]; simpl; [|discriminate].
    intros [= <-]. rewrite (IH rest eq_refl). rewrite filter_cons.
    destruct k; case_decide; congruence.
Qed.

Lemma keep_alerts_cleaned now l kept :
  keep_alerts now l = Some kept → cleaned now l kept.
Proof.
  intros ->%keep_alerts_filter. split.
  - apply sublist_filter.
  - intros a Ha Hk. by apply list_elem_of_filter.
Qed.

Lemma cleanup_items_inv now items : ∀ m m0 : gmap string (list Alert),
  NoDup items.*1 →
  (∀ k l, (k, l) ∈ items → m !! k = Some l) →
  (∀ k, option_Forall2 (cleaned now) (m0 !! k) (m !! k)) →
  ∀ k, option_Forall2 (cleaned now) (m0 !! k) ((cleanup_items now items m).1 !! k).
Proof.
  induction items as [|[key l] items IH]; intros m m0 Hnd Hit Hrel k; simpl; [done|].
  destruct (keep_alerts now l) as [kept|] eqn:Hk; [|done].
  apply NoDup_cons in Hnd as [Hnotin Hnd].
  apply IH; [done| |].
  - intros k' l' Hin. rewrite lookup_insert_ne.
    + apply Hit. by right.
    + intros ->. apply Hnotin. apply list_elem_of_fmap. by exists (k', l').
  - intros k'. destruct (decide (key = k')) as [<-|Hne].
    + rewrite lookup_insert_eq. specialize (Hrel key).
      rewrite (Hit key l) in Hrel by left.
      inversion Hrel as [l0 l1 [Hsub Hkeep] E1 E2|]; subst. constructor.
      apply keep_alerts_cleaned in Hk as [Hsub' Hkeep']. split.
      * by etrans.
      * intros a Ha Hka. apply Hkeep'; [|done]. by apply Hkeep.
    + by rewrite lookup_insert_ne.
Qed.

Lemma cleanup_cleaned now s k :
  option_Forall2 (cleaned now) (alerts s !! k)
                 (alerts (_cleanup_triggered_alerts now s).1 !! k).
Proof.
  unfold _cleanup_triggered_alerts.
  pose proof (cleanup_items_inv now (map_to_list (alerts s)) (alerts s) (alerts s)
                (NoDup_fst_map_to_list _)) as H.
  destruct (cleanup_items _ _ _) as [m raised]. simpl in *. apply H.
  - intros k' l Hin. by apply elem_of_map_to_list.
  - intros k'. destruct (alerts s !! k'); constructor. apply cleaned_refl.
Qed.

Lemma cleanup_next_id now s : next_id (_cleanup_triggered_alerts now s).1 = next_id s.
Proof. unfold _cleanup_triggered_alerts. by destruct (cleanup_items _ _ _). Qed.

(** ** The sweep as a whole *)

Lemma all_triggered_no_fire s prices :
  coins_to_check s = ∅ → ∀ key a, stored s key a → fires prices a = false.
Proof.
  intros Hemp key a Hst. unfold fires.
  destruct (triggered a) eqn:Ht; [done|]. exfalso.
  assert (coin a ∈ coins_to_check s) as Hin.
  { apply elem_of_coins_to_check. by exists key, a. }
  rewrite Hemp in Hin. by apply elem_of_empty in Hin.
Qed.

Lemma no_fire_reports prices (m : gmap string (list Alert)) :
  (∀ key l a, m !! key = Some l → a ∈ l → fires prices a = false) →
  reports prices m = [].
Proof.
  intros H. destruct (reports prices m) as [|[b p] r] eqn:E; [done|]. exfalso.
  assert ((b, p) ∈ reports prices m) as Hin by (rewrite E; left).
  apply elem_of_reports in Hin as (key & l & a & Hl & Ha & Hf & _).
  rewrite (H key l a Hl Ha) in Hf. discriminate.
Qed.

(** [check_alerts] in terms of the two loops read as maps. *)
Lemma check_alerts_eq now df s :
  check_alerts now df s =
    if decide (coins_to_check s = ∅) then (Some [], s, df)
    else
      let prices := fetched_prices df s in
      let df' := (get_multiple_prices (elements (coins_to_check s)) df).2 in
      match reports prices (alerts s) with
      | [] => (Some [], s, df')
      | newly =>
          let c := _cleanup_triggered_alerts now
                     {| alerts := mark_all prices (alerts s); next_id := next_id s |} in
          (if c.2 then None else Some newly, c.1, df')
      end.
Proof.
  unfold check_alerts, fetched_prices. case_decide; [done|].
  destruct (get_multiple_prices _ df) as [prices df'] eqn:G. simpl.
  rewrite evaluate_spec.
  destruct (reports prices (alerts s)) as [|x r] eqn:R.
  - rewrite (no_report_no_change _ _ R). by destruct s.
  - by destruct (_cleanup_triggered_alerts _ _).
Qed.

(** The list a sweep returns is the list the second loop built. *)
Lemma check_alerts_returned now df s r s' df' :
  check_alerts now df s = (Some r, s', df') →
  r = reports (fetched_prices df s) (alerts s).
Proof.
  rewrite check_alerts_eq. case_decide as Hc.
  - intros [= <- <- <-]. symmetry. apply no_fire_reports.
    intros key l a Hl Ha. eapply all_triggered_no_fire; [done|]. by exists l.
  - simpl. destruct (reports _ _) as [|x newly] eqn:R; [by intros [= <- <- <-]|].
    destruct (_cleanup_triggered_alerts _ _) as [s2 raised]. simpl.
    destruct raised; [discriminate|]. by intros [= <- <- <-].
Qed.

Lemma mark_id_swept now prices l :
  (∀ a, a ∈ l → fires prices a = false) → swept now prices l l.
Proof.
  intros H. unfold swept.
  replace (mark prices <$> l) with l; [apply cleaned_refl|].
  rewrite <- (list_fmap_id l) at 1. apply list_fmap_ext. intros i a Hi.
  unfold mark. rewrite H; [done|]. by eapply list_elem_of_lookup_2.
Qed.

Lemma check_alerts_swept now df s k :
  option_Forall2 (swept now (fetched_prices df s))
    (alerts s !! k) (alerts (check_alerts now df s).1.2 !! k).
Proof.
  rewrite check_alerts_eq. case_decide as Hc; simpl.
  - destruct (alerts s !! k) as [l|] eqn:Hl; constructor.
    apply mark_id_swept. intros a Ha. eapply all_triggered_no_fire; [done|]. by exists l.
  - destruct (reports _ _) as [|x newly] eqn:R; simpl.
    + destruct (alerts s !! k) as [l|] eqn:Hl; constructor.
      apply mark_id_swept. intros a Ha.
      destruct (fires (fetched_prices df s) a) eqn:Hf; [|done]. exfalso.
      assert ((set_triggered a, observed (fetched_prices df s) a)
              ∈ reports (fetched_prices df s) (alerts s)) as Hin.
      { apply elem_of_reports. by exists k, l, a. }
      rewrite R in Hin. by apply elem_of_nil in Hin.
    + pose proof (cleanup_cleaned now
        {| alerts := mark_all (fetched_prices df s) (alerts s); next_id := next_id s |} k) as H.
      simpl in H. unfold mark_all in H at 1. rewrite lookup_fmap in H.
      destruct (alerts s !! k) as [l|]; simpl in *.
      * inversion H; subst. by constructor.
      * inversion H; subst. constructor.
Qed.

Lemma check_alerts_next_id now df s :
  next_id (check_alerts now df s).1.2 = next_id s.
Proof.
  rewrite check_alerts_eq. case_decide; [done|]. simpl.
  destruct (reports _ _); [done|]. simpl. by rewrite cleanup_next_id.
Qed.

Lemma check_alerts_requests now df s :
  (check_alerts now df s).2
  = {| source := source df;
       requests := requests df ++ elements (coins_to_check s) |}.
Proof.
  rewrite check_alerts_eq. case_decide as Hc.
  - simpl. rewrite Hc, elements_empty, app_nil_r. by destruct df.
  - simpl. unfold get_multiple_prices.
    destruct (reports _ _); simpl; apply get_multiple_prices_from_fetcher.
Qed.

Lemma set_triggered_inj a b :
  triggered a = false → triggered b = false →
  set_triggered a = set_triggered b → a = b.
Proof.
  destruct a, b. unfold set_triggered. simpl. intros -> -> [= -> -> -> -> -> ->]. done.
Qed.

Lemma fires_iff prices a :
  fires prices a = true ↔
  triggered a = false
  ∧ Float.gt (observed prices a) Float.zero = true
  ∧ condition_met a (observed prices a) = true.
Proof.
  unfold fires. rewrite !andb_true_iff, negb_true_iff. tauto.
Qed.

Lemma condition_met_above a p :
  condition a = "above" → condition_met a p = Float.ge p (price a).
Proof.
  unfold condition_met. intros ->. simpl.
  by destruct (Float.ge p (price a)).
Qed.

Lemma condition_met_below a p :
  condition a = "below" → condition_met a p = Float.le p (price a).
Proof.
  unfold condition_met. intros ->. simpl.
  by destruct (Float.le p (price a)).
Qed.

Lemma condition_met_other a p :
  condition a ≠ "above" → condition a ≠ "below" → condition_met a p = false.
Proof.
  unfold condition_met. intros H1 H2.
  apply String.eqb_neq in H1, H2. by rewrite H1, H2.
Qed.


(** The pair of an alert that is not yet triggered is in the list of the
    second loop exactly when that alert fires. *)
Lemma reported_iff_fires prices s key a p :
  stored s key a → triggered a = false →
  (set_triggered a, p) ∈ reports prices (alerts s)
  ↔ fires prices a = true ∧ p = observed prices a.
Proof.
  intros (l & Hl & Ha) Ht. rewrite elem_of_reports. split.
  - intros (key2 & l2 & a2 & _ & _ & Hf & Heq & ->).
    apply set_triggered_inj in Heq; [by subst| done |by eapply fires_untriggered].
  - intros [Hf ->]. by exists key, l, a.
Qed.
(** ** The prices of a sweep come from the source *)

Lemma get_multiple_prices_from_notin coins : ∀ prices df c,
  c ∉ coins → (get_multiple_prices_from prices coins df).1 !! c = prices !! c.
Proof.
  induction coins as [|c' coins IH]; intros prices df c Hnotin; simpl; [done|].
  apply not_elem_of_cons in Hnotin as [Hne Hnotin]. rewrite IH by done.
  destruct (source df (requests df) c'); by rewrite lookup_insert_ne.
Qed.

Lemma get_multiple_prices_from_lookup coins : ∀ prices df i c,
  NoDup coins → coins !! i = Some c →
  (get_multiple_prices_from prices coins df).1 !! c
  = Some (default Float.zero (source df (requests df ++ take i coins) c)).
Proof.
  induction coins as [|c' coins IH]; intros prices df i c Hnd Hi; [done|].
  apply NoDup_cons in Hnd as [Hnotin Hnd]. destruct i as [|i]; simpl in *.
  - injection Hi as ->. rewrite get_multiple_prices_from_notin by done.
    rewrite app_nil_r. destruct (source df (requests df) c); by rewrite lookup_insert_eq.
  - rewrite (IH _ _ i c Hnd Hi). simpl. by rewrite <- app_assoc.
Qed.

(** In a sweep no symbol of an alert not yet triggered lacks a price: the
    price is the answer of the source, or zero when the call raised. *)
Lemma fetched_price_of_source df s key a :
  stored s key a → triggered a = false →
  ∃ i, elements (coins_to_check s) !! i = Some (coin a)
       ∧ fetched_prices df s !! coin a
         = Some (default Float.zero
                   (source df (requests df ++ take i (elements (coins_to_check s)))
                           (coin a))).
Proof.
  intros Hst Ht.
  assert (coin a ∈ elements (coins_to_check s)) as Hin.
  { apply elem_of_elements, elem_of_coins_to_check. by exists key, a. }
  apply list_elem_of_lookup in Hin as [i Hi]. exists i. split; [done|].
  unfold fetched_prices, get_multiple_prices.
  by apply get_multiple_prices_from_lookup; [apply NoDup_elements|].
Qed.

(** ** [add_alert] and [remove_alert] *)

Lemma str_inj u1 u2 : str u1 = str u2 → u1 = u2.
Proof. unfold str. apply pretty_Z_inj. Qed.

Lemma add_alert_lookup now uid c cond p s key :
  alerts (add_alert now uid c cond p s).2 !! key =
    if decide (key = str uid)
    then Some (default [] (alerts s !! str uid)
               ++ [mk_alert (next_id s) uid c cond p (isoformat now) false])
    else alerts s !! key.
Proof.
  unfold add_alert. simpl.
  destruct (decide (alerts s !! str uid = None)) as [Hn|Hn];
    destruct (decide (key = str uid)) as [->|Hk].
  - by rewrite !lookup_insert_eq, Hn.
  - by rewrite !lookup_insert_ne.
  - by rewrite lookup_insert_eq.
  - by rewrite lookup_insert_ne.
Qed.

Lemma add_alert_result now uid c cond p s :
  (add_alert now uid c cond p s).1 = next_id s
  ∧ next_id (add_alert now uid c cond p s).2 = next_id s + 1.
Proof. done. Qed.

Lemma remove_alert_cases uid aid s :
  (remove_alert uid aid s = (false, s)
   ∧ ∀ a, a ∈ get_user_alerts uid s → alert_id a ≠ aid)
  ∨ (∃ l1 a l2,
       alerts s !! str uid = Some (l1 ++ a :: l2)
       ∧ alert_id a = aid
       ∧ (∀ x, x ∈ l1 → alert_id x ≠ aid)
       ∧ remove_alert uid aid s
         = (true, {| alerts := <[str uid := l1 ++ l2]> (alerts s);
                     next_id := next_id s |})).
Proof.
  unfold remove_alert, get_user_alerts.
  destruct (list_find _ _) as [[i a]|] eqn:F.
  - right. apply list_find_Some in F as (Hi & Hid & Hbefore).
    apply list_elem_of_split_length in Hi as (l1 & l2 & Hl & Hlen).
    exists l1, a, l2.
    destruct (alerts s !! str uid) as [l|] eqn:Hl0; simpl in *; [|by destruct l1].
    subst l. split; [done|]. split; [done|]. split.
    + intros x Hx. apply list_elem_of_lookup in Hx as [j Hj].
      apply (Hbefore j x).
      * rewrite lookup_app_l; [done|]. by eapply lookup_lt_Some.
      * subst i. by eapply lookup_lt_Some.
    + do 3 f_equal. subst i. rewrite delete_middle. done.
  - left. split; [done|]. intros a Ha. eapply list_find_None in F.
    rewrite Forall_forall in F. by apply F.
Qed.

(** ** What a sweep does to the stored alerts *)

Lemma swept_elem now prices l l' a' :
  swept now prices l l' → a' ∈ l' → ∃ a, a ∈ l ∧ a' = mark prices a.
Proof.
  intros [Hsub _] Ha'. eapply elem_of_sublist in Ha'; [|done].
  apply list_elem_of_fmap in Ha' as (a & -> & Ha). by exists a.
Qed.

Lemma swept_retain now prices l l' a :
  swept now prices l l' → a ∈ l →
  keep_alert now (mark prices a) = Some true → mark prices a ∈ l'.
Proof.
  intros [_ Hkeep] Ha Hk. apply Hkeep; [|done].
  apply list_elem_of_fmap. by exists a.
Qed.

Lemma keep_untriggered now a : triggered a = false → keep_alert now a = Some true.
Proof. unfold keep_alert. by intros ->. Qed.

Lemma keep_recent now a us :
  age_us now a = Some us → 0 ≤ us → keep_alert now a = Some true.
Proof.
  unfold age_us, keep_alert. destruct (negb (triggered a)); [done|].
  destruct (fromisoformat (created_at a)) as [dt|]; simpl; [|discriminate].
  intros [= <-] Hpos. f_equal. apply Z.ltb_lt. rewrite sub_us_opp. lia.
Qed.

Lemma mark_same_fields prices a : same_fields a (mark prices a).
Proof. unfold mark, same_fields. by destruct (fires prices a). Qed.

Lemma mark_triggered prices a : triggered a = true → mark prices a = a.
Proof.
  intros Ht. destruct (mark_cases prices a) as [[_ ?]|(_ & Hf & _)]; [done|congruence].
Qed.

Lemma sweep_stored_before now df s key a' :
  stored (check_alerts now df s).1.2 key a' →
  ∃ a, stored s key a ∧ a' = mark (fetched_prices df s) a.
Proof.
  intros (l' & Hl' & Ha'). pose proof (check_alerts_swept now df s key) as H.
  rewrite Hl' in H. inversion H as [l l0 Hsw E1 E2|]; subst.
  destruct (swept_elem _ _ _ _ _ Hsw Ha') as (a & Ha & ->).
  exists a. split; [|done]. by exists l.
Qed.

Lemma sweep_stored_after now df s key a :
  stored s key a →
  keep_alert now (mark (fetched_prices df s) a) = Some true →
  stored (check_alerts now df s).1.2 key (mark (fetched_prices df s) a).
Proof.
  intros (l & Hl & Ha) Hk. pose proof (check_alerts_swept now df s key) as H.
  rewrite Hl in H. inversion H as [l0 l' Hsw E1 E2|]; subst.
  exists l'. split; [done|]. by eapply swept_retain.
Qed.

(** ** The invariant of the ids *)

Lemma wf_init : wf init.
Proof.
  split; [|split].
  - intros key a (l & Hl & _). simpl in Hl. by rewrite lookup_empty in Hl.
  - intros key l Hl. simpl in Hl. by rewrite lookup_empty in Hl.
  - intros k1 k2 a1 a2 _ (l & Hl & _). simpl in Hl. by rewrite lookup_empty in Hl.
Qed.

Lemma stored_add_alert now uid c cond p s key a :
  stored (add_alert now uid c cond p s).2 key a ↔
  stored s key a
  ∨ (key = str uid ∧ a = mk_alert (next_id s) uid c cond p (isoformat now) false).
Proof.
  unfold stored. setoid_rewrite add_alert_lookup. split.
  - intros (l & Hl & Ha). case_decide as Hk.
    + injection Hl as <-. apply elem_of_app in Ha as [Ha|Ha].
      * left. destruct (alerts s !! str uid) as [l0|] eqn:E; simpl in Ha.
        -- exists l0. by subst.
        -- by apply elem_of_nil in Ha.
      * right. by apply list_elem_of_singleton in Ha.
    + left. by exists l.
  - intros [(l & Hl & Ha)|[-> ->]].
    + case_decide as Hk.
      * subst. rewrite Hl. simpl. eexists. split; [done|]. apply elem_of_app. by left.
      * by exists l.
    + rewrite decide_True by done. eexists. split; [done|].
      apply elem_of_app. right. left.
Qed.

Lemma wf_add_alert now uid c cond p s :
  wf s → wf (add_alert now uid c cond p s).2.
Proof.
  intros (Hbelow & Hnd & Hcross). split; [|split].
  - intros key a [Hst|[-> ->]]%stored_add_alert; simpl.
    + specialize (Hbelow key a Hst). lia.
    + lia.
  - intros key l. rewrite add_alert_lookup. case_decide as Hk; [|apply Hnd].
    intros [= <-]. rewrite fmap_app. simpl. apply NoDup_app. split; [|split].
    + destruct (alerts s !! str uid) as [l0|] eqn:E; simpl; [by eapply Hnd|constructor].
    + intros i Hi ->%list_elem_of_singleton.
      apply list_elem_of_fmap in Hi as (a & Hid & Ha).
      assert (stored s (str uid) a) as Hst.
      { destruct (alerts s !! str uid) as [l0|] eqn:E; simpl in Ha.
        - by exists l0.
        - by apply elem_of_nil in Ha. }
      specialize (Hbelow _ _ Hst). lia.
    + apply NoDup_singleton.
  - intros k1 k2 a1 a2 Hne [H1|[-> ->]]%stored_add_alert [H2|[-> ->]]%stored_add_alert;
      simpl.
    + by eapply Hcross.
    + specialize (Hbelow _ _ H1). lia.
    + specialize (Hbelow _ _ H2). lia.
    + done.
Qed.

Lemma shrunk_stored s s' key a' :
  shrunk s s' → stored s' key a' → ∃ a, stored s key a ∧ alert_id a = alert_id a'.
Proof.
  intros [_ H] (l' & Hl' & Ha'). destruct (H key l' Hl') as (l & Hl & Hsub).
  assert (alert_id a' ∈ alert_id <$> l) as Hin.
  { eapply elem_of_sublist; [|done]. apply list_elem_of_fmap. by exists a'. }
  apply list_elem_of_fmap in Hin as (a & Hid & Ha). exists a. split; [by exists l|done].
Qed.

Lemma wf_shrunk s s' : wf s → shrunk s s' → wf s'.
Proof.
  intros (Hbelow & Hnd & Hcross) Hsh. split; [|split].
  - intros key a' Hst. destruct (shrunk_stored _ _ _ _ Hsh Hst) as (a & Ha & Hid).
    specialize (Hbelow _ _ Ha). destruct Hsh as [Hle _]. lia.
  - intros key l' Hl'. destruct Hsh as [_ H]. destruct (H key l' Hl') as (l & Hl & Hsub).
    eapply sublist_NoDup; [|exact Hsub]. by eapply Hnd.
  - intros k1 k2 a1 a2 Hne H1 H2.
    destruct (shrunk_stored _ _ _ _ Hsh H1) as (b1 & Hb1 & <-).
    destruct (shrunk_stored _ _ _ _ Hsh H2) as (b2 & Hb2 & <-).
    by eapply Hcross.
Qed.

Lemma shrunk_remove_alert uid aid s : shrunk s (remove_alert uid aid s).2.
Proof.
  destruct (remove_alert_cases uid aid s) as [[-> _]|(l1 & a & l2 & Hl & _ & _ & ->)];
    simpl; (split; [simpl; lia|]).
  - intros key l' Hl'. by exists l'.
  - intros key l'. simpl. destruct (decide (key = str uid)) as [->|Hk].
    + rewrite lookup_insert_eq. intros [= <-]. eexists. split; [done|].
      apply fmap_sublist. apply sublist_app; [done|]. by apply sublist_cons.
    + rewrite lookup_insert_ne by done. intros Hl'. by exists l'.
Qed.

Lemma mark_ids prices (l : list Alert) : alert_id <$> (mark prices <$> l) = alert_id <$> l.
Proof.
  rewrite <- list_fmap_compose. apply list_fmap_ext. intros i a _. simpl.
  symmetry. apply (mark_same_fields prices a).
Qed.

Lemma shrunk_check_alerts now df s : shrunk s (check_alerts now df s).1.2.
Proof.
  split; [by rewrite check_alerts_next_id|].
  intros key l' Hl'. pose proof (check_alerts_swept now df s key) as H.
  rewrite Hl' in H. inversion H as [l l0 [Hsub _] E1 E2|]; subst.
  exists l. split; [done|]. rewrite <- (mark_ids (fetched_prices df s) l).
  by apply fmap_sublist.
Qed.

Lemma step_state o st :
  (step o st).2.1 =
    match o with
    | OpAdd now uid c cond p => (add_alert now uid c cond p st.1).2
    | OpRemove uid aid => (remove_alert uid aid st.1).2
    | OpSweep now => (check_alerts now st.2 st.1).1.2
    end.
Proof.
  destruct o as [now uid c cond p|uid aid|now]; unfold step.
  - done.
  - by destruct (remove_alert uid aid st.1).
  - by destruct (check_alerts now st.2 st.1) as [[? ?] ?].
Qed.

Lemma wf_step o st : wf st.1 → wf (step o st).2.1.
Proof.
  intros Hwf. rewrite step_state. destruct o as [now uid c cond p|uid aid|now].
  - by apply wf_add_alert.
  - eapply wf_shrunk; [done|apply shrunk_remove_alert].
  - eapply wf_shrunk; [done|apply shrunk_check_alerts].
Qed.

Lemma next_id_step o st : next_id st.1 ≤ next_id (step o st).2.1.
Proof.
  rewrite step_state. destruct o as [now uid c cond p|uid aid|now].
  - simpl. lia.
  - apply shrunk_remove_alert.
  - apply shrunk_check_alerts.
Qed.

(** ** Runs of calls *)

Lemma step_event o st :
  (step o st).1 =
    match o with
    | OpAdd now uid c cond p => EvAdded (next_id st.1)
    | OpRemove uid aid => EvRemoved (remove_alert uid aid st.1).1
    | OpSweep now => EvSwept (check_alerts now st.2 st.1).1.1
    end.
Proof.
  destruct o as [now uid c cond p|uid aid|now]; unfold step.
  - done.
  - by destruct (remove_alert uid aid st.1).
  - by destruct (check_alerts now st.2 st.1) as [[? ?] ?].
Qed.

Lemma run_cons o ops st :
  run (o :: ops) st
  = ((step o st).1 :: (run ops (step o st).2).1, (run ops (step o st).2).2).
Proof.
  simpl. destruct (step o st) as [e st1]. simpl. by destruct (run ops st1).
Qed.

Lemma wf_run ops : ∀ st, wf st.1 → wf (run ops st).2.1.
Proof.
  induction ops as [|o ops IH]; intros st Hwf; [done|].
  rewrite run_cons. simpl. apply IH. by apply wf_step.
Qed.

Lemma added_ids_run ops : ∀ st,
  StronglySorted Z.lt (added_ids (run ops st).1)
  ∧ Forall (λ i, next_id st.1 ≤ i < next_id (run ops st).2.1) (added_ids (run ops st).1)
  ∧ next_id st.1 ≤ next_id (run ops st).2.1.
Proof.
  induction ops as [|o ops IH]; intros st.
  - simpl. split; [constructor|]. split; [constructor|lia].
  - rewrite run_cons. destruct (IH (step o st).2) as (Hs & Hall & Hle).
    pose proof (next_id_step o st) as Hstep.
    set (st1 := (step o st).2) in *. set (st2 := run ops st1) in *.
    cbn [fst snd]. rewrite step_event.
    destruct o as [now uid c cond p|uid aid|now]; cbn [added_ids].
    + assert (next_id st1.1 = next_id st.1 + 1) as Hn.
      { unfold st1. by rewrite step_state. }
      split; [|split].
      * constructor; [done|]. eapply Forall_impl; [exact Hall|].
        intros i Hi. simpl in Hi. lia.
      * constructor; [lia|]. eapply Forall_impl; [exact Hall|].
        intros i Hi. simpl in *. lia.
      * lia.
    + split; [done|]. split; [|lia]. eapply Forall_impl; [exact Hall|].
      intros i Hi. simpl in *. lia.
    + split; [done|]. split; [|lia]. eapply Forall_impl; [exact Hall|].
      intros i Hi. simpl in *. lia.
Qed.

(** ** The text of a datetime is read back *)

Lemma digit_val_digit n : digit_val (digit n) = Some (n mod 10).
Proof.
  unfold digit.
  assert (0 ≤ n mod 10 < 10) as H by (apply Z.mod_pos_bound; lia).
  assert (∃ k, (k < 10)%nat ∧ n mod 10 = Z.of_nat k) as (k & Hk & ->).
  { exists (Z.to_nat (n mod 10)). lia. }
  rewrite Nat2Z.id.
  do 10 (destruct k as [|k]; [reflexivity|]). lia.
Qed.

Lemma two_digits n :
  0 ≤ n < 100 → (0 * 10 + (n / 10) mod 10) * 10 + n mod 10 = n.
Proof. intros H. Z.div_mod_to_equations. lia. Qed.

Lemma four_digits n :
  0 ≤ n < 10000 →
  (((0 * 10 + (n / 10 / 10 / 10) mod 10) * 10 + (n / 10 / 10) mod 10) * 10
   + (n / 10) mod 10) * 10 + n mod 10 = n.
Proof. intros H. Z.div_mod_to_equations. lia. Qed.

Lemma six_digits n :
  0 ≤ n < 1000000 →
  (((((0 * 10 + (n / 10 / 10 / 10 / 10 / 10) mod 10) * 10
      + (n / 10 / 10 / 10 / 10) mod 10) * 10
     + (n / 10 / 10 / 10) mod 10) * 10 + (n / 10 / 10) mod 10) * 10
   + (n / 10) mod 10) * 10 + n mod 10 = n.
Proof. intros H. Z.div_mod_to_equations. lia. Qed.

Lemma days_in_month_le y m : days_in_month y m ≤ 31.
Proof.
  unfold days_in_month.
  destruct (m =? 2); [destruct (is_leap y); lia|].
  destruct (_ || _); lia.
Qed.

Lemma valid_bounds d :
  valid d = true →
  (0 ≤ year d < 10000) ∧ (0 ≤ month d < 100) ∧ (0 ≤ day d < 100)
  ∧ (0 ≤ hour d < 100) ∧ (0 ≤ minute d < 100) ∧ (0 ≤ second d < 100)
  ∧ (0 ≤ microsecond d < 1000000).
Proof.
  unfold valid. rewrite !andb_true_iff, !Z.leb_le.
  pose proof (days_in_month_le (year d) (month d)). lia.
Qed.

(** [fromisoformat] inverts [isoformat] on every valid datetime: the text
    that [add_alert] stores is always read back by the cleanup. *)
Lemma fromisoformat_isoformat d :
  valid d = true → fromisoformat (isoformat d) = Some d.
Proof.
  intros Hv. destruct (valid_bounds d Hv) as (Hy & Hmo & Hd & Hh & Hmi & Hse & Hus).
  destruct d as [y mo dd h mi se us].
  unfold fromisoformat, isoformat.
  cbn [year month day hour minute second microsecond] in *.
  destruct (us =? 0) eqn:E.
  - lazy -[Z.div Z.modulo Z.add Z.mul Z.eqb Z.leb Z.ltb digit digit_val valid].
    rewrite !digit_val_digit.
    rewrite (four_digits y Hy), (two_digits mo Hmo), (two_digits dd Hd),
      (two_digits h Hh), (two_digits mi Hmi), (two_digits se Hse).
    apply Z.eqb_eq in E. subst us. by rewrite Hv.
  - lazy -[Z.div Z.modulo Z.add Z.mul Z.eqb Z.leb Z.ltb digit digit_val valid].
    rewrite !digit_val_digit.
    rewrite (four_digits y Hy), (two_digits mo Hmo), (two_digits dd Hd),
      (two_digits h Hh), (two_digits mi Hmi), (two_digits se Hse), (six_digits us Hus).
    by rewrite Hv.
Qed.

(** An alert built by [add_alert] at a valid time [t] has the age
    [now - t]. *)
Lemma age_us_add_alert now t uid c cond p s key a :
  valid t = true →
  stored (add_alert t uid c cond p s).2 key a →
  alert_id a = next_id s →
  ids_below s →
  age_us now a = Some (sub_us now t).
Proof.
  intros Hv [Hst|[-> ->]]%stored_add_alert Hid Hbelow.
  - specialize (Hbelow _ _ Hst). lia.
  - unfold age_us. simpl. by rewrite fromisoformat_isoformat.
Qed.

(** ** Scenarios *)

(** One alert above 50000; the feed answers 51000, then 52000.  The first
    sweep reports the alert at 51000, the second reports nothing and asks
    for no price. *)
Example scenario_trigger_once :
  let feed := {| source := λ history _,
                   match history with
                   | [] => Some (of_Z 51000)
                   | _ => Some (of_Z 52000)
                   end;
                 requests := [] |} in
  let r := run [OpAdd (mk_datetime 2024 1 1 1 0 0 0) 1 "BTC" "above" (of_Z 50000);
                OpSweep w_now23; OpSweep w_now25] (init, feed) in
  r.1 = [EvAdded 1;
         EvSwept (Some [(w_old, of_Z 51000)]);
         EvSwept (Some [])]
  ∧ requests r.2.2 = ["BTC"]
  ∧ get_user_alerts 1 r.2.1 = [w_old].
Proof. vm_compute. done. Qed.

(** Two owners, one symbol: one request, both alerts evaluated. *)
Example scenario_two_owners :
  let r := run [OpAdd (mk_datetime 2024 1 1 1 0 0 0) 1 "BTC" "above" (of_Z 50000);
                OpAdd (mk_datetime 2024 1 1 1 0 0 0) 2 "BTC" "below" (of_Z 50000);
                OpSweep w_now23] (init, w_fetcher) in
  r.1 = [EvAdded 1; EvAdded 2;
         EvSwept (Some [(set_triggered w_above, of_Z 50000);
                        (set_triggered w_below, of_Z 50000)])]
  ∧ requests r.2.2 = ["BTC"].
Proof. vm_compute. done. Qed.

(** The id of another owner's alert: nothing is removed. *)
Example scenario_remove_foreign_id :
  remove_alert 2 1 w_store = (false, w_store)
  ∧ (remove_alert 1 1 w_store).1 = true
  ∧ get_user_alerts 1 (remove_alert 1 1 w_store).2 = []
  ∧ get_user_alerts 2 (remove_alert 1 1 w_store).2 = [w_below].
Proof. vm_compute. done. Qed.

(** A price of zero, a negative price and NaN trigger nothing, even for a
    ["below"] alert. *)
Example scenario_invalid_prices :
  let s := {| alerts := {[ "2" := [w_below] ]}; next_id := 3 |} in
  (evaluate {[ "BTC" := of_Z 0 ]} s).2 = []
  ∧ (evaluate {[ "BTC" := of_Z (-5) ]} s).2 = []
  ∧ (evaluate {[ "BTC" := NaN ]} s).2 = []
  ∧ (evaluate ∅ s).2 = []
  ∧ (evaluate {[ "BTC" := Fin (1 # 2) ]} s).2 = [(set_triggered w_below, Fin (1 # 2))].
Proof. vm_compute. done. Qed.

(** [set_alert] on the arguments of [/setalert btc ABOVE 50000]. *)
Example scenario_set_alert :
  let parse := λ text : string,
    if String.eqb text "50000" then Some (of_Z 50000) else None in
  (set_alert parse (mk_datetime 2024 1 1 1 0 0 0) 1 ["btc"; "ABOVE"; "50000"] init).1
  = ReplyAlertSet 1 "BTC" "above" (of_Z 50000)
  ∧ (set_alert parse w_now 1 ["btc"; "over"; "50000"] init) = (ReplyBadCondition, init)
  ∧ (set_alert parse w_now 1 ["btc"; "above"; "lots"] init) = (ReplyBadPrice, init)
  ∧ (set_alert parse w_now 1 ["btc"; "above"] init) = (ReplyUsage, init).
Proof. vm_compute. done. Qed.

(** ** What the cleanup keeps, exactly *)

Lemma cleanup_items_done now items : ∀ m : gmap string (list Alert),
  NoDup items.*1 →
  (cleanup_items now items m).2 = false →
  ∀ k,
    (cleanup_items now items m).1 !! k =
      match list_find (λ kv : string * list Alert, kv.1 = k) items with
      | Some (_, kv) => Some (filter (λ a, keep_alert now a = Some true) kv.2)
      | None => m !! k
      end.
Proof.
  induction items as [|[key l] items IH]; intros m Hnd Hok k; simpl in *; [done|].
  destruct (keep_alerts now l) as [kept|] eqn:Hk; [|done].
  apply NoDup_cons in Hnd as [Hnotin Hnd]. rewrite (IH _ Hnd Hok k).
  apply keep_alerts_filter in Hk as ->.
  destruct (decide (key = k)) as [->|Hne]; simpl.
  - destruct (list_find _ items) as [[i kv]|] eqn:F; simpl.
    + apply list_find_Some in F as (Hi & Hp & _). exfalso. apply Hnotin.
      rewrite <- Hp. apply list_elem_of_fmap. exists kv. split; [done|].
      by eapply list_elem_of_lookup_2.
    + by rewrite lookup_insert_eq.
  - destruct (list_find _ items) as [[i kv]|] eqn:F; simpl; [done|].
    by rewrite lookup_insert_ne.
Qed.

(** When the cleanup ends without an exception, each list holds exactly
    the alerts that pass the test of the comprehension, in their order. *)
Lemma cleanup_filter now s :
  (_cleanup_triggered_alerts now s).2 = false →
  alerts (_cleanup_triggered_alerts now s).1
  = (λ l : list Alert, filter (λ a, keep_alert now a = Some true) l) <$> alerts s.
Proof.
  unfold _cleanup_triggered_alerts.
  pose proof (cleanup_items_done now (map_to_list (alerts s)) (alerts s)
                (NoDup_fst_map_to_list _)) as H.
  destruct (cleanup_items _ _ _) as [m raised]. simpl in *. intros ->.
  apply map_eq. intros k. rewrite (H eq_refl k), lookup_fmap.
  pose proof (list_find_items (alerts s) k) as F.
  destruct (list_find _ _) as [[i kv]|].
  - by destruct F as [_ ->].
  - by rewrite F.
Qed.

(** ** Loading without a usable file *)

Lemma load_alerts_no_file json_loads s : load_alerts json_loads None s = Some s.
Proof. done. Qed.

Lemma load_alerts_rejected json_loads text s :
  json_loads text = None → load_alerts json_loads (Some text) s = Some init.
Proof. unfold load_alerts. by intros ->. Qed.

(** ** Reading back the text of a JSON value *)

Lemma app_cons c s r : String c s +:+ r = String c (s +:+ r).
Proof. reflexivity. Qed.

Lemma app_empty_l r : EmptyString +:+ r = r.
Proof. reflexivity. Qed.

Lemma app_empty_r s : s +:+ EmptyString = s.
Proof. induction s as [|c s IH]; [done|]. by rewrite app_cons, IH. Qed.

Lemma string_app_assoc a b c : (a +:+ b) +:+ c = a +:+ (b +:+ c).
Proof. induction a as [|x a IH]; [done|]. by rewrite !app_cons, IH. Qed.

Lemma rev_app_app s : ∀ a b, String.rev_app (String.rev_app s a) b = String.rev_app a (s +:+ b).
Proof.
  induction s as [|c s IH]; intros a b; [done|].
  simpl. by rewrite IH.
Qed.

Lemma rev_rev_app s : String.rev (String.rev_app s EmptyString) = s.
Proof. unfold String.rev. rewrite rev_app_app. simpl. apply app_empty_r. Qed.

Lemma prepend_prepend a b o : prepend a (prepend b o) = prepend (a ++ b) o.
Proof. destruct o; simpl; [|done]. by rewrite app_assoc. Qed.

Lemma lex_escape_char c acc r :
  lex (InString acc Plain) (escape_char c +:+ r)
  = lex (InString (String c acc) Plain) r.
Proof.
  destruct c as [[] [] [] [] [] [] [] []]; reflexivity.
Qed.

Lemma lex_escape s : ∀ acc r,
  lex (InString acc Plain) (escape s +:+ r)
  = lex (InString (String.rev_app s acc) Plain) r.
Proof.
  induction s as [|c s IH]; intros acc r; [done|].
  simpl. by rewrite string_app_assoc, lex_escape_char, IH.
Qed.

Lemma lex_quoted s r :
  lex Idle (quoted s +:+ r) = prepend [TString s] (lex Idle r).
Proof.
  unfold quoted. rewrite app_cons, string_app_assoc, app_cons, app_empty_l.
  change (lex Idle (String quote_char ?x)) with (lex (InString EmptyString Plain) x).
  rewrite lex_escape.
  change (lex (InString ?a Plain) (String quote_char r))
    with (ts ← lex Idle r; Some (TString (String.rev a) :: ts)).
  rewrite rev_rev_app. by destruct (lex Idle r).
Qed.
Lemma lex_atom_start c :
  atom_char c = true → start_of c = Enter (InAtom (String c EmptyString)).
Proof.
  destruct c as [[] [] [] [] [] [] [] []]; intros H;
    first [discriminate H | reflexivity].
Qed.

Lemma lex_atom_chars a : ∀ acc r,
  all_atom a = true →
  lex (InAtom acc) (a +:+ r) = lex (InAtom (String.rev_app a acc)) r.
Proof.
  induction a as [|c a IH]; intros acc r H; [done|].
  simpl in H. apply andb_prop in H as [Hc Ha].
  rewrite app_cons. simpl. rewrite Hc. by apply IH.
Qed.

Lemma lex_atom_end acc r :
  delimited r = true →
  lex (InAtom acc) r = prepend [TAtom (String.rev acc)] (lex Idle r).
Proof.
  destruct r as [|c r]; [done|]. simpl. intros H%negb_true_iff. rewrite H.
  destruct (start_of c) as [|t|st|];
    [by destruct (lex Idle r)|by destruct (lex Idle r)|by destruct (lex st r)|done].
Qed.

Lemma lex_atom a r :
  atom_text a = true → delimited r = true →
  lex Idle (a +:+ r) = prepend [TAtom a] (lex Idle r).
Proof.
  destruct a as [|c a]; [done|]. intros H Hr.
  cbn [atom_text all_atom] in H. apply andb_prop in H as [Hc Ha].
  rewrite app_cons.
  change (lex Idle (String c ?x))
    with (match start_of c with
          | Skip => lex Idle x
          | Emit t => ts ← lex Idle x; Some (t :: ts)
          | Enter st' => lex st' x
          | Reject => None
          end).
  rewrite (lex_atom_start c Hc), (lex_atom_chars a _ _ Ha), (lex_atom_end _ _ Hr).
  unfold String.rev. rewrite rev_app_app. simpl. by rewrite app_empty_r.
Qed.

Lemma lex_space r : lex Idle (String " " r) = lex Idle r.
Proof. reflexivity. Qed.

Lemma lex_spaces n r : lex Idle (spaces n +:+ r) = lex Idle r.
Proof.
  induction n as [|n IH]; [done|]. cbn [spaces]. by rewrite app_cons, lex_space.
Qed.

Lemma lex_break level r : lex Idle (break level +:+ r) = lex Idle r.
Proof.
  unfold break. rewrite app_cons.
  change (lex Idle (String newline ?x)) with (lex Idle x). apply lex_spaces.
Qed.

(** *** Integers *)

Lemma digits_from_app a : ∀ b acc,
  digits_from acc (a +:+ b) = digits_from acc a ≫= λ v, digits_from v b.
Proof.
  induction a as [|c a IH]; intros b acc; [done|].
  rewrite app_cons. simpl. destruct (digit_val c); [apply IH|done].
Qed.

Lemma digit_val_atom c v : digit_val c = Some v → atom_char c = true.
Proof.
  destruct c as [[] [] [] [] [] [] [] []]; intros H;
    first [discriminate H | reflexivity].
Qed.

Lemma digits_from_atom d : ∀ acc v, digits_from acc d = Some v → all_atom d = true.
Proof.
  induction d as [|c d IH]; intros acc v H; [done|].
  simpl in *. destruct (digit_val c) as [w|] eqn:E; [|done].
  rewrite (digit_val_atom c w E). simpl. by eapply IH.
Qed.

Lemma digit_val_pretty_N_char k :
  (k < 10)%N → digit_val (pretty_N_char k) = Some (Z.of_N k).
Proof.
  intros H.
  assert (k = 0 ∨ k = 1 ∨ k = 2 ∨ k = 3 ∨ k = 4 ∨ k = 5 ∨ k = 6 ∨ k = 7
          ∨ k = 8 ∨ k = 9)%N as Hk by lia.
  repeat (destruct Hk as [->|Hk]; [reflexivity|]). by subst.
Qed.

Lemma pretty_N_go_digits x : ∀ s,
  ∃ d, pretty_N_go x s = d +:+ s
       ∧ ((0 < x)%N → d ≠ EmptyString)
       ∧ ∀ acc, digits_from acc d
                = Some (acc * 10 ^ Z.of_nat (String.length d) + Z.of_N x).
Proof.
  induction (N.lt_wf_0 x) as [x _ IH]; intros s.
  destruct (decide (x = 0%N)) as [->|Hx].
  - exists EmptyString. rewrite pretty_N_go_0. split; [done|]. split; [lia|].
    intros acc. simpl. f_equal. lia.
  - assert (0 < x)%N as Hpos by lia.
    rewrite pretty_N_go_step by done.
    destruct (IH (x `div` 10)%N (N.div_lt x 10 Hpos eq_refl)
                (String (pretty_N_char (x `mod` 10)) s)) as (d & Hd & _ & Hv).
    exists (d +:+ String (pretty_N_char (x `mod` 10)) EmptyString).
    split; [by rewrite Hd, string_app_assoc|]. split.
    { intros _. destruct d; discriminate. }
    intros acc. rewrite digits_from_app, Hv. simpl.
    rewrite digit_val_pretty_N_char by (apply N.mod_lt; lia). f_equal.
    assert (String.length (d +:+ String (pretty_N_char (x `mod` 10)) EmptyString)
            = S (String.length d)) as ->.
    { clear. induction d as [|c d IH]; [done|]. rewrite app_cons. simpl. by rewrite IH. }
    rewrite Nat2Z.inj_succ, Z.pow_succ_r by lia.
    pose proof (N.div_mod x 10 ltac:(lia)) as Hdm.
    assert (Z.of_N x = 10 * Z.of_N (x `div` 10) + Z.of_N (x `mod` 10)) by lia.
    lia.
Qed.

Lemma int_of_digit_start c r v :
  digit_val c = Some v → int_of (String c r) = digits (String c r).
Proof.
  destruct c as [[] [] [] [] [] [] [] []]; intros H;
    first [discriminate H | reflexivity].
Qed.

Lemma pretty_positive_digits p :
  ∃ d, pretty (N.pos p) = d ∧ d ≠ EmptyString ∧ digits d = Some (Z.pos p).
Proof.
  unfold pretty, pretty_N. rewrite decide_False by done.
  destruct (pretty_N_go_digits (N.pos p) EmptyString) as (d & Hd & Hne & Hv).
  exists d. rewrite Hd, app_empty_r. split; [done|]. split; [apply Hne; lia|].
  unfold digits. rewrite Hv. f_equal; lia.
Qed.

Lemma int_of_pretty n : int_of (pretty n) = Some n ∧ atom_text (pretty n) = true.
Proof.
  destruct n as [|p|p]; [done|..]; unfold pretty, pretty_Z, pretty, pretty_positive;
    destruct (pretty_positive_digits p) as (d & -> & Hne & Hv).
  - destruct d as [|c d]; [done|]. pose proof Hv as Hv'. unfold digits in Hv'.
    simpl in Hv'. destruct (digit_val c) as [w|] eqn:E; [|done].
    rewrite (int_of_digit_start c d w E). split; [done|].
    apply (digits_from_atom (String c d) 0 (Z.pos p) Hv).
  - rewrite app_cons, app_empty_l. split.
    + destruct d as [|c d]; [done|]. simpl.
      change (digits_from 0 (String c d)) with (digits (String c d)).
      by rewrite Hv.
    + apply (digits_from_atom d 0 (Z.pos p) Hv).
Qed.
Section JsonRoundTrip.

Variable float_repr : pyfloat → string.
Variable float_parse : string → option pyfloat.

Local Abbreviation tokens := (tokens float_repr).
Local Abbreviation floats_ok := (floats_ok float_repr float_parse).
Local Abbreviation dumps_at := (dumps_at float_repr).
Local Abbreviation parsed := (parsed float_repr float_parse).

Lemma lex_comma x : lex Idle (String "," x) = prepend [TComma] (lex Idle x).
Proof. simpl. by destruct (lex Idle x). Qed.

Lemma lex_concat level texts tss :
  Forall2 reads_as texts tss →
  texts ≠ [] →
  reads_as (String.concat (String "," (break (S level))) texts) (separated tss).
Proof.
  induction 1 as [|text ts texts tss Hhead Htail IH]; [done|]. intros _ r Hr.
  destruct Htail as [|text2 ts2 texts tss Hhead2 Htail].
  - simpl. by apply Hhead.
  - change (String.concat ?sep (text :: text2 :: texts))
      with (text +:+ (sep +:+ String.concat sep (text2 :: texts))).
    change (separated (ts :: ts2 :: tss)) with (ts ++ TComma :: separated (ts2 :: tss)).
    repeat rewrite string_app_assoc. rewrite app_cons, Hhead by done.
    rewrite lex_comma, lex_break, IH by done.
    rewrite !prepend_prepend. by rewrite <- app_assoc.
Qed.

Lemma lex_block (o c : ascii) (To Tc : token) level texts tss :
  (∀ x, lex Idle (String o x) = prepend [To] (lex Idle x)) →
  (∀ x, lex Idle (String c x) = prepend [Tc] (lex Idle x)) →
  Forall2 reads_as texts tss →
  reads_as (block o c level texts) (To :: separated tss ++ [Tc]).
Proof.
  intros Ho Hc Hall r Hr. unfold block. destruct Hall as [|text ts texts tss Hhead Htail].
  - rewrite !app_cons, app_empty_l, Ho, Hc. by rewrite prepend_prepend.
  - rewrite app_cons, Ho. repeat rewrite string_app_assoc. rewrite lex_break.
    rewrite (lex_concat level (text :: texts) (ts :: tss)); [|by constructor|done|done].
    rewrite lex_break, app_cons, app_empty_l, Hc, !prepend_prepend.
    f_equal.
Qed.

Lemma floats_ok_list items : floats_ok (JList items) ↔ Forall floats_ok items.
Proof.
  induction items as [|v items IH]; [by split; [constructor|]|].
  rewrite Forall_cons. rewrite <- IH. done.
Qed.

Lemma floats_ok_dict fields :
  floats_ok (JDict fields) ↔ Forall (λ kv, floats_ok kv.2) fields.
Proof.
  induction fields as [|[k v] fields IH]; [by split; [constructor|]|].
  rewrite Forall_cons. rewrite <- IH. done.
Qed.

Lemma lex_dumps v : ∀ level, floats_ok v → reads_as (dumps_at level v) (tokens v).
Proof.
  induction v as [|b|n|x|s|items IH|fields IH] using json_induction;
    intros level Hok.
  - intros r Hr. by apply lex_atom.
  - intros r Hr. destruct b; by apply lex_atom.
  - intros r Hr. apply lex_atom; [apply int_of_pretty|done].
  - intros r Hr. apply lex_atom; [apply Hok|done].
  - intros r Hr. apply lex_quoted.
  - apply floats_ok_list in Hok.
    apply (lex_block "[" "]" TLBracket TRBracket).
    + intros x. simpl. by destruct (lex Idle x).
    + intros x. simpl. by destruct (lex Idle x).
    + apply Forall2_fmap. apply Forall_Forall2_diag.
      rewrite Forall_forall in IH, Hok. apply Forall_forall.
      intros v Hv. apply IH; [done|]. by apply Hok.
  - apply floats_ok_dict in Hok.
    apply (lex_block "{" "}" TLBrace TRBrace).
    + intros x. simpl. by destruct (lex Idle x).
    + intros x. simpl. by destruct (lex Idle x).
    + apply Forall2_fmap. apply Forall_Forall2_diag.
      rewrite Forall_forall in IH, Hok. apply Forall_forall.
      intros [k v] Hkv r Hr.
      repeat rewrite string_app_assoc. rewrite lex_quoted, !app_cons, app_empty_l.
      change (lex Idle (String ":" (String " " ?x))) with (prepend [TColon] (lex Idle x)).
      pose proof (IH _ Hkv (S level) (Hok _ Hkv) r Hr) as Hv. cbn [snd] in Hv.
      match goal with
      | |- context [lex Idle (?t +:+ r)] => change t with (dumps_at (S level) v)
      end.
      rewrite Hv. by rewrite !prepend_prepend.
Qed.


(** *** The parser *)

Local Abbreviation parse_value := (parse_value float_parse).
Local Abbreviation parse_items := (parse_items float_parse).
Local Abbreviation parse_fields := (parse_fields float_parse).

Lemma tokens_head v : ∃ t rest, tokens v = t :: rest ∧ opens t = true.
Proof. destruct v as [|[]| | | | |]; simpl; eauto. Qed.

Lemma parse_value_list f t rest :
  opens t = true →
  parse_value (S f) (TLBracket :: t :: rest)
  = r ← parse_items f (t :: rest); Some (JList r.1, r.2).
Proof. destruct t; intros H; first [discriminate H | reflexivity]. Qed.

Lemma parse_value_dict f k rest :
  parse_value (S f) (TLBrace :: TString k :: rest)
  = r ← parse_fields f (TString k :: rest); Some (JDict r.1, r.2).
Proof. reflexivity. Qed.

Lemma parse_items_step f ts :
  parse_items (S f) ts
  = r ← parse_value f ts;
    match r.2 with
    | TComma :: rest => r' ← parse_items f rest; Some (r.1 :: r'.1, r'.2)
    | TRBracket :: rest => Some ([r.1], rest)
    | _ => None
    end.
Proof. reflexivity. Qed.

Lemma parse_fields_step f k ts :
  parse_fields (S f) (TString k :: TColon :: ts)
  = r ← parse_value f ts;
    match r.2 with
    | TComma :: rest => r' ← parse_fields f rest; Some ((k, r.1) :: r'.1, r'.2)
    | TRBrace :: rest => Some ([(k, r.1)], rest)
    | _ => None
    end.
Proof. reflexivity. Qed.

Lemma parse_items_tokens items :
  Forall parsed items → items ≠ [] →
  ∀ fuel ts, (cost_list (map cost items) ≤ fuel)%nat →
    parse_items fuel (separated (map tokens items) ++ TRBracket :: ts)
    = Some (items, ts).
Proof.
  induction 1 as [|v items Hv Hitems IH]; [done|]. intros _ fuel ts Hfuel.
  destruct fuel as [|f]; [simpl in Hfuel; lia|].
  cbn [map cost_list] in Hfuel. rewrite parse_items_step.
  destruct items as [|v2 items].
  - cbn [map separated]. rewrite (Hv f (TRBracket :: ts)) by (simpl in Hfuel; lia).
    done.
  - change (separated (map tokens (v :: v2 :: items)))
      with (tokens v ++ TComma :: separated (map tokens (v2 :: items))).
    rewrite <- app_assoc, <- app_comm_cons.
    rewrite (Hv f) by lia. cbn [mbind option_bind snd fst].
    rewrite IH; [done|done|]. cbn [map cost_list] in *. lia.
Qed.

Lemma parse_fields_tokens fields :
  Forall (λ kv, parsed kv.2) fields → fields ≠ [] →
  ∀ fuel ts,
    (cost_list (map (λ kv : string * json, let '(_, v) := kv in cost v) fields)
     ≤ fuel)%nat →
    parse_fields fuel
      (separated (map (λ kv : string * json,
                         let '(k, v) := kv in TString k :: TColon :: tokens v)
                      fields)
       ++ TRBrace :: ts)
    = Some (fields, ts).
Proof.
  induction 1 as [|[k v] fields Hv Hfields IH]; [done|]. intros _ fuel ts Hfuel.
  destruct fuel as [|f]; [simpl in Hfuel; lia|].
  cbn [map cost_list] in Hfuel. cbn [snd] in Hv.
  destruct fields as [|[k2 v2] fields].
  - cbn [map separated]. rewrite <- !app_comm_cons, parse_fields_step.
    rewrite (Hv f (TRBrace :: ts)) by (simpl in Hfuel; lia). done.
  - change (separated (map ?g ((k, v) :: (k2, v2) :: fields)))
      with ((TString k :: TColon :: tokens v)
            ++ TComma :: separated (map g ((k2, v2) :: fields))).
    rewrite <- app_assoc, <- !app_comm_cons, parse_fields_step.
    rewrite (Hv f) by lia. cbn [mbind option_bind snd fst].
    rewrite IH; [done|done|]. cbn [map cost_list] in *. lia.
Qed.

Lemma atom_value_int n : atom_value float_parse (pretty n) = Some (JInt n).
Proof. unfold atom_value. by rewrite (proj1 (int_of_pretty n)). Qed.

Lemma parse_tokens v : floats_ok v → parsed v.
Proof.
  induction v as [|b|n|x|s|items IH|fields IH] using json_induction;
    intros Hok fuel ts Hfuel; (destruct fuel as [|f]; [simpl in Hfuel; lia|]).
  - reflexivity.
  - by destruct b.
  - cbn [tokens app]. cbn [Json.parse_value]. by rewrite atom_value_int.
  - cbn [tokens app]. cbn [Json.parse_value]. by rewrite (proj2 Hok).
  - reflexivity.
  - apply floats_ok_list in Hok.
    assert (Forall parsed items) as Hall.
    { rewrite Forall_forall in IH, Hok. apply Forall_forall.
      intros v Hv. apply IH; [done|]. by apply Hok. }
    destruct items as [|v items]; [reflexivity|].
    change (tokens (JList (v :: items)))
      with (TLBracket :: separated (map tokens (v :: items)) ++ [TRBracket]).
    rewrite <- app_comm_cons, <- app_assoc.
    destruct (tokens_head v) as (t & rest & Ht & Hopen).
    assert (∃ more, separated (map tokens (v :: items)) = t :: more) as [more Hmore].
    { destruct items; cbn [map separated]; rewrite Ht; eauto. }
    rewrite Hmore, <- app_comm_cons, (parse_value_list f t _ Hopen).
    rewrite app_comm_cons, <- Hmore.
    change ([TRBracket] ++ ts) with (TRBracket :: ts).
    rewrite (parse_items_tokens (v :: items) Hall); [done|done|].
    change (cost (JList (v :: items))) with (S (cost_list (map cost (v :: items)))) in Hfuel.
    lia.
  - apply floats_ok_dict in Hok.
    assert (Forall (λ kv, parsed kv.2) fields) as Hall.
    { rewrite Forall_forall in IH, Hok. apply Forall_forall.
      intros kv Hkv. apply IH; [done|]. by apply Hok. }
    destruct fields as [|[k v] fields]; [reflexivity|].
    change (tokens (JDict ((k, v) :: fields)))
      with (TLBrace
            :: separated (map (λ kv : string * json,
                                 let '(k, v) := kv in TString k :: TColon :: tokens v)
                              ((k, v) :: fields))
            ++ [TRBrace]).
    rewrite <- app_comm_cons, <- app_assoc.
    change ([TRBrace] ++ ts) with (TRBrace :: ts).
    pose proof (parse_fields_tokens ((k, v) :: fields) Hall ltac:(done) f ts) as Hp.
    assert (∃ more,
              separated (map (λ kv : string * json,
                                let '(k, v) := kv in TString k :: TColon :: tokens v)
                             ((k, v) :: fields))
              = TString k :: more) as [more Hmore].
    { destruct fields; cbn [map separated]; eauto. }
    rewrite Hmore in *. rewrite <- app_comm_cons, parse_value_dict.
    rewrite <- app_comm_cons in Hp. rewrite Hp; [done|].
    change (cost (JDict ((k, v) :: fields)))
      with (S (cost_list (map (λ kv : string * json, let '(_, v) := kv in cost v)
                              ((k, v) :: fields)))) in Hfuel.
    lia.
Qed.


Lemma cost_list_length cs tss :
  Forall2 (λ (c : nat) (ts : list token), (c ≤ length ts)%nat) cs tss →
  (cost_list cs ≤ length (separated tss) + 1)%nat.
Proof.
  induction 1 as [|c ts cs tss Hc Hrest IH]; [simpl; lia|].
  destruct Hrest as [|c2 ts2 cs tss Hc2 Hrest].
  - simpl. lia.
  - change (separated (ts :: ts2 :: tss)) with (ts ++ TComma :: separated (ts2 :: tss)).
    rewrite length_app. cbn [cost_list length] in *. lia.
Qed.

Lemma cost_tokens v : (cost v ≤ length (tokens v))%nat.
Proof.
  induction v as [|b|n|x|s|items IH|fields IH] using json_induction;
    try (simpl; lia).
  - destruct b; simpl; lia.
  - change (cost (JList items)) with (S (cost_list (map cost items))).
    change (tokens (JList items))
      with (TLBracket :: separated (map tokens items) ++ [TRBracket]).
    cbn [length]. rewrite length_app. cbn [length].
    pose proof (cost_list_length (map cost items) (map tokens items)) as H.
    enough (cost_list (map cost items) ≤ length (separated (map tokens items)) + 1)%nat
      by lia.
    apply H. apply Forall2_fmap, Forall_Forall2_diag. done.
  - change (cost (JDict fields))
      with (S (cost_list (map (λ kv : string * json, let '(_, v) := kv in cost v)
                              fields))).
    change (tokens (JDict fields))
      with (TLBrace
            :: separated (map (λ kv : string * json,
                                 let '(k, v) := kv in TString k :: TColon :: tokens v)
                              fields)
            ++ [TRBrace]).
    cbn [length]. rewrite length_app. cbn [length].
    match goal with
    | |- (S (cost_list ?cs) ≤ S (length (separated ?tss) + 1))%nat =>
        enough (cost_list cs ≤ length (separated tss) + 1)%nat by lia;
        apply cost_list_length
    end.
    apply Forall2_fmap, Forall_Forall2_diag.
    eapply Forall_impl; [exact IH|]. intros [k v] Hv. simpl in *. lia.
Qed.

(** The text written for a value is read back as that value, provided
    each float in it is. *)
Lemma loads_dumps v :
  floats_ok v → loads float_parse (dumps float_repr v) = Some v.
Proof.
  intros Hok. unfold loads, dumps.
  pose proof (lex_dumps v 0 Hok EmptyString eq_refl) as Hlex.
  rewrite app_empty_r in Hlex. rewrite Hlex. cbn [lex prepend mbind option_bind].
  rewrite (parse_tokens v Hok); [done|].
  rewrite length_app. pose proof (cost_tokens v). lia.
Qed.

End JsonRoundTrip.

(** *** Floats with a whole value *)

Lemma all_atom_app a b : all_atom (a +:+ b) = all_atom a && all_atom b.
Proof.
  induction a as [|c a IH]; [done|]. rewrite app_cons. simpl.
  by rewrite IH, andb_assoc.
Qed.

Lemma digit_is_no_letter c w :
  digit_val c = Some w →
  Ascii.eqb c "n" = false ∧ Ascii.eqb c "t" = false ∧ Ascii.eqb c "f" = false
  ∧ Ascii.eqb c "N" = false ∧ Ascii.eqb c "I" = false ∧ Ascii.eqb c "." = false.
Proof.
  destruct c as [[] [] [] [] [] [] [] []]; intros H;
    first [discriminate H | done].
Qed.

Lemma digits_no_dot d : ∀ acc v,
  digits_from acc d = Some v →
  Forall (λ c, Ascii.eqb c "." = false) (list_ascii_of_string d).
Proof.
  induction d as [|c d IH]; intros acc v H; [constructor|].
  simpl in *. destruct (digit_val c) as [w|] eqn:E; [|done]. constructor.
  - apply (digit_is_no_letter c w E).
  - by eapply IH.
Qed.

Lemma split_dot_app s r :
  Forall (λ c, Ascii.eqb c "." = false) (list_ascii_of_string s) →
  split_dot (s +:+ String "." r) = (s, Some r).
Proof.
  induction s as [|c s IH]; intros H; [done|].
  simpl in H. apply Forall_cons in H as [Hc Hs].
  rewrite app_cons. simpl. rewrite Hc, (IH Hs). done.
Qed.

(** The text of an integer: digits, after a minus sign when negative. *)
Lemma pretty_Z_shape n :
  ∃ c d w v,
    digit_val c = Some w ∧ digits (String c d) = Some v
    ∧ ((pretty n = String c d ∧ n = v)
       ∨ (pretty n = String "-" (String c d) ∧ n = - v)).
Proof.
  assert (∀ p, ∃ c d w, digit_val c = Some w ∧ pretty (N.pos p) = String c d
                        ∧ digits (String c d) = Some (Z.pos p)) as Hpos.
  { intros p. destruct (pretty_positive_digits p) as (d & Hd & Hne & Hv).
    destruct d as [|c d]; [done|]. pose proof Hv as Hv'. unfold digits in Hv'.
    simpl in Hv'. destruct (digit_val c) as [w|] eqn:E; [|done]. by exists c, d, w. }
  destruct n as [|p|p].
  - exists "0"%char, EmptyString, 0, 0. split; [done|]. split; [done|]. by left.
  - destruct (Hpos p) as (c & d & w & Hc & Hp & Hv).
    exists c, d, w, (Z.pos p). split; [done|]. split; [done|]. left. done.
  - destruct (Hpos p) as (c & d & w & Hc & Hp & Hv).
    exists c, d, w, (Z.pos p). split; [done|]. split; [done|]. right.
    split; [|done]. unfold pretty at 1, pretty_Z, pretty at 1, pretty_positive.
    by rewrite Hp.
Qed.

Lemma whole_float_ok n : float_ok whole_repr whole_parse (of_Z n).
Proof.
  unfold float_ok, of_Z, whole_repr. cbn [Qnum Qden]. rewrite Z.div_1_r.
  destruct (int_of_pretty n) as [Hint Hatom].
  destruct (pretty_Z_shape n) as (c & d & w & v & Hc & Hv & [[Hp ->]|[Hp ->]]);
    rewrite Hp in *;
    destruct (digit_is_no_letter c w Hc) as (Hn & Ht & Hf & HN & HI & Hdot);
    pose proof (digits_no_dot (String c d) 0 v Hv) as Hnodot.
  - split.
    { rewrite app_cons. cbn [atom_text] in *.
      rewrite <- app_cons, all_atom_app, Hatom. done. }
    unfold atom_value.
    assert (int_of (String c d +:+ ".0") = None) as ->.
    { rewrite app_cons, (int_of_digit_start c _ w Hc), <- app_cons.
      unfold digits in *. by rewrite digits_from_app, Hv. }
    rewrite app_cons. cbn [String.eqb]. rewrite Hn, Ht, Hf. cbn [andb].
    unfold whole_parse. cbn [String.eqb]. rewrite HN, HI.
    assert (Ascii.eqb c "-" = false) as ->.
    { clear -Hc. destruct c as [[] [] [] [] [] [] [] []];
        first [discriminate Hc | done]. }
    cbn [andb]. rewrite <- app_cons, (split_dot_app _ "0" Hnodot).
    cbn [String.eqb Ascii.eqb Bool.eqb andb]. rewrite Hint. done.
  - split.
    { rewrite app_cons. cbn [atom_text] in *.
      rewrite <- app_cons, all_atom_app, Hatom. done. }
    unfold atom_value.
    assert (int_of (String "-" (String c d) +:+ ".0") = None) as ->.
    { rewrite !app_cons. cbn [int_of]. rewrite <- app_cons.
      unfold digits in *. by rewrite digits_from_app, Hv. }
    rewrite !app_cons. cbn [String.eqb Ascii.eqb Bool.eqb andb].
    unfold whole_parse. cbn [String.eqb Ascii.eqb Bool.eqb andb]. rewrite HI.
    cbn [andb]. rewrite <- !app_cons.
    assert (Forall (λ c, Ascii.eqb c "." = false)
                   (list_ascii_of_string (String "-" (String c d)))) as Hnodot'.
    { constructor; [done|exact Hnodot]. }
    rewrite (split_dot_app _ "0" Hnodot').
    cbn [String.eqb Ascii.eqb Bool.eqb andb]. rewrite Hint. done.
Qed.

Lemma special_float_ok :
  float_ok whole_repr whole_parse NaN
  ∧ float_ok whole_repr whole_parse PosInf
  ∧ float_ok whole_repr whole_parse NegInf.
Proof. repeat split. Qed.

(** ** Removal by owner, and the case of symbols *)

(** C6.  [remove_alert(owner, id)] touches only the list of that owner:
    the list of every other key, hence of every other owner, and the
    counter are unchanged.  It returns [True] exactly when the owner's own
    list holds an alert with that id, and then the first such alert, and
    nothing else, is removed.  When it returns [False] (in particular for
    an id stored under another owner) the whole store is unchanged. *)
Theorem remove_alert_owner_isolation (uid aid : Z) (s : AlertSystem) :
  let b := (remove_alert uid aid s).1 in
  let s' := (remove_alert uid aid s).2 in
  next_id s' = next_id s
  ∧ (∀ key, key ≠ str uid → alerts s' !! key = alerts s !! key)
  ∧ (∀ other, other ≠ uid → get_user_alerts other s' = get_user_alerts other s)
  ∧ (b = true ↔ ∃ a, a ∈ get_user_alerts uid s ∧ alert_id a = aid)
  ∧ (b = false → s' = s)
  ∧ (b = true →
       ∃ l1 a l2, get_user_alerts uid s = l1 ++ a :: l2
                  ∧ alert_id a = aid
                  ∧ (∀ x, x ∈ l1 → alert_id x ≠ aid)
                  ∧ get_user_alerts uid s' = l1 ++ l2).
Proof.
  destruct (remove_alert_cases uid aid s)
    as [[E Hno]|(l1 & a & l2 & Hl & Hid & Hbefore & E)]; rewrite E; simpl.
  - repeat split; try done.
    + intros (a & Ha & Hid). by destruct (Hno a Ha).
  - assert (get_user_alerts uid s = l1 ++ a :: l2) as Hg
        by (unfold get_user_alerts; by rewrite Hl).
    split; [done|]. split; [by intros key Hk; rewrite lookup_insert_ne|].
    split.
    { intros other Hne. unfold get_user_alerts. simpl.
      rewrite lookup_insert_ne; [done|]. intros Heq. by apply str_inj in Heq. }
    split.
    { split; [|done]. intros _. exists a. split; [|done].
      rewrite Hg. apply elem_of_app. right. left. }
    split; [done|]. intros _. exists l1, a, l2.
    repeat split; try done. unfold get_user_alerts. simpl.
    by rewrite lookup_insert_eq.
Qed.

Lemma remove_alert_owner_isolation_witness :
  (remove_alert 2 1 w_store).2 = w_store.
Proof.
  exact (proj1 (proj2 (proj2 (proj2 (proj2
           (remove_alert_owner_isolation 2 1 w_store))))) eq_refl).
Defined.



(** ** Frame and requests of the sweep *)

(** C10.  Frame of the sweep.  [check_alerts] leaves the counter
    [next_id] as it was, and so does [remove_alert].  Under every key the
    list after the sweep is obtained from the list before it by setting
    [triggered] from false to true on some alerts and then dropping some
    alerts, in the same order; so every alert still stored after the sweep
    is an alert stored before it under the same key with the same id,
    owner, symbol, condition, threshold and creation time, and a
    triggered alert stays triggered. *)
Theorem check_alerts_frame (now : datetime) (df : DataFetcher) (s : AlertSystem) :
  let s' := (check_alerts now df s).1.2 in
  next_id s' = next_id s
  ∧ (∀ uid aid, next_id (remove_alert uid aid s).2 = next_id s)
  ∧ (∀ key,
       match alerts s !! key, alerts s' !! key with
       | Some l, Some l' =>
           ∃ l1, Forall2 (λ a a1, a1 = a ∨ (triggered a = false ∧ a1 = set_triggered a)) l l1
                 ∧ sublist l' l1
       | None, None => True
       | _, _ => False
       end)
  ∧ (∀ key a', stored s' key a' →
       ∃ a, stored s key a ∧ same_fields a a'
            ∧ (triggered a = true → a' = a)
            ∧ (triggered a = false → a' = a ∨ a' = set_triggered a)).
Proof.
  simpl. split; [apply check_alerts_next_id|]. split.
  { intros uid aid.
    destruct (remove_alert_cases uid aid s) as [[-> _]|(?&?&?&_&_&_&->)]; done. }
  split.
  - intros key. pose proof (check_alerts_swept now df s key) as H.
    inversion H as [l l' [Hsub _] E1 E2|]; [|done].
    exists (mark (fetched_prices df s) <$> l). split; [|done].
    apply Forall2_fmap_r, Forall_Forall2_diag, Forall_forall. intros a _. simpl.
    destruct (mark_cases (fetched_prices df s) a) as [[_ ->]|(_ & Ht & ->)]; auto.
  - intros key a' Hst. apply sweep_stored_before in Hst as (a & Hst & ->).
    exists a. split; [done|]. split; [apply mark_same_fields|]. split.
    + apply mark_triggered.
    + intros _. destruct (mark_cases (fetched_prices df s) a) as [[_ ->]|(_ & _ & ->)]; auto.
Qed.

Lemma check_alerts_frame_witness :
  ∃ a, stored w_store "1" a
       ∧ same_fields a (set_triggered w_above)
       ∧ (triggered a = true → set_triggered w_above = a)
       ∧ (triggered a = false →
            set_triggered w_above = a ∨ set_triggered w_above = set_triggered a).
Proof.
  apply (proj2 (proj2 (proj2 (check_alerts_frame w_now w_fetcher w_store)))
           "1" (set_triggered w_above)).
  exists [set_triggered w_above]. split; [vm_compute; reflexivity|left].
Defined.

(** C8.  The price requests of one sweep are the distinct symbols of the
    alerts not yet triggered, over all owners, each requested exactly
    once; when there is no such symbol the sweep makes no request, returns
    the empty list and leaves the store as it was. *)
Theorem check_alerts_requests_once (now : datetime) (df : DataFetcher) (s : AlertSystem) :
  let r := (check_alerts now df s).1.1 in
  let s' := (check_alerts now df s).1.2 in
  let df' := (check_alerts now df s).2 in
  ∃ reqs,
    requests df' = requests df ++ reqs
    ∧ NoDup reqs
    ∧ (∀ c, c ∈ reqs ↔ ∃ key a, stored s key a ∧ triggered a = false ∧ coin a = c)
    ∧ (reqs = [] → r = Some [] ∧ s' = s ∧ df' = df).
Proof.
  simpl. exists (elements (coins_to_check s)).
  split; [by rewrite check_alerts_requests|].
  split; [apply NoDup_elements|]. split.
  - intros c. rewrite elem_of_elements. apply elem_of_coins_to_check.
  - intros Hnil. apply elements_empty_inv in Hnil. apply leibniz_equiv in Hnil.
    rewrite check_alerts_eq. by rewrite decide_True.
Qed.

Lemma check_alerts_requests_once_witness :
  (check_alerts w_now25 w_fetcher w_store_old).1.1 = Some [].
Proof.
  destruct (check_alerts_requests_once w_now25 w_fetcher w_store_old)
    as (reqs & Hreq & _ & _ & Hnil).
  apply Hnil. vm_compute in Hreq. symmetry. exact Hreq.
Defined.



Lemma observed_missing prices a :
  prices !! coin a = None → Float.gt (observed prices a) Float.zero = false.
Proof. unfold observed. by intros ->. Qed.



(** ** Expiry *)

(** C1, the claim as stated fails: a store whose only alert is triggered
    and was created 25 hours before the sweep.  No symbol is to be checked,
    the sweep returns the empty list at once and the alert is still
    stored. *)
Lemma old_triggered_alert_survives_sweep :
  check_alerts w_now25 w_fetcher w_store_old = (Some [], w_store_old, w_fetcher)
  ∧ stored w_store_old "1" w_old
  ∧ triggered w_old = true
  ∧ age_us w_now25 w_old = Some (hours_us 25)
  ∧ ¬ (∀ key a, stored (check_alerts w_now25 w_fetcher w_store_old).1.2 key a →
         triggered a = false
         ∨ ∃ us, age_us w_now25 a = Some us ∧ us < hours_us 24).
Proof.
  assert (stored w_store_old "1" w_old) as Hst.
  { exists [w_old]. split; [reflexivity|left]. }
  split; [reflexivity|]. split; [done|]. split; [reflexivity|]. split; [reflexivity|].
  intros H. destruct (H "1" w_old Hst) as [Ht|(us & Hage & Hlt)].
  - discriminate Ht.
  - vm_compute in Hage. injection Hage as <-. vm_compute in Hlt. discriminate Hlt.
Qed.

(** The same alert in a sweep that does run the cleanup, because another
    alert triggers: the test of the cleanup compares [created_at - now],
    which is negative for a past creation time, so the alert created 25
    hours ago is kept. *)
Example cleanup_keeps_alert_created_25h_ago :
  check_alerts w_now25 w_fetcher w_store_mixed
  = (Some [(set_triggered w_fresh, of_Z 50000)],
     {| alerts := {[ "1" := [w_old; set_triggered w_fresh] ]}; next_id := 3 |},
     {| source := source w_fetcher; requests := ["BTC"] |}).
Proof. vm_compute. reflexivity. Qed.

(** C1, amended.  The cleanup runs only in a sweep in which at least one
    alert newly triggers: a sweep that returns the empty list leaves the
    store as it was.  In every sweep, an alert that stays non-triggered is
    still stored afterwards, and an alert for which at least 0 and less
    than 24 hours have elapsed from [created_at] to the time of the sweep
    is still stored afterwards, triggered or not (with [triggered] set if
    it triggers in this sweep). *)
Theorem check_alerts_retention (now : datetime) (df : DataFetcher) (s : AlertSystem) :
  let r := (check_alerts now df s).1.1 in
  let s' := (check_alerts now df s).1.2 in
  (r = Some [] → s' = s)
  ∧ (∀ key a,
       stored s key a → triggered a = false →
       fires (fetched_prices df s) a = false →
       stored s' key a)
  ∧ (∀ key a us,
       stored s key a →
       age_us now a = Some us → 0 ≤ us < hours_us 24 →
       if fires (fetched_prices df s) a
       then stored s' key (set_triggered a)
       else stored s' key a).
Proof.
  simpl. split; [|split].
  - rewrite check_alerts_eq. case_decide; [done|]. simpl.
    destruct (reports _ _); [done|]. simpl.
    destruct (_cleanup_triggered_alerts _ _) as [s2 [|]]; simpl; intros [=].
  - intros key a Hst Ht Hf.
    pose proof (sweep_stored_after now df s key a Hst) as H.
    unfold mark in H. rewrite Hf in H. apply H. by apply keep_untriggered.
  - intros key a us Hst Hage [Hpos _].
    pose proof (sweep_stored_after now df s key a Hst) as H.
    unfold mark in H. destruct (fires (fetched_prices df s) a); apply H.
    + by apply (keep_recent now (set_triggered a) us).
    + by apply (keep_recent now a us).
Qed.

Lemma check_alerts_retention_witness :
  stored (check_alerts w_now23 w_fetcher w_store_mixed).1.2 "1" w_old.
Proof.
  refine (proj2 (proj2 (check_alerts_retention w_now23 w_fetcher w_store_mixed))
            "1" w_old (hours_us 23) _ _ _).
  - exists [w_old; w_fresh]. split; [reflexivity|left].
  - reflexivity.
  - unfold hours_us. lia.
Defined.

(** ** Ids *)

(** C5.  Ids are handed out in strictly increasing order and never
    reused.  In every sequence of calls on one instance (additions for any
    owners, interleaved at will with removals and sweeps) the ids returned
    by [add_alert] are strictly increasing and not below the counter the
    sequence started with.  When the ids of the store are pairwise
    distinct and below the counter at the start, as in the empty store of
    a new instance, none of the returned ids is the id of an alert stored
    at the start, and the ids stored at the end are again pairwise distinct
    and below the counter. *)
Theorem add_alert_ids_increasing (ops : list op) (s : AlertSystem) (df : DataFetcher) :
  let evs := (run ops (s, df)).1 in
  let s' := (run ops (s, df)).2.1 in
  StronglySorted Z.lt (added_ids evs)
  ∧ Forall (λ i, next_id s ≤ i < next_id s') (added_ids evs)
  ∧ (wf s →
       (∀ key a, stored s key a → alert_id a ∉ added_ids evs)
       ∧ ids_distinct s'
       ∧ ids_below s').
Proof.
  simpl. destruct (added_ids_run ops (s, df)) as (Hs & Hall & _). simpl in Hall.
  split; [done|]. split; [done|]. intros Hwf.
  pose proof (wf_run ops (s, df) Hwf) as [Hb Hd].
  split; [|done].
  intros key a Hst Hin. rewrite Forall_forall in Hall.
  specialize (Hall _ Hin). destruct Hwf as [Hbelow _].
  specialize (Hbelow _ _ Hst). lia.
Qed.

Lemma add_alert_ids_increasing_witness :
  StronglySorted Z.lt [1; 2; 3]
  ∧ ids_distinct
      (run [OpAdd w_now 7 "BTC" "above" (of_Z 50000);
            OpAdd w_now 8 "ETH" "below" (of_Z 3000);
            OpRemove 7 1;
            OpAdd w_now 7 "BTC" "below" (of_Z 40000)] (init, w_fetcher)).2.1.
Proof.
  pose proof (add_alert_ids_increasing
           [OpAdd w_now 7 "BTC" "above" (of_Z 50000);
            OpAdd w_now 8 "ETH" "below" (of_Z 3000);
            OpRemove 7 1;
            OpAdd w_now 7 "BTC" "below" (of_Z 40000)]
           init w_fetcher) as (Hsorted & _ & H).
  split; [exact Hsorted|]. exact (proj1 (proj2 (H wf_init))).
Defined.

(** ** Once triggered, never reported again *)

Lemma settled_of_wf s key a :
  wf s → stored s key a → triggered a = true → settled (alert_id a) s.
Proof.
  intros (Hbelow & Hnd & Hcross) Hst Ht. split; [|by eapply Hbelow].
  intros key2 b Hb Hid. destruct (decide (key = key2)) as [<-|Hne].
  - destruct Hst as (l & Hl & Ha). destruct Hb as (l2 & Hl2 & Hb).
    rewrite Hl in Hl2. injection Hl2 as <-.
    assert (a = b) as <-; [|done].
    apply list_elem_of_lookup in Ha as [i Hi]. apply list_elem_of_lookup in Hb as [j Hj].
    assert (i = j) as <-.
    { eapply (NoDup_lookup (alert_id <$> l)); [by eapply Hnd| |].
      - by rewrite list_lookup_fmap, Hi.
      - rewrite list_lookup_fmap, Hj. simpl. by rewrite Hid. }
    congruence.
  - exfalso. by eapply (Hcross key key2 a b).
Qed.

Lemma settled_add_alert x now uid c cond p s :
  settled x s → settled x (add_alert now uid c cond p s).2.
Proof.
  intros [Hall Hlt]. split; [|simpl; lia].
  intros key a [Hst|[-> ->]]%stored_add_alert Hid; [by eapply Hall|].
  simpl in Hid. lia.
Qed.

Lemma settled_remove_alert x uid aid s :
  settled x s → settled x (remove_alert uid aid s).2.
Proof.
  intros [Hall Hlt].
  destruct (remove_alert_cases uid aid s) as [[-> _]|(l1 & a & l2 & Hl & _ & _ & ->)];
    [done|].
  split; [|done]. intros key b (l & Hl' & Hb) Hid. simpl in Hl'.
  destruct (decide (key = str uid)) as [->|Hk].
  - rewrite lookup_insert_eq in Hl'. injection Hl' as <-.
    apply (Hall (str uid) b); [|done]. exists (l1 ++ a :: l2). split; [done|].
    apply elem_of_app in Hb as [Hb|Hb]; apply elem_of_app; [by left|].
    right. by right.
  - rewrite lookup_insert_ne in Hl' by done. apply (Hall key b); [|done]. by exists l.
Qed.

Lemma settled_check_alerts x now df s :
  settled x s → settled x (check_alerts now df s).1.2.
Proof.
  intros [Hall Hlt]. split; [|by rewrite check_alerts_next_id].
  intros key a' (a & Hst & ->)%sweep_stored_before Hid.
  assert (triggered a = true) as Ht.
  { apply (Hall key a Hst). rewrite <- Hid. apply (mark_same_fields _ a). }
  by rewrite (mark_triggered _ _ Ht).
Qed.

Lemma settled_step x o st : settled x st.1 → settled x (step o st).2.1.
Proof.
  intros H. rewrite step_state. destruct o as [now uid c cond p|uid aid|now].
  - by apply settled_add_alert.
  - by apply settled_remove_alert.
  - by apply settled_check_alerts.
Qed.

(** What a returned pair is: an alert stored untriggered before the sweep,
    now with [triggered] set, and the price observed for its symbol. *)
Lemma returned_pair now df s r s' df' b p :
  check_alerts now df s = (Some r, s', df') → (b, p) ∈ r →
  ∃ key a, stored s key a ∧ triggered a = false
           ∧ fires (fetched_prices df s) a = true
           ∧ b = set_triggered a ∧ p = observed (fetched_prices df s) a.
Proof.
  intros ->%check_alerts_returned
         (key & l & a & Hl & Ha & Hf & -> & ->)%elem_of_reports.
  exists key, a. split; [by exists l|].
  split; [by eapply fires_untriggered|done].
Qed.

Lemma settled_not_reported x now df s r b p :
  settled x s → (check_alerts now df s).1.1 = Some r → (b, p) ∈ r → alert_id b ≠ x.
Proof.
  intros [Hall _] Hr Hin.
  destruct (check_alerts now df s) as [[r0 s'] df'] eqn:E. simpl in Hr. subst r0.
  destruct (returned_pair _ _ _ _ _ _ _ _ E Hin) as (key & a & Hst & Ht & _ & -> & _).
  simpl. intros Hid. specialize (Hall key a Hst Hid). congruence.
Qed.

Lemma settled_run x ops : ∀ st r b p,
  settled x st.1 →
  EvSwept (Some r) ∈ (run ops st).1 → (b, p) ∈ r → alert_id b ≠ x.
Proof.
  induction ops as [|o ops IH]; intros st r b p Hset Hev Hin.
  - simpl in Hev. by apply elem_of_nil in Hev.
  - rewrite run_cons in Hev. simpl in Hev. apply elem_of_cons in Hev as [Hev|Hev].
    + rewrite step_event in Hev. destruct o as [now uid c cond q|uid aid|now]; try done.
      injection Hev as Hev. by eapply settled_not_reported.
    + eapply IH; [|done..]. by apply settled_step.
Qed.

(** C3.  A sweep reports only alerts that it has just moved from
    non-triggered to triggered: every returned pair is made of an alert
    that was stored non-triggered at the start of that sweep, now with
    [triggered] set, and of the price observed for its symbol.  Hence, in a
    store with pairwise distinct ids, an alert that is triggered at the
    start is reported by no sweep of any later sequence of calls, whatever
    the prices. *)
Theorem triggered_alert_not_reported_again :
  (∀ now df s r s' df' b p,
     check_alerts now df s = (Some r, s', df') → (b, p) ∈ r →
     triggered b = true
     ∧ ∃ key a, stored s key a ∧ triggered a = false
                ∧ b = set_triggered a
                ∧ p = observed (fetched_prices df s) a)
  ∧ (∀ ops s df key a,
       wf s → stored s key a → triggered a = true →
       ∀ r b p, EvSwept (Some r) ∈ (run ops (s, df)).1 → (b, p) ∈ r →
                alert_id b ≠ alert_id a).
Proof.
  split.
  - intros now df s r s' df' b p E Hin.
    destruct (returned_pair _ _ _ _ _ _ _ _ E Hin) as (key & a & Hst & Ht & _ & -> & ->).
    split; [done|]. by exists key, a.
  - intros ops s df key a Hwf Hst Ht r b p Hev Hin.
    eapply (settled_run (alert_id a) ops (s, df)); [|done..].
    by eapply settled_of_wf.
Qed.

Lemma w_store_old_reached :
  (run [OpAdd (mk_datetime 2024 1 1 1 0 0 0) 1 "BTC" "above" (of_Z 50000);
        OpSweep w_now23] (init, w_fetcher)).2.1 = w_store_old.
Proof. vm_compute. reflexivity. Qed.

Lemma wf_w_store_old : wf w_store_old.
Proof. rewrite <- w_store_old_reached. apply wf_run, wf_init. Qed.

Lemma triggered_alert_not_reported_again_witness :
  alert_id (set_triggered w_fresh) ≠ alert_id w_old.
Proof.
  refine (proj2 triggered_alert_not_reported_again
            [OpAdd (mk_datetime 2024 1 2 0 30 0 0) 1 "BTC" "above" (of_Z 50000);
             OpSweep w_now25]
            w_store_old w_fetcher "1" w_old wf_w_store_old _ _
            [(set_triggered w_fresh, of_Z 50000)] (set_triggered w_fresh) (of_Z 50000)
            _ _).
  - exists [w_old]. split; [reflexivity|left].
  - reflexivity.
  - vm_compute. right. left.
  - left.
Defined.

(** ** Persistence *)

Lemma alert_of_to_json a : alert_of_json (alert_to_json a) = Some a.
Proof. by destruct a. Qed.

Lemma mapM_alert_of_to_json (l : list Alert) :
  mapM alert_of_json (alert_to_json <$> l) = Some l.
Proof.
  induction l as [|a l IH]; [done|].
  cbn -[alert_of_json alert_to_json]. rewrite alert_of_to_json.
  cbn -[alert_of_json alert_to_json]. by rewrite IH.
Qed.

Lemma mapM_bucket_of_to_json (items : list (string * list Alert)) :
  mapM bucket_of_json
    ((λ kv : string * list Alert, (kv.1, JList (alert_to_json <$> kv.2))) <$> items)
  = Some items.
Proof.
  induction items as [|[k l] items IH]; [done|].
  cbn -[alert_of_json alert_to_json]. rewrite mapM_alert_of_to_json.
  cbn -[alert_of_json alert_to_json]. by rewrite IH.
Qed.

Lemma alerts_of_to_json (m : gmap string (list Alert)) :
  alerts_of_json (alerts_to_json m) = Some m.
Proof.
  unfold alerts_of_json, alerts_to_json. rewrite mapM_bucket_of_to_json.
  cbn [mbind option_bind].
  by rewrite list_to_map_to_list.
Qed.

(** A new instance on the file written by [save_alerts] holds the saved
    store, for any text functions that read back the document. *)
Lemma round_trip_of_codec (json_dumps : json → string)
    (json_loads : string → option json) (s : AlertSystem) (file : option string) :
  json_loads (json_dumps (document s)) = Some (document s) →
  new_alert_system json_loads (save_alerts json_dumps Written s file) = Some s.
Proof.
  intros Hcodec. unfold new_alert_system, load_alerts, save_alerts.
  rewrite Hcodec. unfold document.
  change (dict_get "alerts" _) with (Some (alerts_to_json (alerts s))).
  change (dict_get "next_id" _) with (Some (JInt (next_id s))).
  cbn [default from_option id]. rewrite alerts_of_to_json. simpl. by destruct s.
Qed.

(** The floats of the document of a store are the prices of its alerts. *)
Lemma floats_ok_document float_repr float_parse s :
  (∀ key a, stored s key a → float_ok float_repr float_parse (price a)) →
  floats_ok float_repr float_parse (document s).
Proof.
  intros Hprices. unfold document.
  apply floats_ok_dict. repeat constructor. cbn [snd].
  unfold alerts_to_json. apply floats_ok_dict.
  apply Forall_fmap, Forall_forall. intros [key l] Hkl%elem_of_map_to_list.
  cbn [snd fst compose]. apply floats_ok_list.
  apply Forall_fmap, Forall_forall. intros a Ha.
  unfold compose, alert_to_json. apply floats_ok_dict.
  assert (float_ok float_repr float_parse (price a)) as Hok
    by (apply (Hprices key a); by exists l).
  repeat constructor; apply Hok.
Qed.

(** C4.  Round trip of the store through its file.  [save_alerts] writes
    the text of [json.dumps(data, indent=2)] and a new instance reads it
    with [json.load].  For every store in which the text of each price is
    read back as that price (the property of [repr] and [float] on
    Python floats), the new instance holds the same mapping from owner
    keys to lists of alerts, with the same alerts, fields and order, and
    the same counter [next_id]. *)
Theorem save_load_round_trip (float_repr : pyfloat → string)
    (float_parse : string → option pyfloat) (s : AlertSystem) (file : option string) :
  (∀ key a, stored s key a → float_ok float_repr float_parse (price a)) →
  new_alert_system (Json.loads float_parse)
    (save_alerts (Json.dumps float_repr) Written s file)
  = Some s.
Proof.
  intros Hprices. apply round_trip_of_codec. apply loads_dumps.
  by apply floats_ok_document.
Qed.

Lemma save_load_round_trip_witness :
  new_alert_system (Json.loads whole_parse)
    (save_alerts (Json.dumps whole_repr) Written w_store_saved None)
  = Some w_store_saved.
Proof.
  apply (save_load_round_trip whole_repr whole_parse w_store_saved None).
  intros key a (l & Hl & Ha).
  assert (∃ n, price a = of_Z n) as [n ->]; [|apply whole_float_ok].
  unfold w_store_saved in Hl. cbn [alerts] in Hl.
  apply lookup_insert_Some in Hl as [[_ <-]|[_ Hl]].
  - apply elem_of_cons in Ha as [->|Ha]; [by exists 50000|].
    apply list_elem_of_singleton in Ha as ->. by exists 50000.
  - apply lookup_singleton_Some in Hl as [_ <-].
    apply list_elem_of_singleton in Ha as ->. by exists 3000.
Defined.

(** * Further properties of the alert store *)

Lemma stored_remove_alert uid aid s key a :
  stored (remove_alert uid aid s).2 key a → stored s key a.
Proof.
  destruct (remove_alert_cases uid aid s)
    as [[-> _]|(l1 & x & l2 & Hl & _ & _ & ->)]; [done|].
  intros (l & Hl' & Ha). simpl in Hl'.
  destruct (decide (key = str uid)) as [->|Hk].
  - rewrite lookup_insert_eq in Hl'. injection Hl' as <-.
    exists (l1 ++ x :: l2). split; [done|].
    apply elem_of_app in Ha as [Ha|Ha]; apply elem_of_app; [by left|].
    right. by right.
  - rewrite lookup_insert_ne in Hl' by done. by exists l.
Qed.

(** A property of the stored alerts that does not look at [triggered]
    and that every added alert has is kept by every call. *)
Lemma step_preserves (P : string → Alert → Prop) o st :
  (∀ key a, P key a → P key (set_triggered a)) →
  match o with
  | OpAdd now uid c cond p =>
      P (str uid) (mk_alert (next_id st.1) uid c cond p (isoformat now) false)
  | _ => True
  end →
  (∀ key a, stored st.1 key a → P key a) →
  ∀ key a, stored (step o st).2.1 key a → P key a.
Proof.
  intros Htrig Hnew Hall key a. rewrite step_state.
  destruct o as [now uid c cond p|uid aid|now].
  - intros [Hst|[-> ->]]%stored_add_alert; [by apply Hall|done].
  - intros Hst%stored_remove_alert. by apply Hall.
  - intros (a0 & Hst & ->)%sweep_stored_before.
    destruct (mark_cases (fetched_prices st.2 st.1) a0) as [[_ ->]|(_ & _ & ->)].
    + by apply Hall.
    + by apply Htrig, Hall.
Qed.

Lemma run_preserves (P : string → Alert → Prop) ops :
  (∀ key a, P key a → P key (set_triggered a)) →
  Forall (λ o, match o with
               | OpAdd now uid c cond p =>
                   ∀ i, P (str uid) (mk_alert i uid c cond p (isoformat now) false)
               | _ => True
               end) ops →
  ∀ st, (∀ key a, stored st.1 key a → P key a) →
        ∀ key a, stored (run ops st).2.1 key a → P key a.
Proof.
  intros Htrig. induction ops as [|o ops IH]; intros Hops st Hall; [done|].
  rewrite run_cons. simpl. inversion Hops as [|? ? Ho Hrest]; subst.
  apply IH; [done|]. apply step_preserves; [done| |done].
  destruct o; [apply Ho|done..].
Qed.

(** X1.  Adding an alert and then removing the id that [add_alert]
    returned gives every user the list they had before, when no stored
    alert of the owner already carries the next id (as in every store
    whose ids are below the counter).  The removal returns [True] and the
    counter stays advanced by one, so the id is not handed out again. *)
Theorem add_alert_then_remove_alert (now : datetime) (uid : Z) (c cond : string)
    (p : pyfloat) (s : AlertSystem) :
  ids_below s →
  let added := add_alert now uid c cond p s in
  let removed := remove_alert uid added.1 added.2 in
  removed.1 = true
  ∧ (∀ u, get_user_alerts u removed.2 = get_user_alerts u s)
  ∧ next_id removed.2 = next_id s + 1.
Proof.
  intros Hbelow added removed. subst added removed.
  destruct (add_alert_result now uid c cond p s) as [-> Hnext].
  set (s1 := (add_alert now uid c cond p s).2) in *.
  set (new := mk_alert (next_id s) uid c cond p (isoformat now) false).
  assert (alerts s1 !! str uid = Some (get_user_alerts uid s ++ [new])) as Hl1.
  { unfold s1. rewrite add_alert_lookup. by rewrite decide_True. }
  assert (∀ x, x ∈ get_user_alerts uid s → alert_id x ≠ next_id s) as Hold.
  { intros x Hx. unfold get_user_alerts in Hx.
    destruct (alerts s !! str uid) as [l|] eqn:El; simpl in Hx;
      [|by apply elem_of_nil in Hx].
    assert (alert_id x < next_id s); [|lia].
    apply (Hbelow (str uid)). by exists l. }
  destruct (remove_alert_cases uid (next_id s) s1)
    as [[_ Hno]|(l1 & a & l2 & Hl & Hid & Hbefore & ->)].
  { exfalso. apply (Hno new); [|done]. unfold get_user_alerts. rewrite Hl1. simpl.
    apply elem_of_app. right. left. }
  rewrite Hl1 in Hl. injection Hl as Hl.
  assert (l1 = get_user_alerts uid s ∧ l2 = []) as [-> ->].
  { destruct (Nat.lt_trichotomy (length l1) (length (get_user_alerts uid s)))
      as [Hlt|[Heq|Hgt]].
    - exfalso. apply (Hold a); [|done].
      apply (list_elem_of_lookup_2 _ (length l1)).
      rewrite <- (lookup_app_l _ [new]) by done. rewrite Hl.
      by rewrite list_lookup_middle.
    - apply app_inj_1 in Hl as [-> Hl]; [|done]. by injection Hl as _ <-.
    - exfalso. apply (Hbefore new); [|done].
      apply (list_elem_of_lookup_2 _ (length (get_user_alerts uid s))).
      rewrite <- (lookup_app_l _ (a :: l2)) by done. rewrite <- Hl.
      by rewrite list_lookup_middle. }
  cbn [fst snd next_id]. split; [done|]. split; [|done].
  intros u. unfold get_user_alerts at 1. cbn [alerts].
  destruct (decide (u = uid)) as [->|Hne].
  - rewrite lookup_insert_eq. simpl. by rewrite app_nil_r.
  - rewrite lookup_insert_ne by (intros H%str_inj; done).
    unfold s1, get_user_alerts.
    rewrite add_alert_lookup. rewrite decide_False; [done|].
    intros H%str_inj. done.
Qed.

Lemma add_alert_then_remove_alert_witness :
  get_user_alerts 7
    (remove_alert 7 (add_alert w_now 7 "BTC" "above" (of_Z 50000) init).1
       (add_alert w_now 7 "BTC" "above" (of_Z 50000) init).2).2
  = get_user_alerts 7 init.
Proof.
  refine (proj1 (proj2 (add_alert_then_remove_alert w_now 7 "BTC" "above"
                          (of_Z 50000) init _)) 7).
  intros key a (l & Hl & _). simpl in Hl. by rewrite lookup_empty in Hl.
Defined.

(** X2.  Filing by owner.  When every alert is stored under the key of
    its own [user_id] (as in the empty store), this stays so through any
    sequence of additions, removals and sweeps; so the list that
    [get_user_alerts] returns for a user holds only alerts with that
    [user_id]. *)
Theorem alerts_filed_under_owner (ops : list op) (s : AlertSystem) (df : DataFetcher) :
  filed s →
  let s' := (run ops (s, df)).2.1 in
  filed s' ∧ ∀ uid a, a ∈ get_user_alerts uid s' → user_id a = uid.
Proof.
  intros Hfiled. simpl.
  assert (filed (run ops (s, df)).2.1) as H.
  { unfold filed.
    apply (run_preserves (λ key a, key = str (user_id a)) ops); [done| |done].
    apply Forall_forall. by intros [] _. }
  split; [done|]. intros uid a Ha. unfold get_user_alerts in Ha.
  destruct (alerts _ !! str uid) as [l|] eqn:El; simpl in Ha;
    [|by apply elem_of_nil in Ha].
  symmetry. apply str_inj, (H (str uid) a). by exists l.
Qed.

Lemma alerts_filed_under_owner_witness :
  filed (run [OpAdd w_now 7 "BTC" "above" (of_Z 50000); OpSweep w_now;
              OpRemove 7 1] (init, w_fetcher)).2.1.
Proof.
  refine (proj1 (alerts_filed_under_owner _ init w_fetcher _)).
  intros key a (l & Hl & _). simpl in Hl. by rewrite lookup_empty in Hl.
Defined.

(** ** Each alert is reported at most once *)

(** With distinct ids, an id names one stored alert. *)
Lemma wf_unique s k1 k2 a1 a2 :
  wf s → stored s k1 a1 → stored s k2 a2 → alert_id a1 = alert_id a2 → a1 = a2.
Proof.
  intros (_ & Hnd & Hcross) Hst1 Hst2 Hid.
  destruct (decide (k1 = k2)) as [<-|Hne].
  - destruct Hst1 as (l & Hl & H1). destruct Hst2 as (l2 & Hl2 & H2).
    rewrite Hl in Hl2. injection Hl2 as <-.
    apply list_elem_of_lookup in H1 as [i Hi]. apply list_elem_of_lookup in H2 as [j Hj].
    assert (i = j) as <-; [|congruence].
    eapply (NoDup_lookup (alert_id <$> l)); [by eapply Hnd| |].
    + by rewrite list_lookup_fmap, Hi.
    + rewrite list_lookup_fmap, Hj. simpl. by rewrite Hid.
  - exfalso. by eapply (Hcross k1 k2 a1 a2).
Qed.

Lemma report_ids_sublist prices (l : list Alert) :
  sublist ((λ bp : Alert * pyfloat, alert_id bp.1) <$> (a ← l; report prices a))
          (alert_id <$> l).
Proof.
  induction l as [|a l IH]; [done|]. simpl. rewrite fmap_app.
  unfold report at 1. destruct (fires prices a); simpl.
  - by apply sublist_skip.
  - by apply sublist_cons.
Qed.

Lemma reports_of_ids_sublist prices (items : list (string * list Alert)) :
  sublist ((λ bp : Alert * pyfloat, alert_id bp.1) <$> reports_of prices items)
          (kv ← items; alert_id <$> kv.2).
Proof.
  unfold reports_of. induction items as [|kv items IH]; [done|]. simpl.
  rewrite fmap_app. apply sublist_app; [apply report_ids_sublist|done].
Qed.

Lemma stored_ids_NoDup s :
  ids_distinct s →
  NoDup (kv ← map_to_list (alerts s); alert_id <$> kv.2).
Proof.
  intros [Hnd Hcross]. apply NoDup_bind.
  - intros [k1 l1] [k2 l2] x H1%elem_of_map_to_list H2%elem_of_map_to_list Hx1 Hx2.
    simpl in *. apply list_elem_of_fmap in Hx1 as (a1 & -> & Ha1).
    apply list_elem_of_fmap in Hx2 as (a2 & Hid & Ha2).
    destruct (decide (k1 = k2)) as [<-|Hne]; [congruence|].
    exfalso. apply (Hcross k1 k2 a1 a2 Hne); [by exists l1|by exists l2|done].
  - intros [k l] H%elem_of_map_to_list. simpl. by eapply Hnd.
  - apply NoDup_map_to_list.
Qed.

Lemma reports_ids_NoDup prices s :
  ids_distinct s →
  NoDup ((λ bp : Alert * pyfloat, alert_id bp.1) <$> reports prices (alerts s)).
Proof.
  intros H. eapply sublist_NoDup; [by apply stored_ids_NoDup|].
  apply reports_of_ids_sublist.
Qed.

(** An alert that fires in a sweep is settled by it, however the sweep
    ends. *)
Lemma fired_settled now df s key a :
  wf s → stored s key a → fires (fetched_prices df s) a = true →
  settled (alert_id a) (check_alerts now df s).1.2.
Proof.
  intros Hwf Hst Hf. split.
  - intros key' a' (a0 & Hst0 & ->)%sweep_stored_before Hid.
    assert (a0 = a) as ->.
    { eapply wf_unique; [done..|]. rewrite <- Hid. apply (mark_same_fields _ a0). }
    destruct (mark_cases (fetched_prices df s) a) as [[E _]|(_ & _ & ->)]; [congruence|done].
  - rewrite check_alerts_next_id. destruct Hwf as [Hb _]. by eapply Hb.
Qed.

Lemma elem_of_reported_ids x es :
  x ∈ reported_ids es →
  ∃ r b p, EvSwept (Some r) ∈ es ∧ (b, p) ∈ r ∧ alert_id b = x.
Proof.
  induction es as [|e es IH]; simpl; [by intros ?%elem_of_nil|].
  assert (x ∈ reported_ids es →
          ∃ r b p, EvSwept (Some r) ∈ e :: es ∧ (b, p) ∈ r ∧ alert_id b = x) as Hrest.
  { intros (r & b & p & Hin & Hb & Hid)%IH. exists r, b, p. split; [by right|done]. }
  destruct e as [i|b|[r|]]; try done.
  intros [Hx|Hx]%elem_of_app; [|by apply Hrest].
  apply list_elem_of_fmap in Hx as ([b p] & -> & Hbp).
  exists r, b, p. split; [left|done].
Qed.

Lemma settled_reported_ids x ops st :
  settled x st.1 → x ∉ reported_ids (run ops st).1.
Proof.
  intros Hset (r & b & p & Hev & Hin & Hid)%elem_of_reported_ids.
  by eapply (settled_run x ops st r b p).
Qed.

Lemma reported_ids_NoDup ops : ∀ st,
  wf st.1 → NoDup (reported_ids (run ops st).1).
Proof.
  induction ops as [|o ops IH]; intros st Hwf; [apply NoDup_nil_2|].
  rewrite run_cons. cbn [fst reported_ids].
  pose proof (IH (step o st).2 (wf_step o st Hwf)) as Hrest.
  rewrite step_event. destruct o as [now uid c cond p|uid aid|now]; [done..|].
  destruct (check_alerts now st.2 st.1) as [[[r|] s'] df'] eqn:E; cbn [fst]; [|done].
  apply NoDup_app. split; [|split; [|done]].
  - rewrite (check_alerts_returned _ _ _ _ _ _ E).
    apply reports_ids_NoDup, Hwf.
  - intros x Hx. apply list_elem_of_fmap in Hx as ([b p] & -> & Hbp).
    destruct (returned_pair _ _ _ _ _ _ _ _ E Hbp) as (key & a & Hst & _ & Hf & -> & _).
    apply settled_reported_ids. rewrite step_state.
    by apply (fired_settled now st.2 st.1 key a).
Qed.

(** X3.  At most one report per alert.  In a store with pairwise
    distinct ids below the counter (the empty store is one), over any
    sequence of additions, removals and sweeps, the lists returned by the
    sweeps never name the same alert id twice: neither inside one
    returned list nor in two of them. *)
Theorem alert_reported_at_most_once (ops : list op) (s : AlertSystem) (df : DataFetcher) :
  wf s → NoDup (reported_ids (run ops (s, df)).1).
Proof. intros Hwf. by apply reported_ids_NoDup. Qed.

Lemma alert_reported_at_most_once_witness :
  NoDup (reported_ids
           (run [OpAdd w_now 1 "BTC" "above" (of_Z 50000); OpSweep w_now;
                 OpAdd w_now 2 "BTC" "below" (of_Z 50000); OpSweep w_now]
              (init, w_fetcher)).1).
Proof. apply (alert_reported_at_most_once _ init w_fetcher wf_init). Defined.

(** ** The cleanup of a sweep: what it removes and when it raises *)

Lemma filter_all {A} (P : A → Prop) `{∀ x, Decision (P x)} (l : list A) :
  (∀ a, a ∈ l → P a) → filter P l = l.
Proof.
  induction l as [|x l IH]; intros Hall; [done|].
  rewrite filter_cons_True by (apply Hall; left). f_equal. apply IH.
  intros a Ha. apply Hall. by right.
Qed.

Lemma keep_alert_None now a :
  keep_alert now a = None ↔ triggered a = true ∧ fromisoformat (created_at a) = None.
Proof.
  unfold keep_alert. destruct (triggered a); simpl; [|by split; [|intros []]].
  destruct (fromisoformat (created_at a)); simpl; by split; [|intros []].
Qed.

Lemma keep_alert_true now a :
  keep_alert now a = Some true ↔
  triggered a = false
  ∨ ∃ dt, fromisoformat (created_at a) = Some dt ∧ sub_us dt now < 86400 * 1000000.
Proof.
  unfold keep_alert. destruct (triggered a); simpl.
  - destruct (fromisoformat (created_at a)) as [dt|]; simpl.
    + split.
      * intros H. injection H as H. apply Z.ltb_lt in H. right. by exists dt.
      * intros [?|(dt' & E & H)]; [done|]. injection E as <-.
        f_equal. by apply Z.ltb_lt.
    + split; [done|]. by intros [?|(? & ? & _)].
  - split; [by left|done].
Qed.

Lemma keep_alerts_None now l :
  keep_alerts now l = None ↔ ∃ a, a ∈ l ∧ keep_alert now a = None.
Proof.
  induction l as [|a l IH]; simpl.
  - split; [done|]. by intros (a & ?%elem_of_nil & _).
  - destruct (keep_alert now a) as [k|] eqn:E; simpl.
    + destruct (keep_alerts now l) as [kept|] eqn:E2; simpl.
      * split; [done|]. intros (x & [->|Hx]%elem_of_cons & Hk); [congruence|].
        assert (Some kept = None) as H by (apply IH; by exists x).
        discriminate H.
      * split; [|done]. intros _. destruct (proj1 IH eq_refl) as (x & Hx & Hk).
        exists x. split; [by right|done].
    + split; [|done]. intros _. exists a. split; [left|done].
Qed.

Lemma cleanup_items_raised now items : ∀ m : gmap string (list Alert),
  (cleanup_items now items m).2 = true ↔
  ∃ kv, kv ∈ items ∧ keep_alerts now kv.2 = None.
Proof.
  induction items as [|[key l] items IH]; intros m; simpl.
  - split; [done|]. by intros (kv & ?%elem_of_nil & _).
  - destruct (keep_alerts now l) as [kept|] eqn:E.
    + rewrite IH. split.
      * intros (kv & Hin & Hk). exists kv. split; [by right|done].
      * intros (kv & [->|Hin]%elem_of_cons & Hk); [simpl in Hk; congruence|].
        by exists kv.
    + simpl. split; [|done]. intros _. exists (key, l). split; [left|done].
Qed.

Lemma cleanup_raised now s :
  (_cleanup_triggered_alerts now s).2 = true ↔
  ∃ key a, stored s key a ∧ triggered a = true ∧ fromisoformat (created_at a) = None.
Proof.
  unfold _cleanup_triggered_alerts.
  destruct (cleanup_items now (map_to_list (alerts s)) (alerts s)) as [m raised] eqn:E.
  simpl. replace raised with (cleanup_items now (map_to_list (alerts s)) (alerts s)).2
    by (by rewrite E).
  rewrite cleanup_items_raised. split.
  - intros ([key l] & Hin%elem_of_map_to_list & (a & Ha & Hk)%keep_alerts_None).
    apply keep_alert_None in Hk as [Ht Hf]. exists key, a. split; [by exists l|done].
  - intros (key & a & (l & Hl & Ha) & Ht & Hf). exists (key, l).
    split; [by apply elem_of_map_to_list|]. apply keep_alerts_None.
    exists a. split; [done|]. by apply keep_alert_None.
Qed.

Lemma stored_mark_all prices s key a' :
  stored {| alerts := mark_all prices (alerts s); next_id := next_id s |} key a' ↔
  ∃ a, stored s key a ∧ a' = mark prices a.
Proof.
  unfold stored, mark_all. simpl. rewrite lookup_fmap. split.
  - intros (l' & Hl' & Ha'). destruct (alerts s !! key) as [l|] eqn:El; [|done].
    simpl in Hl'. injection Hl' as <-.
    apply list_elem_of_fmap in Ha' as (a & -> & Ha). exists a. split; [by exists l|done].
  - intros (a & (l & Hl & Ha) & ->). exists (mark prices <$> l). rewrite Hl.
    split; [done|]. apply list_elem_of_fmap. by exists a.
Qed.

Lemma no_coins_no_reports s prices :
  coins_to_check s = ∅ → reports prices (alerts s) = [].
Proof.
  intros H. apply no_fire_reports. intros key l a Hl Ha.
  apply (all_triggered_no_fire s prices H key a). by exists l.
Qed.






(** A sweep at a time not more than 24 hours before any stored creation
    time removes nothing. *)
Lemma check_alerts_keeps_past (now : datetime) (df : DataFetcher) (s : AlertSystem) :
  (∀ key a, stored s key a → ∃ us, age_us now a = Some us ∧ - hours_us 24 < us) →
  (check_alerts now df s).1.1 = Some (reports (fetched_prices df s) (alerts s))
  ∧ alerts (check_alerts now df s).1.2 = mark_all (fetched_prices df s) (alerts s).
Proof.
  intros Hage. rewrite check_alerts_eq.
  destruct (decide (coins_to_check s = ∅)) as [Hc|Hc].
  { pose proof (no_coins_no_reports s (fetched_prices df s) Hc) as Hno.
    simpl. rewrite Hno. split; [done|]. by rewrite (no_report_no_change _ _ Hno). }
  cbv zeta.
  destruct (reports (fetched_prices df s) (alerts s)) as [|x r] eqn:Er.
  { simpl. split; [done|]. by rewrite (no_report_no_change _ _ Er). }
  set (s1 := {| alerts := mark_all (fetched_prices df s) (alerts s);
                next_id := next_id s |}).
  assert (∀ key a', stored s1 key a' → keep_alert now a' = Some true) as Hkeep.
  { intros key a' (a & Hst & ->)%stored_mark_all. apply keep_alert_true.
    destruct (Hage key a Hst) as (us & Hus & Hlt). unfold age_us in Hus.
    rewrite <- (proj2 (proj2 (proj2 (proj2 (proj2
                  (mark_same_fields (fetched_prices df s) a)))))).
    destruct (fromisoformat (created_at a)) as [dt|]; [|done]. simpl in Hus.
    injection Hus as <-. right. exists dt. split; [done|].
    rewrite sub_us_opp. unfold hours_us in Hlt. lia. }
  assert ((_cleanup_triggered_alerts now s1).2 = false) as Hflag.
  { destruct (_cleanup_triggered_alerts now s1).2 eqn:E; [|done].
    apply cleanup_raised in E as (key & a & Hst & Ht & Hf).
    apply Hkeep, keep_alert_true in Hst as [?|(dt & ? & _)]; congruence. }
  cbn [fst snd]. rewrite Hflag. split; [done|].
  rewrite (cleanup_filter now s1 Hflag). subst s1. cbn [alerts].
  apply map_eq. intros key. rewrite lookup_fmap.
  destruct (mark_all (fetched_prices df s) (alerts s) !! key) as [l|] eqn:El; [|done].
  simpl. f_equal. apply filter_all. intros a Ha. apply (Hkeep key). by exists l.
Qed.



(** X6.  What the expiry removes.  In a sweep that returns a non-empty
    list, the alerts stored afterwards are exactly the alerts stored
    before, as the evaluation left them, that are not triggered or whose
    creation time, minus the time of the sweep, is less than 24 hours:
    the difference is taken in this order, so a triggered alert is
    removed exactly when its creation time lies 24 hours or more after
    the time of the sweep. *)
Theorem sweep_removes_exactly (now : datetime) (df df' : DataFetcher)
    (s s' : AlertSystem) (r : list (Alert * pyfloat)) :
  check_alerts now df s = (Some r, s', df') → r ≠ [] →
  ∀ key a',
    stored s' key a' ↔
    ∃ a, stored s key a ∧ a' = mark (fetched_prices df s) a
         ∧ (triggered a' = false
            ∨ ∃ dt, fromisoformat (created_at a') = Some dt
                    ∧ sub_us dt now < 86400 * 1000000).
Proof.
  intros E Hr key a'. pose proof (check_alerts_returned _ _ _ _ _ _ E) as Hret.
  rewrite check_alerts_eq in E.
  destruct (decide (coins_to_check s = ∅)) as [Hc|Hc]; [congruence|].
  cbv zeta in E. rewrite <- Hret in E. destruct r as [|x r]; [done|].
  set (s1 := {| alerts := mark_all (fetched_prices df s) (alerts s);
                next_id := next_id s |}) in *.
  destruct (_cleanup_triggered_alerts now s1).2 eqn:Hflag; [done|].
  injection E as <- _.
  unfold stored at 1. rewrite (cleanup_filter now s1 Hflag).
  setoid_rewrite lookup_fmap. split.
  - intros (l' & Hl' & Ha').
    destruct (alerts s1 !! key) as [l|] eqn:El; [|done]. simpl in Hl'.
    injection Hl' as <-. apply list_elem_of_filter in Ha' as [Hk Ha'].
    assert (stored s1 key a') as (a & Hst & ->)%stored_mark_all by (by exists l).
    exists a. split; [done|]. split; [done|]. by apply keep_alert_true.
  - intros (a & Hst & -> & Hk%keep_alert_true).
    assert (stored s1 key (mark (fetched_prices df s) a)) as (l & Hl & Ha)
      by (apply stored_mark_all; by exists a).
    exists (filter (λ a, keep_alert now a = Some true) l). rewrite Hl.
    split; [done|]. by apply list_elem_of_filter.
Qed.

Lemma sweep_removes_exactly_witness :
  stored {| alerts := {[ "1" := [w_old; set_triggered w_fresh] ]}; next_id := 3 |}
         "1" w_old.
Proof.
  apply (proj2 (sweep_removes_exactly w_now25 w_fetcher
                  {| source := source w_fetcher; requests := ["BTC"] |}
                  w_store_mixed _ [(set_triggered w_fresh, of_Z 50000)]
                  eq_refl ltac:(discriminate) "1" w_old)).
  exists w_old. split; [|split].
  - exists [w_old; w_fresh]. split; [reflexivity|left].
  - reflexivity.
  - right. exists (mk_datetime 2024 1 1 1 0 0 0). split; [reflexivity|].
    vm_compute. reflexivity.
Defined.


Lemma wf_w_store_undated : wf w_store_undated.
Proof.
  assert (∀ key a, stored w_store_undated key a → key = "1" ∧ a = w_undated) as Hst.
  { intros key a (l & Hl & Ha). simpl in Hl.
    apply lookup_singleton_Some in Hl as [<- <-].
    by apply list_elem_of_singleton in Ha as ->. }
  split; [|split].
  - intros key a [_ ->]%Hst. done.
  - intros key l Hl. simpl in Hl. apply lookup_singleton_Some in Hl as [_ <-].
    simpl. apply NoDup_singleton.
  - intros k1 k2 a1 a2 Hne [-> _]%Hst [-> _]%Hst. done.
Qed.

(** X8.  A sweep that raises loses its reports.  In a store with
    pairwise distinct ids below the counter, when a sweep ends by the
    exception of its cleanup, every alert that triggered in it is left
    triggered in the store, if it is left at all, and no later sweep of
    any sequence of calls reports it: the list that named it was never
    returned. *)
Theorem raised_sweep_loses_reports (now : datetime) (df : DataFetcher)
    (s : AlertSystem) (key : string) (a : Alert) :
  wf s →
  (check_alerts now df s).1.1 = None →
  stored s key a →
  fires (fetched_prices df s) a = true →
  let s' := (check_alerts now df s).1.2 in
  let df' := (check_alerts now df s).2 in
  (∀ key' a', stored s' key' a' → alert_id a' = alert_id a → triggered a' = true)
  ∧ ∀ ops, alert_id a ∉ reported_ids (run ops (s', df')).1.
Proof.
  intros Hwf _ Hst Hf s' df'.
  pose proof (fired_settled now df s key a Hwf Hst Hf) as Hset.
  split; [apply Hset|]. intros ops. by apply settled_reported_ids.
Qed.

Lemma raised_sweep_loses_reports_witness :
  alert_id w_undated
  ∉ reported_ids
      (run [OpSweep w_now]
         ((check_alerts w_now w_fetcher w_store_undated).1.2,
          (check_alerts w_now w_fetcher w_store_undated).2)).1.
Proof.
  refine (proj2 (raised_sweep_loses_reports w_now w_fetcher w_store_undated "1"
                   w_undated wf_w_store_undated _ _ _) [OpSweep w_now]).
  - reflexivity.
  - exists [w_undated]. split; [reflexivity|left].
  - reflexivity.
Defined.

(** ** What a report says, and the prices behind it *)

Lemma ge_not_nan p q : Float.ge p q = true → q ≠ NaN.
Proof. intros H ->. by destruct p. Qed.

Lemma le_not_nan p q : Float.le p q = true → q ≠ NaN.
Proof. intros H ->. by destruct p. Qed.

(** X9.  No false alarm.  Every pair that a sweep returns names an
    alert whose condition is ["above"] or ["below"] and whose threshold is
    not NaN, together with a price that is above zero, that meets the
    condition (at least the threshold for ["above"], at most the threshold
    for ["below"]), and that is the price the source returned for the
    symbol of the alert when the sweep requested it. *)
Theorem no_false_alarm (now : datetime) (df df' : DataFetcher) (s s' : AlertSystem)
    (r : list (Alert * pyfloat)) (b : Alert) (p : pyfloat) :
  check_alerts now df s = (Some r, s', df') →
  (b, p) ∈ r →
  Float.gt p Float.zero = true
  ∧ (condition b = "above" ∧ Float.ge p (price b) = true
     ∨ condition b = "below" ∧ Float.le p (price b) = true)
  ∧ price b ≠ NaN
  ∧ ∃ i, elements (coins_to_check s) !! i = Some (coin b)
         ∧ source df (requests df ++ take i (elements (coins_to_check s))) (coin b)
           = Some p.
Proof.
  intros E Hin.
  destruct (returned_pair _ _ _ _ _ _ _ _ E Hin) as (key & a & Hst & Ht & Hf & -> & ->).
  apply fires_iff in Hf as (_ & Hgt & Hmet). cbn [condition price coin set_triggered].
  assert (condition a = "above" ∧ Float.ge (observed (fetched_prices df s) a) (price a) = true
          ∨ condition a = "below" ∧ Float.le (observed (fetched_prices df s) a) (price a) = true)
    as Hcond.
  { unfold condition_met in Hmet.
    destruct (String.eqb_spec (condition a) "above") as [Hab|_]; simpl in Hmet.
    - destruct (Float.ge _ _) eqn:Hge; [by left|].
      destruct (String.eqb_spec (condition a) "below") as [Hbe|_]; simpl in Hmet;
        [congruence|done].
    - destruct (String.eqb_spec (condition a) "below") as [Hbe|_]; simpl in Hmet;
        [|done].
      destruct (Float.le _ _) eqn:Hle; [by right|done]. }
  split; [done|]. split; [done|]. split.
  { destruct Hcond as [[_ H]|[_ H]]; [by eapply ge_not_nan|by eapply le_not_nan]. }
  destruct (fetched_price_of_source df s key a Hst Ht) as (i & Hi & Hp).
  exists i. split; [done|]. unfold observed in *. rewrite Hp in *. simpl in *.
  destruct (source df _ (coin a)) as [q|]; [done|]. simpl in Hgt. done.
Qed.

Lemma no_false_alarm_witness :
  Float.gt (of_Z 50000) Float.zero = true
  ∧ (condition (set_triggered w_above) = "above"
     ∧ Float.ge (of_Z 50000) (price (set_triggered w_above)) = true
     ∨ condition (set_triggered w_above) = "below"
       ∧ Float.le (of_Z 50000) (price (set_triggered w_above)) = true)
  ∧ price (set_triggered w_above) ≠ NaN
  ∧ ∃ i, elements (coins_to_check w_store) !! i = Some (coin (set_triggered w_above))
         ∧ source w_fetcher
             (requests w_fetcher ++ take i (elements (coins_to_check w_store)))
             (coin (set_triggered w_above))
           = Some (of_Z 50000).
Proof.
  apply (no_false_alarm w_now w_fetcher (check_alerts w_now w_fetcher w_store).2
           w_store (check_alerts w_now w_fetcher w_store).1.2 w_result).
  - vm_compute. reflexivity.
  - left.
Defined.

(** ** [get_multiple_prices] on any list of symbols *)

Lemma get_multiple_prices_from_last coins : ∀ prices df i c,
  coins !! i = Some c → c ∉ drop (S i) coins →
  (get_multiple_prices_from prices coins df).1 !! c
  = Some (default Float.zero (source df (requests df ++ take i coins) c)).
Proof.
  induction coins as [|c0 rest IH]; intros prices df i c Hi Hlast; [done|].
  cbn [get_multiple_prices_from]. unfold get_crypto_data.
  destruct i as [|j].
  - injection Hi as ->. simpl in Hlast. rewrite drop_0 in Hlast.
    rewrite get_multiple_prices_from_notin by done. simpl. rewrite app_nil_r.
    destruct (source df (requests df) c); simpl; by rewrite lookup_insert_eq.
  - simpl in Hi. rewrite (IH _ _ j c Hi Hlast). cbn [source requests take].
    by rewrite <- app_assoc.
Qed.

(** X10.  [get_multiple_prices] asks the source once for each entry of
    the list it is given, in order, a repeated symbol again each time.
    The dict it returns has an entry exactly for the symbols of the list,
    and the entry of a symbol is the price returned by the last request
    made for it, or 0 when that request raised. *)
Theorem get_multiple_prices_last_answer (coins : list string) (df : DataFetcher) :
  let prices := (get_multiple_prices coins df).1 in
  let df' := (get_multiple_prices coins df).2 in
  requests df' = requests df ++ coins
  ∧ source df' = source df
  ∧ (∀ c, is_Some (prices !! c) ↔ c ∈ coins)
  ∧ (∀ i c, coins !! i = Some c → c ∉ drop (S i) coins →
       prices !! c
       = Some (default Float.zero (source df (requests df ++ take i coins) c))).
Proof.
  cbv zeta. unfold get_multiple_prices. rewrite get_multiple_prices_from_fetcher.
  split; [done|]. split; [done|]. split.
  - intros c. rewrite get_multiple_prices_from_dom, lookup_empty.
    split; [intros [[? H]|H]; done|by right].
  - intros i c. apply get_multiple_prices_from_last.
Qed.

Lemma get_multiple_prices_last_answer_witness :
  (get_multiple_prices ["BTC"; "ETH"; "BTC"] w_fetcher_down).1 !! "BTC"
  = Some (default Float.zero
            (source w_fetcher_down
               (requests w_fetcher_down ++ take 2 ["BTC"; "ETH"; "BTC"]) "BTC")).
Proof.
  apply (proj2 (proj2 (proj2
           (get_multiple_prices_last_answer ["BTC"; "ETH"; "BTC"] w_fetcher_down)))
           2%nat "BTC").
  - reflexivity.
  - apply not_elem_of_nil.
Defined.

(** ** A new instance on a file it cannot use *)

(** X11.  [AlertSystem(storage_file)] never fails on its file.  A new
    instance is the empty store with counter 1 when the file is absent,
    when [json.load] rejects its text, when the text is JSON but no
    object, and when it is an object with neither ["alerts"] nor
    ["next_id"]; an object with ["next_id"] alone gives the empty store
    with that counter. *)
Theorem new_alert_system_on_unusable_file (json_loads : string → option json) :
  new_alert_system json_loads None = Some init
  ∧ (∀ text, json_loads text = None →
       new_alert_system json_loads (Some text) = Some init)
  ∧ (∀ text v, json_loads text = Some v → (∀ data, v ≠ JDict data) →
       new_alert_system json_loads (Some text) = Some init)
  ∧ (∀ text data, json_loads text = Some (JDict data) →
       dict_get "alerts" data = None → dict_get "next_id" data = None →
       new_alert_system json_loads (Some text) = Some init)
  ∧ (∀ text data n, json_loads text = Some (JDict data) →
       dict_get "alerts" data = None → dict_get "next_id" data = Some (JInt n) →
       new_alert_system json_loads (Some text)
       = Some {| alerts := ∅; next_id := n |}).
Proof.
  unfold new_alert_system, load_alerts. split; [done|]. split; [by intros text ->|].
  split; [|split].
  - intros text v -> Hv. destruct v; try done. by destruct (Hv fields).
  - by intros text data -> -> ->.
  - by intros text data n -> -> ->.
Qed.

Lemma new_alert_system_on_unusable_file_witness :
  new_alert_system (Json.loads Json.whole_parse) (Some "[]") = Some init.
Proof.
  apply (proj1 (proj2 (proj2
           (new_alert_system_on_unusable_file (Json.loads Json.whole_parse))))
           "[]" (JList [])).
  - vm_compute. reflexivity.
  - discriminate.
Defined.

(** ** The creation time of an added alert *)

(** X12.  The creation time that [add_alert] writes is read back by the
    cleanup as the time of the addition.  For a clock that shows an
    existing date, the alert appended to the owner's list holds a
    [created_at] that [fromisoformat] reads as that clock value, so the
    time elapsed to any later moment is computed from it exactly. *)
Theorem created_at_round_trip (now : datetime) (uid : Z) (c cond : string)
    (p : pyfloat) (s : AlertSystem) :
  valid now = true →
  ∃ a, last (get_user_alerts uid (add_alert now uid c cond p s).2) = Some a
       ∧ alert_id a = next_id s
       ∧ fromisoformat (created_at a) = Some now
       ∧ ∀ t, age_us t a = Some (sub_us t now).
Proof.
  intros Hv. exists (mk_alert (next_id s) uid c cond p (isoformat now) false).
  unfold get_user_alerts. rewrite add_alert_lookup, decide_True by done.
  simpl. rewrite last_snoc. split; [done|]. split; [done|].
  unfold age_us. simpl. by rewrite fromisoformat_isoformat.
Qed.

Lemma created_at_round_trip_witness :
  ∃ a, last (get_user_alerts 1 (add_alert w_now25 1 "BTC" "above" (of_Z 1) init).2)
       = Some a
       ∧ alert_id a = next_id init
       ∧ fromisoformat (created_at a) = Some w_now25
       ∧ ∀ t, age_us t a = Some (sub_us t w_now25).
Proof. apply (created_at_round_trip w_now25 1 "BTC" "above" (of_Z 1) init eq_refl). Defined.

(** * Properties of the handlers of [bot.py] *)

Lemma run_app ops1 : ∀ ops2 st,
  run (ops1 ++ ops2) st
  = ((run ops1 st).1 ++ (run ops2 (run ops1 st).2).1, (run ops2 (run ops1 st).2).2).
Proof.
  induction ops1 as [|o ops1 IH]; intros ops2 st.
  - simpl. by destruct (run ops2 st).
  - rewrite <- app_comm_cons, !run_cons, IH. done.
Qed.

Lemma reported_ids_app es1 es2 :
  reported_ids (es1 ++ es2) = reported_ids es1 ++ reported_ids es2.
Proof.
  induction es1 as [|[i|b|[r|]] es1 IH]; simpl; [done..| |done].
  by rewrite IH, app_assoc.
Qed.

Lemma omap_cons_app {A B} (f : A → option B) (x : A) (l : list A) :
  omap f (x :: l) = option_list (f x) ++ omap f l.
Proof. simpl. by destruct (f x). Qed.



Section Handlers.

Variable float_of_str : string → option pyfloat.
Variable int_of_str : string → option Z.

Local Abbreviation handle := (CryptoAIBot.handle float_of_str int_of_str).
Local Abbreviation handle_all := (CryptoAIBot.handle_all float_of_str int_of_str).
Local Abbreviation op_of := (CryptoAIBot.op_of float_of_str int_of_str).
Local Abbreviation sent_ids :=
  (fmap (M := list) (λ n, alert_id (CryptoAIBot.alert n))).

(** Each update acts on the store as the call it amounts to. *)
Lemma handle_step u st :
  (handle u st).2 = (run (option_list (op_of u)) st).2
  ∧ sent_ids (CryptoAIBot.notifications [(handle u st).1])
    = reported_ids (run (option_list (op_of u)) st).1
  ∧ (∀ sent, (handle u st).1 = CryptoAIBot.OutMonitor sent true →
       EvSwept None ∈ (run (option_list (op_of u)) st).1).
Proof.
  destruct st as [s df]. destruct u as [now uid args|uid args|uid|text|now]; simpl.
  - unfold set_alert.
    destruct args as [|a0 [|a1 [|a2 rest]]]; try done.
    destruct (float_of_str a2) as [p|]; [|done].
    destruct (String.eqb (lower a1) "above" || String.eqb (lower a1) "below");
      simpl; [|done].
    by destruct (add_alert now uid (upper a0) (lower a1) p s) as [i s'].
  - unfold CryptoAIBot.remove_alert. destruct args as [|a0 rest]; [done|].
    destruct (int_of_str a0) as [aid|]; [|done]. simpl.
    by destruct (remove_alert uid aid s) as [b s'].
  - done.
  - done.
  - unfold CryptoAIBot.monitor_alerts. simpl.
    destruct (check_alerts now df s) as [[[r|] s'] df']; simpl.
    + split; [done|]. split; [|done]. rewrite !app_nil_r.
      rewrite <- list_fmap_compose. done.
    + split; [done|]. split; [done|]. intros _ _. left.
Qed.

Lemma handle_all_run us : ∀ st,
  (handle_all us st).2 = (run (omap op_of us) st).2
  ∧ sent_ids (CryptoAIBot.notifications (handle_all us st).1)
    = reported_ids (run (omap op_of us) st).1
  ∧ (∀ sent, CryptoAIBot.OutMonitor sent true ∈ (handle_all us st).1 →
       EvSwept None ∈ (run (omap op_of us) st).1).
Proof.
  induction us as [|u us IH]; intros st.
  - split; [done|]. split; [done|]. by intros sent ?%elem_of_nil.
  - rewrite omap_cons_app, run_app. cbn [CryptoAIBot.handle_all].
    destruct (handle_step u st) as (Hst & Hids & Hfail).
    destruct (handle u st) as [o st1]. cbn [fst snd] in *.
    destruct (IH st1) as (IHst & IHids & IHfail). rewrite <- Hst.
    destruct (CryptoAIBot.handle_all float_of_str int_of_str us st1) as [os st2].
    cbn [fst snd] in *. split; [done|]. split.
    + rewrite reported_ids_app, <- Hids, <- IHids.
      destruct o; simpl; try done. by rewrite app_nil_r, fmap_app.
    + intros sent [Heq|Hin]%elem_of_cons; apply elem_of_app.
      * left. by apply (Hfail sent).
      * right. by eapply IHfail.
Qed.




(** X14.  At most one message per alert.  Starting from a store with
    pairwise distinct ids below the counter, over any sequence of
    commands, text messages and iterations of [monitor_alerts], no two
    messages sent by [monitor_alerts] are about the same alert id: an
    alert is announced once, whether or not the message could be
    delivered. *)
Theorem bot_notifies_at_most_once (us : list CryptoAIBot.update) (s : AlertSystem)
    (df : DataFetcher) :
  wf s →
  NoDup (sent_ids (CryptoAIBot.notifications (handle_all us (s, df)).1)).
Proof.
  intros Hwf. destruct (handle_all_run us (s, df)) as (_ & -> & _).
  by apply reported_ids_NoDup.
Qed.

End Handlers.

(** ** The commands of one user *)


Lemma bot_notifies_at_most_once_witness :
  NoDup ((λ n, alert_id (CryptoAIBot.alert n)) <$>
         CryptoAIBot.notifications
           (CryptoAIBot.handle_all (λ _, Some (of_Z 50000)) (λ _, None)
              [CryptoAIBot.Setalert w_now 1 ["btc"; "ABOVE"; "50000"];
               CryptoAIBot.Monitor w_now25; CryptoAIBot.Monitor w_now25]
              (init, w_fetcher)).1).
Proof.
  apply (bot_notifies_at_most_once (λ _, Some (of_Z 50000)) (λ _, None) _ init
           w_fetcher wf_init).
Defined.

(** X15.  [/removealert] acts on the caller's alerts only.  The lists of
    all other users are as before.  The reply is [removed] only when the
    first argument is read by [int] as an id that the caller's own list
    holds, and then the first alert with that id leaves that list; in
    every other case the store is unchanged.  The reply is [not found]
    exactly when the argument is read as an id that the caller's list
    does not hold, whether or not another user holds it. *)
Theorem removealert_acts_on_own_alerts (int_of_str : string → option Z) (uid : Z)
    (args : list string) (s : AlertSystem) :
  let r := (CryptoAIBot.remove_alert int_of_str uid args s).1 in
  let s' := (CryptoAIBot.remove_alert int_of_str uid args s).2 in
  (∀ other, other ≠ uid → get_user_alerts other s' = get_user_alerts other s)
  ∧ (∀ aid, r = CryptoAIBot.ReplyRemoved aid →
       head args ≫= int_of_str = Some aid
       ∧ ∃ l1 a l2, get_user_alerts uid s = l1 ++ a :: l2
                    ∧ alert_id a = aid
                    ∧ (∀ x, x ∈ l1 → alert_id x ≠ aid)
                    ∧ get_user_alerts uid s' = l1 ++ l2)
  ∧ ((∀ aid, r ≠ CryptoAIBot.ReplyRemoved aid) → s' = s)
  ∧ (r = CryptoAIBot.ReplyNotFound ↔
     ∃ aid, head args ≫= int_of_str = Some aid
            ∧ ∀ a, a ∈ get_user_alerts uid s → alert_id a ≠ aid).
Proof.
  cbv zeta. unfold CryptoAIBot.remove_alert.
  destruct args as [|a0 rest]; simpl.
  { split; [done|]. split; [done|]. split; [done|]. split; [done|]. by intros (? & ? & _). }
  destruct (int_of_str a0) as [aid|] eqn:Ea; simpl.
  2:{ split; [done|]. split; [done|]. split; [done|]. split; [done|].
      by intros (? & ? & _). }
  destruct (remove_alert_cases uid aid s)
    as [[E Hno]|(l1 & a & l2 & Hl & Hid & Hbefore & E)]; rewrite E; simpl.
  - split; [done|]. split; [done|]. split; [done|]. split; [|done].
    intros _. by exists aid.
  - assert (get_user_alerts uid s = l1 ++ a :: l2) as Hg
        by (unfold get_user_alerts; by rewrite Hl).
    split.
    { intros other Hne. unfold get_user_alerts. simpl.
      rewrite lookup_insert_ne; [done|]. by intros ?%str_inj. }
    split.
    { intros ? [= <-]. split; [done|]. exists l1, a, l2.
      repeat split; try done. unfold get_user_alerts. simpl.
      by rewrite lookup_insert_eq. }
    split; [intros H; by destruct (H aid)|]. split; [done|].
    intros (aid' & [= <-] & Hno). exfalso. apply (Hno a); [|done].
    rewrite Hg. apply elem_of_app. right. left.
Qed.

Lemma removealert_acts_on_own_alerts_witness :
  (CryptoAIBot.remove_alert (λ _, Some 1) 2 ["1"] w_store).1 = CryptoAIBot.ReplyNotFound.
Proof.
  apply (proj2 (proj2 (proj2 (proj2
           (removealert_acts_on_own_alerts (λ _, Some 1) 2 ["1"] w_store))))).
  exists 1. split; [reflexivity|]. intros a Ha.
  apply list_elem_of_singleton in Ha as ->. discriminate.
Defined.

Lemma step_fetcher o st :
  (step o st).2.2 =
    match o with
    | OpSweep now => (check_alerts now st.2 st.1).2
    | _ => st.2
    end.
Proof.
  destruct o as [now uid c cond p|uid aid|now]; simpl.
  - by destruct (add_alert now uid c cond p st.1).
  - by destruct (remove_alert uid aid st.1).
  - by destruct (check_alerts now st.2 st.1) as [[r s'] df'].
Qed.

(** X16.  A command of one user changes nothing for another.  After
    [/setalert] or [/removealert] of a user, [/myalerts] shows every other
    user exactly what it showed before; [/myalerts] and text messages
    change nothing in the store; and none of these requests a price. *)
Theorem commands_leave_other_users_alone (float_of_str : string → option pyfloat)
    (int_of_str : string → option Z) (u : CryptoAIBot.update)
    (st : AlertSystem * DataFetcher) (v : Z) :
  match u with
  | CryptoAIBot.Setalert _ uid _ | CryptoAIBot.Removealert uid _ => uid ≠ v
  | CryptoAIBot.Myalerts _ | CryptoAIBot.Message _ => True
  | CryptoAIBot.Monitor _ => False
  end →
  let st' := (CryptoAIBot.handle float_of_str int_of_str u st).2 in
  get_user_alerts v st'.1 = get_user_alerts v st.1
  ∧ CryptoAIBot.my_alerts v st'.1 = CryptoAIBot.my_alerts v st.1
  ∧ st'.2 = st.2
  ∧ match u with
    | CryptoAIBot.Myalerts _ | CryptoAIBot.Message _ => st' = st
    | _ => True
    end.
Proof.
  intros Hu. cbv zeta.
  assert (get_user_alerts v (CryptoAIBot.handle float_of_str int_of_str u st).2.1
          = get_user_alerts v st.1
          ∧ (CryptoAIBot.handle float_of_str int_of_str u st).2.2 = st.2
          ∧ match u with
            | CryptoAIBot.Myalerts _ | CryptoAIBot.Message _ =>
                (CryptoAIBot.handle float_of_str int_of_str u st).2 = st
            | _ => True
            end) as (Hg & Hdf & Hsame).
  { destruct (handle_step float_of_str int_of_str u st) as (-> & _ & _).
    destruct u as [now uid args|uid args|uid|text|now]; try done.
    - destruct (CryptoAIBot.op_of float_of_str int_of_str
                  (CryptoAIBot.Setalert now uid args)) as [o|] eqn:Eo; [|done].
      assert (∃ c cond p, o = OpAdd now uid c cond p) as (c & cond & p & ->).
      { simpl in Eo. destruct args as [|a0 [|a1 [|a2 rest]]]; try done.
        destruct (float_of_str a2); [|done]. destruct (_ || _); [|done].
        injection Eo as <-. by eexists _, _, _. }
      unfold option_list. cbn [option_rect]. rewrite run_cons. cbn [run fst snd].
      rewrite step_state, step_fetcher. split; [|done].
      unfold get_user_alerts. rewrite add_alert_lookup, decide_False; [done|].
      intros H%str_inj. by apply Hu.
    - destruct (CryptoAIBot.op_of float_of_str int_of_str
                  (CryptoAIBot.Removealert uid args)) as [o|] eqn:Eo; [|done].
      assert (∃ aid, o = OpRemove uid aid) as (aid & ->).
      { simpl in Eo. destruct args as [|a0 rest]; [done|].
        destruct (int_of_str a0); [|done]. injection Eo as <-. by eexists. }
      unfold option_list. cbn [option_rect]. rewrite run_cons. cbn [run fst snd].
      rewrite step_state, step_fetcher. split; [|done].
      destruct (remove_alert_cases uid aid st.1)
        as [[-> _]|(l1 & a & l2 & _ & _ & _ & ->)]; [done|].
      unfold get_user_alerts. simpl. rewrite lookup_insert_ne; [done|].
      intros H%str_inj. by apply Hu. }
  split; [done|]. split; [|done]. unfold CryptoAIBot.my_alerts. by rewrite Hg.
Qed.

Lemma commands_leave_other_users_alone_witness :
  CryptoAIBot.my_alerts 2
    (CryptoAIBot.handle (λ _, Some (of_Z 1)) (λ _, None)
       (CryptoAIBot.Setalert w_now 1 ["eth"; "below"; "1"]) (w_store, w_fetcher)).2.1
  = CryptoAIBot.my_alerts 2 w_store.
Proof.
  refine (proj1 (proj2 (commands_leave_other_users_alone (λ _, Some (of_Z 1))
                          (λ _, None)
                          (CryptoAIBot.Setalert w_now 1 ["eth"; "below"; "1"])
                          (w_store, w_fetcher) 2 _))).
  discriminate.
Defined.

(** ** What [monitor_alerts] announces *)

(** X17.  An announced alert is still listed.  In a store where every
    alert is filed under its own user and no creation time lies more than
    24 hours after the time of the iteration, every message that the
    iteration of [monitor_alerts] sends is about an alert that is now
    triggered, goes to the chat of the user who owns it, and that alert is
    still among the entries that [/myalerts] shows this user afterwards:
    it has not been removed. *)
Theorem announced_alert_still_listed (now : datetime) (s : AlertSystem)
    (df : DataFetcher) (n : CryptoAIBot.notification) :
  filed s →
  (∀ key a, stored s key a → ∃ us, age_us now a = Some us ∧ - hours_us 24 < us) →
  n ∈ (CryptoAIBot.monitor_alerts now (s, df)).1.1 →
  triggered (CryptoAIBot.alert n) = true
  ∧ CryptoAIBot.chat_id n = user_id (CryptoAIBot.alert n)
  ∧ ∃ entries,
      CryptoAIBot.my_alerts (CryptoAIBot.chat_id n)
        (CryptoAIBot.monitor_alerts now (s, df)).2.1
      = CryptoAIBot.ReplyAlerts entries
      ∧ CryptoAIBot.entry_of (CryptoAIBot.alert n) ∈ entries.
Proof.
  intros Hfiled Hage. unfold CryptoAIBot.monitor_alerts. cbn [fst snd].
  destruct (check_alerts_keeps_past now df s Hage) as [Hr Hs].
  destruct (check_alerts now df s) as [[r s'] df']. cbn [fst snd] in *. subst r.
  cbn [fst snd]. intros Hn.
  apply list_elem_of_fmap in Hn as ([b p] & -> & Hbp). cbn.
  apply elem_of_reports in Hbp as (key & l & a & Hl & Ha & Hf & -> & ->).
  split; [done|]. split; [done|]. cbn [user_id set_triggered].
  assert (key = str (user_id a)) as -> by (apply Hfiled; by exists l).
  unfold CryptoAIBot.my_alerts, get_user_alerts. rewrite Hs. unfold mark_all.
  rewrite lookup_fmap, Hl. simpl.
  assert (set_triggered a ∈ mark (fetched_prices df s) <$> l) as Hin.
  { apply list_elem_of_fmap. exists a. split; [|done]. unfold mark. by rewrite Hf. }
  destruct (mark (fetched_prices df s) <$> l) as [|x rest] eqn:El;
    [by apply elem_of_nil in Hin|].
  eexists. split; [done|].
  change (CryptoAIBot.entry_of (set_triggered a) ∈ CryptoAIBot.entry_of <$> (x :: rest)).
  apply list_elem_of_fmap. by exists (set_triggered a).
Qed.

Lemma announced_alert_still_listed_witness :
  ∃ entries,
    CryptoAIBot.my_alerts 1 (CryptoAIBot.monitor_alerts w_now25 (w_store_mixed, w_fetcher)).2.1
    = CryptoAIBot.ReplyAlerts entries
    ∧ CryptoAIBot.entry_of (set_triggered w_fresh) ∈ entries.
Proof.
  refine (proj2 (proj2 (announced_alert_still_listed w_now25 w_store_mixed w_fetcher
                          (CryptoAIBot.notification_of (set_triggered w_fresh, of_Z 50000))
                          _ _ _))).
  - intros key a (l & Hl & Ha). simpl in Hl.
    apply lookup_singleton_Some in Hl as [<- <-].
    apply elem_of_cons in Ha as [->|Ha]; [|apply list_elem_of_singleton in Ha as ->];
      reflexivity.
  - intros key a (l & Hl & Ha). simpl in Hl.
    apply lookup_singleton_Some in Hl as [_ <-].
    apply elem_of_cons in Ha as [->|Ha]; [|apply list_elem_of_singleton in Ha as ->].
    + exists (hours_us 25). split; [reflexivity|]. vm_compute. reflexivity.
    + exists (90 * 60 * 1000000). split; [reflexivity|]. vm_compute. reflexivity.
  - vm_compute. left.
Defined.

(** ** Text messages *)

Lemma lower_app a b : lower (a +:+ b) = lower a +:+ lower b.
Proof. induction a as [|c a IH]; [done|]. simpl. by rewrite IH. Qed.

Lemma prefix_app w post : String.prefix w (w +:+ post) = true.
Proof.
  induction w as [|c w IH]; [by destruct post|].
  change (String c w +:+ post) with (String c (w +:+ post)). cbn [String.prefix].
  by destruct (Ascii.ascii_dec c c).
Qed.

Lemma contains_prefix w text : String.prefix w text = true → contains w text = true.
Proof. intros H. destruct text; cbn [contains]; by rewrite H. Qed.

Lemma contains_app w pre post : contains w (pre +:+ (w +:+ post)) = true.
Proof.
  induction pre as [|c pre IH].
  - change (EmptyString +:+ (w +:+ post)) with (w +:+ post).
    apply contains_prefix, prefix_app.
  - change (String c pre +:+ (w +:+ post)) with (String c (pre +:+ (w +:+ post))).
    cbn [contains]. rewrite IH. apply orb_true_r.
Qed.

(** X18.  Text messages are answered by substring.  A text that
    contains one of [hello], [hi], [hey], [greetings] anywhere, in any
    case of the letters and also inside a longer word (as [hi] inside
    [this]), gets the greeting, even when it also contains [thank]. *)
Theorem handle_message_by_substring (pre word post : string) :
  lower word ∈ ["hello"; "hi"; "hey"; "greetings"] →
  CryptoAIBot.handle_message (pre +:+ (word +:+ post)) = CryptoAIBot.ReplyHello.
Proof.
  intros Hw. unfold CryptoAIBot.handle_message. rewrite !lower_app.
  assert (existsb (λ greeting, contains greeting (lower pre +:+ (lower word +:+ lower post)))
            ["hello"; "hi"; "hey"; "greetings"] = true) as ->; [|done].
  apply existsb_exists. exists (lower word). split; [|apply contains_app].
  by apply list_elem_of_In.
Qed.

Lemma handle_message_by_substring_witness :
  CryptoAIBot.handle_message ("Thanks for t" +:+ ("Hi" +:+ "s!")) = CryptoAIBot.ReplyHello.
Proof.
  apply (handle_message_by_substring "Thanks for t" "Hi" "s!").
  right. left.
Defined.

(** * Properties of the price source ([data_fetcher.py]) *)

Lemma coingecko_id_cases coin :
  (coin ∈ SUPPORTED_CRYPTOS ∧ Fetcher._get_coingecko_id coin ≠ EmptyString)
  ∨ ((coin ∉ SUPPORTED_CRYPTOS) ∧ Fetcher._get_coingecko_id coin = EmptyString).
Proof.
  unfold Fetcher._get_coingecko_id, SUPPORTED_CRYPTOS. cbn [assoc].
  repeat (match goal with
          | |- context [String.eqb ?a coin] =>
              destruct (String.eqb_spec a coin) as [<-|?]
          end;
          [left; split; [apply list_elem_of_In; simpl; tauto|done]|]).
  right. split; [|done]. intros Hin%list_elem_of_In. simpl in Hin. intuition congruence.
Qed.

(** X19.  The CoinGecko ids and the supported symbols.  [_get_coingecko_id]
    gives an id exactly for the ten symbols of [SUPPORTED_CRYPTOS], written
    in uppercase, and the empty string for everything else; two supported
    symbols never share an id. *)
Theorem coingecko_id_exactly_for_supported (coin : string) :
  (Fetcher._get_coingecko_id coin ≠ EmptyString ↔ coin ∈ SUPPORTED_CRYPTOS)
  ∧ (∀ other, coin ∈ SUPPORTED_CRYPTOS →
       Fetcher._get_coingecko_id other = Fetcher._get_coingecko_id coin →
       other = coin).
Proof.
  split.
  - destruct (coingecko_id_cases coin) as [[? ?]|[? ?]]; by split.
  - intros other Hin Heq.
    destruct (coingecko_id_cases coin) as [[_ Hc]|[? _]]; [|done].
    destruct (coingecko_id_cases other) as [[Ho _]|[_ Ho]]; [|congruence].
    unfold SUPPORTED_CRYPTOS in Hin, Ho.
    repeat (apply elem_of_cons in Hin as [->|Hin]; [|]);
      [..|by apply elem_of_nil in Hin];
      repeat (apply elem_of_cons in Ho as [->|Ho]; [|]);
      try (by apply elem_of_nil in Ho); first [done|discriminate Heq].
Qed.

Lemma coingecko_id_exactly_for_supported_witness :
  "btc" ∉ SUPPORTED_CRYPTOS.
Proof.
  intros Hin.
  apply (proj2 (proj1 (coingecko_id_exactly_for_supported "btc")) Hin).
  reflexivity.
Defined.

Section Mock.

Variable literal : Q → pyfloat.
Variable float_add : pyfloat → pyfloat → pyfloat.
Variable float_sub : pyfloat → pyfloat → pyfloat.
Variable float_mul : pyfloat → pyfloat → pyfloat.
Variable float_div : pyfloat → pyfloat → pyfloat.
Variable rnd : Fetcher.draws.

Local Abbreviation _get_mock_data :=
  (Fetcher._get_mock_data literal float_add float_sub float_mul float_div rnd).

Lemma mock_price_cases coin :
  (coin ∉ SUPPORTED_CRYPTOS)
  ∧ Fetcher.price (_get_mock_data coin) = JInt 100
  ∨ (∃ base spread draw,
       (coin, base, spread, draw)
       ∈ [("BTC", 50000, 2000, Fetcher.r_btc rnd);
          ("ETH", 3000, 200, Fetcher.r_eth rnd);
          ("BNB", 400, 20, Fetcher.r_bnb rnd);
          ("SOL", 100, 5, Fetcher.r_sol rnd);
          ("AVAX", 60, 3, Fetcher.r_avax rnd)]
       ∧ Fetcher.price (_get_mock_data coin) = JInt (base + draw))
  ∨ (coin ∈ ["ADA"; "XRP"; "DOT"; "DOGE"; "MATIC"]
     ∧ ∃ x, Fetcher.price (_get_mock_data coin) = JFloat x).
Proof.
  unfold Fetcher._get_mock_data, SUPPORTED_CRYPTOS. cbn [Fetcher.price assoc].
  repeat (match goal with
          | |- context [String.eqb ?a coin] =>
              destruct (String.eqb_spec a coin) as [<-|?]
          end;
          [first [ right; left; eexists _, _, _; split; [|reflexivity];
                   apply list_elem_of_In; simpl; tauto
                 | right; right; split; [apply list_elem_of_In; simpl; tauto|];
                   by eexists ]|]).
  left. split; [|done]. intros Hin%list_elem_of_In. simpl in Hin. intuition congruence.
Qed.

Lemma mock_price_unknown coin :
  coin ∉ SUPPORTED_CRYPTOS → Fetcher.price (_get_mock_data coin) = JInt 100.
Proof.
  intros Hout.
  destruct (mock_price_cases coin) as [[_ H]|[(b0 & s0 & d0 & Hin & _)|[Hin _]]];
    [done|exfalso; apply Hout..]; unfold SUPPORTED_CRYPTOS;
    apply list_elem_of_In in Hin; simpl in Hin; apply list_elem_of_In; simpl.
  - intuition (match goal with H : (_, _, _, _) = (_, _, _, _) |- _ =>
                 injection H as <- _ _ _ end; tauto).
  - intuition (subst; tauto).
Qed.

End Mock.

Section Fetch.

Variable COINGECKO_API_KEY : string.
Variable http_get : string → Fetcher.http_result.
Variable float : json → option pyfloat.
Variable literal : Q → pyfloat.
Variable float_add : pyfloat → pyfloat → pyfloat.
Variable float_sub : pyfloat → pyfloat → pyfloat.
Variable float_mul : pyfloat → pyfloat → pyfloat.
Variable float_div : pyfloat → pyfloat → pyfloat.
Variable rnd : Fetcher.draws.

Local Abbreviation get_crypto_data :=
  (Fetcher.get_crypto_data COINGECKO_API_KEY http_get float literal
     float_add float_sub float_mul float_div rnd).
Local Abbreviation _get_mock_data :=
  (Fetcher._get_mock_data literal float_add float_sub float_mul float_div rnd).
Local Abbreviation coingecko_url_of coin :=
  (Fetcher.coingecko_url (Fetcher._get_coingecko_id coin)).

(** The whole of [get_crypto_data] in one equation: what CoinGecko
    gives, what Binance gives, and the requests made. *)
Lemma get_crypto_data_eq coin st :
  let asks := negb (String.eqb COINGECKO_API_KEY EmptyString)
              && negb (String.eqb (Fetcher._get_coingecko_id coin) EmptyString) in
  let from_coingecko :=
    if asks then
      match http_get (coingecko_url_of coin) with
      | Fetcher.Response status body =>
          if status =? 200 then body ≫= Fetcher._parse_coingecko_data else None
      | Fetcher.Unreachable => None
      end
    else None in
  let from_binance :=
    match http_get (Fetcher.binance_url coin) with
    | Fetcher.Response status body =>
        if status =? 200
        then body ≫= (λ data, Fetcher._parse_binance_data float data coin)
        else None
    | Fetcher.Unreachable => None
    end in
  get_crypto_data coin st =
    match from_coingecko with
    | Some d =>
        (d, {| Fetcher.session := true;
               Fetcher.requested := Fetcher.requested st ++ [coingecko_url_of coin] |})
    | None =>
        (default (_get_mock_data coin) from_binance,
         {| Fetcher.session := true;
            Fetcher.requested :=
              Fetcher.requested st
              ++ (if asks then [coingecko_url_of coin] else [])
              ++ [Fetcher.binance_url coin] |})
    end.
Proof.
  cbv zeta. unfold Fetcher.get_crypto_data, Fetcher._fetch_from_coingecko,
    Fetcher._fetch_from_binance, Fetcher.get, Fetcher.init_session.
  destruct (String.eqb COINGECKO_API_KEY EmptyString);
    destruct (String.eqb (Fetcher._get_coingecko_id coin) EmptyString);
    cbn [negb andb Fetcher.session Fetcher.requested];
    repeat match goal with
           | |- context [http_get ?u] =>
               destruct (http_get u) as [|? ?];
               cbn [Fetcher.session Fetcher.requested]
           | |- context [?x =? 200] =>
               destruct (x =? 200); cbn [Fetcher.session Fetcher.requested]
           | |- context [mbind ?f ?b] =>
               destruct (mbind f b); cbn [Fetcher.session Fetcher.requested default]
           end;
    rewrite ?app_nil_l, <- ?app_assoc; reflexivity.
Qed.

Lemma asks_coingecko coin :
  negb (String.eqb COINGECKO_API_KEY EmptyString)
  && negb (String.eqb (Fetcher._get_coingecko_id coin) EmptyString) = true
  ↔ COINGECKO_API_KEY ≠ EmptyString ∧ coin ∈ SUPPORTED_CRYPTOS.
Proof.
  destruct (String.eqb_spec COINGECKO_API_KEY EmptyString) as [Hk|Hk]; simpl.
  { split; [done|]. by intros [? _]. }
  destruct (coingecko_id_cases coin) as [[Hin Hid]|[Hin Hid]].
  - destruct (String.eqb_spec (Fetcher._get_coingecko_id coin) EmptyString); [done|].
    by split.
  - rewrite Hid. simpl. split; [done|]. by intros [_ ?].
Qed.

Lemma no_200_gives_nothing {A} url (f : json → option A) :
  (∀ body, http_get url ≠ Fetcher.Response 200 body) →
  match http_get url with
  | Fetcher.Response status body => if status =? 200 then body ≫= f else None
  | Fetcher.Unreachable => None
  end = None.
Proof.
  intros H. destruct (http_get url) as [|status body] eqn:E; [done|].
  destruct (Z.eqb_spec status 200) as [->|_]; [|done]. by destruct (H body).
Qed.

(** With no answer from either API the mock data are returned. *)
Lemma get_crypto_data_mock coin st :
  (COINGECKO_API_KEY = EmptyString ∨ coin ∉ SUPPORTED_CRYPTOS
   ∨ ∀ body, http_get (coingecko_url_of coin) ≠ Fetcher.Response 200 body) →
  (∀ body, http_get (Fetcher.binance_url coin) ≠ Fetcher.Response 200 body) →
  (get_crypto_data coin st).1 = _get_mock_data coin.
Proof.
  intros Hcg Hbn. rewrite get_crypto_data_eq. cbv zeta.
  rewrite (no_200_gives_nothing (Fetcher.binance_url coin)) by done.
  destruct (negb _ && negb _) eqn:Hasks; [|done].
  apply asks_coingecko in Hasks as [Hk Hin].
  destruct Hcg as [?|[?|Hcg]]; [done..|].
  by rewrite (no_200_gives_nothing (coingecko_url_of coin)).
Qed.

(** X20.  The requests of [get_crypto_data].  One call makes one or two
    GETs and opens the session.  Either CoinGecko is asked alone and its
    parsed answer is returned; or CoinGecko is asked, gives nothing, and
    Binance is asked; or Binance alone is asked.  CoinGecko is asked only
    when an API key is configured and the symbol is one of
    [SUPPORTED_CRYPTOS]; Binance is never asked after CoinGecko gave data;
    and what is returned without CoinGecko is the parsed answer of Binance
    or, when Binance gives nothing either, the mock data. *)
Theorem get_crypto_data_request_discipline (coin : string) (st : Fetcher.state) :
  let r := get_crypto_data coin st in
  let c := coingecko_url_of coin in
  let b := Fetcher.binance_url coin in
  let from_binance_or_mock :=
    (∃ body, http_get b = Fetcher.Response 200 (Some body)
             ∧ Fetcher._parse_binance_data float body coin = Some r.1)
    ∨ r.1 = _get_mock_data coin in
  Fetcher.session r.2 = true
  ∧ (Fetcher.requested r.2 = Fetcher.requested st ++ [c]
     ∧ COINGECKO_API_KEY ≠ EmptyString ∧ coin ∈ SUPPORTED_CRYPTOS
     ∧ (∃ body, http_get c = Fetcher.Response 200 (Some body)
                ∧ Fetcher._parse_coingecko_data body = Some r.1)
     ∨ Fetcher.requested r.2 = Fetcher.requested st ++ [c; b]
       ∧ COINGECKO_API_KEY ≠ EmptyString ∧ coin ∈ SUPPORTED_CRYPTOS
       ∧ from_binance_or_mock
     ∨ Fetcher.requested r.2 = Fetcher.requested st ++ [b]
       ∧ (COINGECKO_API_KEY = EmptyString ∨ coin ∉ SUPPORTED_CRYPTOS)
       ∧ from_binance_or_mock).
Proof.
  cbv zeta. rewrite get_crypto_data_eq. cbv zeta.
  assert (∀ d : Fetcher.crypto_data,
            d = default (_get_mock_data coin)
                  match http_get (Fetcher.binance_url coin) with
                  | Fetcher.Response status body =>
                      if status =? 200
                      then body ≫= (λ data, Fetcher._parse_binance_data float data coin)
                      else None
                  | Fetcher.Unreachable => None
                  end →
            (∃ body, http_get (Fetcher.binance_url coin) = Fetcher.Response 200 (Some body)
                     ∧ Fetcher._parse_binance_data float body coin = Some d)
            ∨ d = _get_mock_data coin) as Hbn.
  { intros d ->. destruct (http_get (Fetcher.binance_url coin)) as [|status body];
      [by right|].
    destruct (Z.eqb_spec status 200) as [->|_]; [|by right].
    destruct body as [body|]; [|by right]. simpl.
    destruct (Fetcher._parse_binance_data float body coin) as [d|] eqn:E; [|by right].
    left. by exists body. }
  destruct (negb _ && negb _) eqn:Hasks.
  - apply asks_coingecko in Hasks as [Hk Hin].
    destruct (http_get (coingecko_url_of coin)) as [|status body] eqn:Ec.
    { split; [done|]. right. left. split; [done|]. split; [done|]. split; [done|].
      by apply Hbn. }
    destruct (Z.eqb_spec status 200) as [->|_].
    2:{ split; [done|]. right. left. split; [done|]. split; [done|]. split; [done|].
        by apply Hbn. }
    destruct body as [body|]; simpl.
    2:{ split; [done|]. right. left. split; [done|]. split; [done|]. split; [done|].
        by apply Hbn. }
    destruct (Fetcher._parse_coingecko_data body) as [d|] eqn:Ep.
    + split; [done|]. left. split; [done|]. split; [done|]. split; [done|].
      by exists body.
    + split; [done|]. right. left. split; [done|]. split; [done|]. split; [done|].
      by apply Hbn.
  - split; [done|]. right. right. split; [done|]. split; [|by apply Hbn].
    destruct (decide (COINGECKO_API_KEY = EmptyString)) as [?|Hk]; [by left|].
    right. intros Hin.
    assert (negb (String.eqb COINGECKO_API_KEY EmptyString)
            && negb (String.eqb (Fetcher._get_coingecko_id coin) EmptyString) = true)
      as H by (by apply asks_coingecko).
    congruence.
Qed.

(** X21.  Without an API key the price is always a number.  When
    [COINGECKO_API_KEY] is empty (its default), [get_crypto_data] asks
    Binance alone, once, and the ['price'] it returns is a number: the
    double that [float] made of Binance's answer, or the number of the
    mock data. *)
Theorem get_crypto_data_without_key (coin : string) (st : Fetcher.state) :
  COINGECKO_API_KEY = EmptyString →
  let r := get_crypto_data coin st in
  Fetcher.requested r.2 = Fetcher.requested st ++ [Fetcher.binance_url coin]
  ∧ is_Some (Fetcher.number (Fetcher.price r.1)).
Proof.
  intros Hk. cbv zeta. rewrite get_crypto_data_eq. cbv zeta. rewrite Hk. simpl.
  split; [done|].
  assert (is_Some (Fetcher.number (Fetcher.price (_get_mock_data coin)))) as Hmock.
  { destruct (mock_price_cases literal float_add float_sub float_mul float_div rnd coin) as [[_ ->]|[(? & ? & ? & _ & ->)|[_ [? ->]]]];
      by eexists. }
  destruct (http_get (Fetcher.binance_url coin)) as [|status body]; [done|].
  destruct (status =? 200); [|done]. destruct body as [body|]; [|done]. simpl.
  unfold Fetcher._parse_binance_data.
  destruct (Fetcher.get_or "lastPrice" (JInt 0) body ≫= float) as [p|]; [|done].
  destruct (Fetcher.get_or "priceChangePercent" (JInt 0) body ≫= float); [|done].
  destruct (Fetcher.get_or "highPrice" (JInt 0) body ≫= float); [|done].
  destruct (Fetcher.get_or "lowPrice" (JInt 0) body ≫= float); [|done].
  destruct (Fetcher.get_or "volume" (JInt 0) body ≫= float); [|done].
  simpl. by eexists.
Qed.

(** X22.  A CoinGecko answer without market data.  With an API key and a
    supported symbol, a 200 answer of CoinGecko whose body is an object
    without ["market_data"] is accepted: every field of the returned data
    is the integer 0, Binance is not asked and the mock data are not
    used. *)
Theorem coingecko_answer_without_market_data (coin : string) (st : Fetcher.state)
    (fields : list (string * json)) :
  COINGECKO_API_KEY ≠ EmptyString →
  coin ∈ SUPPORTED_CRYPTOS →
  http_get (coingecko_url_of coin) = Fetcher.Response 200 (Some (JDict fields)) →
  dict_get "market_data" fields = None →
  get_crypto_data coin st
  = ({| Fetcher.price := JInt 0; Fetcher.change_24h := JInt 0;
        Fetcher.high_24h := JInt 0; Fetcher.low_24h := JInt 0;
        Fetcher.volume := JInt 0; Fetcher.market_cap := JInt 0 |},
     {| Fetcher.session := true;
        Fetcher.requested := Fetcher.requested st ++ [coingecko_url_of coin] |}).
Proof.
  intros Hk Hin Hc Hmd. rewrite get_crypto_data_eq. cbv zeta.
  rewrite (proj2 (asks_coingecko coin)) by done. rewrite Hc. simpl.
  unfold Fetcher._parse_coingecko_data. simpl. by rewrite Hmd.
Qed.

(** X23.  The mock data.  When CoinGecko is not asked or does not answer
    200 and Binance does not answer 200, [get_crypto_data] returns the mock
    data.  Their price is the integer 100 for every symbol outside
    [SUPPORTED_CRYPTOS]; for BTC, ETH, BNB, SOL and AVAX it is an integer
    within the spread around the base price, hence above zero, when the
    draws are in the range of [random.randint]. *)
Theorem mock_data_when_no_source_answers (coin : string) (st : Fetcher.state) :
  (COINGECKO_API_KEY = EmptyString ∨ coin ∉ SUPPORTED_CRYPTOS
   ∨ ∀ body, http_get (coingecko_url_of coin) ≠ Fetcher.Response 200 body) →
  (∀ body, http_get (Fetcher.binance_url coin) ≠ Fetcher.Response 200 body) →
  Fetcher.in_range rnd →
  let d := (get_crypto_data coin st).1 in
  d = _get_mock_data coin
  ∧ (coin ∉ SUPPORTED_CRYPTOS → Fetcher.price d = JInt 100)
  ∧ (∀ base spread,
       (coin, base, spread)
       ∈ [("BTC", 50000, 2000); ("ETH", 3000, 200); ("BNB", 400, 20);
          ("SOL", 100, 5); ("AVAX", 60, 3)] →
       ∃ n, Fetcher.price d = JInt n ∧ base - spread ≤ n ≤ base + spread ∧ 0 < n).
Proof.
  intros Hcg Hbn Hrange. cbv zeta.
  rewrite get_crypto_data_mock by done.
  split; [done|].
  destruct Hrange as (Hbtc & Heth & Hbnb & Hsol & Havax & _).
  destruct (mock_price_cases literal float_add float_sub float_mul float_div rnd coin) as [[Hout ->]|[(b0 & s0 & d0 & Hin & ->)|[Hin [x ->]]]].
  - split; [done|]. intros base spread Hin. exfalso. apply Hout.
    unfold SUPPORTED_CRYPTOS. apply list_elem_of_In in Hin. simpl in Hin.
    apply list_elem_of_In. simpl.
    intuition (match goal with H : (_, _, _) = (_, _, _) |- _ => injection H as <- _ _ end; tauto).
  - assert (coin ∈ SUPPORTED_CRYPTOS) as Hsup.
    { unfold SUPPORTED_CRYPTOS. apply list_elem_of_In in Hin. simpl in Hin.
      apply list_elem_of_In. simpl.
      intuition (match goal with H : (_, _, _, _) = (_, _, _, _) |- _ =>
                   injection H as <- _ _ _ end; tauto). }
    split; [done|]. intros base spread Hin2. exists (b0 + d0). split; [done|].
    apply list_elem_of_In in Hin. apply list_elem_of_In in Hin2. simpl in Hin, Hin2.
    intuition (repeat match goal with
                      | H : (_, _, _, _) = (_, _, _, _) |- _ => injection H as ? ? ? ?
                      | H : (_, _, _) = (_, _, _) |- _ => injection H as ? ? ?
                      end; subst; try discriminate; lia).
  - split.
    + intros Hout. exfalso. apply Hout. unfold SUPPORTED_CRYPTOS.
      apply list_elem_of_In in Hin. simpl in Hin. apply list_elem_of_In. simpl.
      intuition (subst; tauto).
    + intros base spread Hin2. exfalso.
      apply list_elem_of_In in Hin. apply list_elem_of_In in Hin2. simpl in Hin, Hin2.
      intuition (repeat match goal with
                        | H : (_, _, _) = (_, _, _) |- _ => injection H as ? ? ?
                        end; subst; discriminate).
Qed.

End Fetch.

Lemma get_crypto_data_request_discipline_witness :
  Fetcher.requested
    (Fetcher.get_crypto_data "key" w_http_bare w_float Fin w_op w_op w_op w_op w_draws
       "BTC" (Fetcher.mk_state false [])).2
  = [Fetcher.coingecko_url "bitcoin"].
Proof.
  destruct (get_crypto_data_request_discipline "key" w_http_bare w_float Fin
              w_op w_op w_op w_op w_draws "BTC" (Fetcher.mk_state false []))
    as (_ & [(H & _)|[(H & _ & _ & _)|(_ & [H|H] & _)]]).
  - exact H.
  - discriminate H.
  - discriminate H.
  - exfalso. apply H. apply list_elem_of_In. simpl. tauto.
Defined.

Lemma get_crypto_data_without_key_witness :
  is_Some (Fetcher.number (Fetcher.price
    (Fetcher.get_crypto_data EmptyString w_http_down w_float Fin w_op w_op w_op w_op
       w_draws "BTC" (Fetcher.mk_state false [])).1)).
Proof.
  apply (proj2 (get_crypto_data_without_key EmptyString w_http_down w_float Fin
                  w_op w_op w_op w_op w_draws "BTC" (Fetcher.mk_state false [])
                  eq_refl)).
Defined.

Lemma coingecko_answer_without_market_data_witness :
  Fetcher.price
    (Fetcher.get_crypto_data "key" w_http_bare w_float Fin w_op w_op w_op w_op w_draws
       "BTC" (Fetcher.mk_state false [])).1
  = JInt 0.
Proof.
  rewrite (coingecko_answer_without_market_data "key" w_http_bare w_float Fin
             w_op w_op w_op w_op w_draws "BTC" (Fetcher.mk_state false [])
             [("id", JStr "bitcoin")]).
  - reflexivity.
  - discriminate.
  - apply list_elem_of_In. simpl. tauto.
  - reflexivity.
  - reflexivity.
Defined.

Lemma mock_data_when_no_source_answers_witness :
  Fetcher.price
    (Fetcher.get_crypto_data EmptyString w_http_down w_float Fin w_op w_op w_op w_op
       w_draws "FOO" (Fetcher.mk_state false [])).1
  = JInt 100.
Proof.
  refine (proj1 (proj2 (mock_data_when_no_source_answers EmptyString w_http_down
                          w_float Fin w_op w_op w_op w_op w_draws "FOO"
                          (Fetcher.mk_state false []) _ _ _)) _).
  - by left.
  - discriminate.
  - unfold Fetcher.in_range. simpl. lia.
  - intros Hin%list_elem_of_In. simpl in Hin. intuition discriminate.
Defined.

(** ** A sweep on the prices of [get_crypto_data] *)

Lemma condition_met_true a p :
  condition_met a p = true ↔
  condition a = "above" ∧ Float.ge p (price a) = true
  ∨ condition a = "below" ∧ Float.le p (price a) = true.
Proof.
  unfold condition_met.
  destruct (String.eqb_spec (condition a) "above") as [Hab|Hab]; simpl.
  - destruct (Float.ge p (price a)) eqn:Hge; [split; [by left|done]|].
    destruct (String.eqb_spec (condition a) "below") as [Hbe|Hbe]; [congruence|].
    simpl. split; [done|]. intros [[_ ?]|[? _]]; done.
  - destruct (String.eqb_spec (condition a) "below") as [Hbe|Hbe]; simpl.
    + destruct (Float.le p (price a)) eqn:Hle; [split; [by right|done]|].
      split; [done|]. intros [[? _]|[_ ?]]; done.
    + split; [done|]. intros [[? _]|[? _]]; done.
Qed.

Section Source.

Variable COINGECKO_API_KEY : string.
Variable float : json → option pyfloat.
Variable literal : Q → pyfloat.
Variable float_add : pyfloat → pyfloat → pyfloat.
Variable float_sub : pyfloat → pyfloat → pyfloat.
Variable float_mul : pyfloat → pyfloat → pyfloat.
Variable float_div : pyfloat → pyfloat → pyfloat.
Variable worlds : list string → Fetcher.world.

Local Abbreviation data_fetcher :=
  (Fetcher.data_fetcher COINGECKO_API_KEY float literal
     float_add float_sub float_mul float_div worlds).

(** X24.  An alert on a symbol that no source knows is evaluated at the
    price 100.  Without an API key, for a symbol outside
    [SUPPORTED_CRYPTOS] for which Binance never answers 200,
    [get_crypto_data] returns the mock price 100, so a sweep observes the
    price 100 for every alert on that symbol: an alert
    not yet triggered then triggers exactly when it is an ["above"] alert
    with a threshold of at most 100 or a ["below"] alert with a threshold
    of at least 100, and a sweep that returns reports it with the price
    100. *)
Theorem alert_on_unknown_symbol_sees_100 (now : datetime) (s : AlertSystem)
    (key : string) (a : Alert) :
  COINGECKO_API_KEY = EmptyString →
  coin a ∉ SUPPORTED_CRYPTOS →
  (∀ history body,
     Fetcher.answers (worlds history) (Fetcher.binance_url (coin a))
     ≠ Fetcher.Response 200 body) →
  stored s key a →
  triggered a = false →
  observed (fetched_prices data_fetcher s) a = of_Z 100
  ∧ (fires (fetched_prices data_fetcher s) a = true ↔
     condition a = "above" ∧ Float.le (price a) (of_Z 100) = true
     ∨ condition a = "below" ∧ Float.le (of_Z 100) (price a) = true)
  ∧ ∀ r, (check_alerts now data_fetcher s).1.1 = Some r →
         ((set_triggered a, of_Z 100) ∈ r
          ↔ fires (fetched_prices data_fetcher s) a = true).
Proof.
  intros _ Hout Hbn Hst Ht.
  assert (observed (fetched_prices data_fetcher s) a = of_Z 100) as Hobs.
  { destruct (fetched_price_of_source data_fetcher s key a Hst Ht) as (i & _ & Hp).
    unfold observed. rewrite Hp. cbn [source Fetcher.data_fetcher].
    unfold Fetcher.price_source, Fetcher.fetch.
    rewrite get_crypto_data_mock; [|by right; left|apply Hbn].
    rewrite mock_price_unknown; [reflexivity|exact Hout]. }
  assert (fires (fetched_prices data_fetcher s) a = true ↔
          condition a = "above" ∧ Float.le (price a) (of_Z 100) = true
          ∨ condition a = "below" ∧ Float.le (of_Z 100) (price a) = true) as Hfires.
  { rewrite fires_iff, Hobs, condition_met_true. unfold Float.ge.
    split; [by intros (_ & _ & ?)|]. intros H. split; [done|]. split; [reflexivity|done]. }
  split; [done|]. split; [done|]. intros r Hr.
  destruct (check_alerts now data_fetcher s) as [[r0 s'] df'] eqn:E. simpl in Hr.
  subst r0. rewrite (check_alerts_returned _ _ _ _ _ _ E).
  rewrite (reported_iff_fires _ s key a _ Hst Ht), Hobs. split; [by intros [? _]|done].
Qed.

End Source.

Lemma alert_on_unknown_symbol_sees_100_witness :
  observed
    (fetched_prices
       (Fetcher.data_fetcher EmptyString w_float Fin w_op w_op w_op w_op
          (λ _, w_world_down)) w_store_unknown) w_unknown
  = of_Z 100.
Proof.
  refine (proj1 (alert_on_unknown_symbol_sees_100 EmptyString w_float Fin
                   w_op w_op w_op w_op (λ _, w_world_down) w_now w_store_unknown
                   "1" w_unknown eq_refl _ _ _ _)).
  - intros Hin%list_elem_of_In. simpl in Hin. intuition discriminate.
  - discriminate.
  - exists [w_unknown]. split; [reflexivity|left].
  - reflexivity.
Defined.

(** ** The order of a user's alerts *)

Lemma StronglySorted_sublist {A} (R : A → A → Prop) (l1 l2 : list A) :
  sublist l1 l2 → StronglySorted R l2 → StronglySorted R l1.
Proof.
  induction 1 as [|x l1 l2 Hsub IH|x l1 l2 Hsub IH]; intros Hs; [done| |].
  - apply StronglySorted_inv in Hs as [Hs Hall]. constructor; [by apply IH|].
    rewrite List.Forall_forall in Hall |- *. intros y Hy. apply Hall.
    apply list_elem_of_In. apply list_elem_of_In in Hy. by eapply elem_of_sublist.
  - apply StronglySorted_inv in Hs as [Hs _]. by apply IH.
Qed.

Lemma StronglySorted_snoc (l : list Z) (x : Z) :
  StronglySorted Z.lt l → (∀ y, y ∈ l → y < x) → StronglySorted Z.lt (l ++ [x]).
Proof.
  induction l as [|z l IH]; intros Hs Hlt; simpl.
  - constructor; [constructor|]. constructor.
  - apply StronglySorted_inv in Hs as [Hs Hall]. constructor.
    + apply IH; [done|]. intros y Hy. apply Hlt. by right.
    + apply List.Forall_app. split; [done|]. constructor; [|constructor].
      apply Hlt. left.
Qed.

Lemma ordered_step o st :
  wf st.1 → ordered st.1 → ordered (step o st).2.1.
Proof.
  intros [Hbelow _] Hord. rewrite step_state.
  assert (∀ s', shrunk st.1 s' → ordered s') as Hshrunk.
  { intros s' [_ Hsub] key l' Hl'. destruct (Hsub key l' Hl') as (l & Hl & Hs).
    eapply StronglySorted_sublist; [done|]. by eapply Hord. }
  destruct o as [now uid c cond p|uid aid|now].
  - intros key l Hl. rewrite add_alert_lookup in Hl.
    destruct (decide (key = str uid)) as [->|_]; [|by eapply Hord].
    injection Hl as <-. rewrite fmap_app. simpl.
    destruct (alerts st.1 !! str uid) as [l0|] eqn:El; simpl.
    + apply StronglySorted_snoc; [by eapply Hord|].
      intros y (a & -> & Ha)%list_elem_of_fmap. apply (Hbelow (str uid)). by exists l0.
    + constructor; [constructor|constructor].
  - apply Hshrunk, shrunk_remove_alert.
  - apply Hshrunk, shrunk_check_alerts.
Qed.

Lemma ordered_run ops : ∀ st,
  wf st.1 → ordered st.1 → ordered (run ops st).2.1.
Proof.
  induction ops as [|o ops IH]; intros st Hwf Hord; [done|].
  rewrite run_cons. simpl. apply IH; [by apply wf_step|by apply ordered_step].
Qed.

(** X25.  A user's alerts stay in order of creation.  In a store whose
    ids are pairwise distinct and below the counter and whose lists have
    increasing ids (the empty store is one), this stays so through any
    sequence of additions, removals and sweeps: [get_user_alerts] returns
    the alerts of a user with strictly increasing ids, the oldest
    first. *)
Theorem user_alerts_in_order_of_creation (ops : list op) (s : AlertSystem)
    (df : DataFetcher) :
  wf s → ordered s →
  let s' := (run ops (s, df)).2.1 in
  ordered s' ∧ ∀ uid, StronglySorted Z.lt (alert_id <$> get_user_alerts uid s').
Proof.
  intros Hwf Hord. cbv zeta.
  pose proof (ordered_run ops (s, df) Hwf Hord) as H. split; [done|].
  intros uid. unfold get_user_alerts.
  destruct (alerts _ !! str uid) as [l|] eqn:El; simpl; [by eapply H|constructor].
Qed.

Lemma user_alerts_in_order_of_creation_witness :
  StronglySorted Z.lt
    (alert_id <$>
     get_user_alerts 1
       (run [OpAdd w_now 1 "BTC" "above" (of_Z 1); OpAdd w_now 2 "ETH" "below" (of_Z 1);
             OpAdd w_now 1 "SOL" "above" (of_Z 1); OpRemove 1 1]
          (init, w_fetcher)).2.1).
Proof.
  refine (proj2 (user_alerts_in_order_of_creation _ init w_fetcher wf_init _) 1).
  intros key l Hl. simpl in Hl. by rewrite lookup_empty in Hl.
Defined.

(** * Properties of the analysis engine ([analysis_engine.py]) *)

(** X26.  The sentiment label by RSI.  [_generate_sentiment] gives
    ["Bearish (Overbought)"] exactly above 70, ["Bullish (Oversold)"]
    exactly below 30, ["Mildly Bullish"] exactly above 50 and up to 70,
    ["Mildly Bearish"] exactly from 30 to below 50, and ["Neutral"] in the
    one remaining case of a number, an RSI equal to 50, and for NaN. *)
Theorem sentiment_by_rsi (ind : AnalysisEngine.indicators) :
  let r := AnalysisEngine.rsi ind in
  let label := AnalysisEngine._generate_sentiment ind in
  (label = "Bearish (Overbought)" ↔ Float.gt r (of_Z 70) = true)
  ∧ (label = "Bullish (Oversold)" ↔ Float.lt r (of_Z 30) = true)
  ∧ (label = "Mildly Bullish"
     ↔ Float.lt (of_Z 50) r = true ∧ Float.le r (of_Z 70) = true)
  ∧ (label = "Mildly Bearish"
     ↔ Float.le (of_Z 30) r = true ∧ Float.lt r (of_Z 50) = true)
  ∧ (label = "Neutral" ↔ r = NaN ∨ ∃ q, r = Fin q ∧ (q == 50 # 1)%Q).
Proof.
  cbv zeta. unfold AnalysisEngine._generate_sentiment.
  destruct (AnalysisEngine.rsi ind) as [[n d]| | |].
  - unfold Float.gt, Float.lt, Float.le, of_Z, Qle_bool. cbn [Qnum Qden].
    assert (∀ q : Q, Fin (n # d) = Fin q → q = n # d) as Hinj by (by intros q [= <-]).
    destruct (Z.leb_spec (n * 1) (70 * Z.pos d));
      destruct (Z.leb_spec (30 * Z.pos d) (n * 1));
      destruct (Z.leb_spec (n * 1) (50 * Z.pos d));
      destruct (Z.leb_spec (50 * Z.pos d) (n * 1));
      cbn [negb andb]; try lia;
      repeat split; try done; try (intros [? ?]; done);
      try (intros [?|(q & ->%Hinj & Hq)]; [done|]; unfold Qeq in Hq; cbn [Qnum Qden] in Hq; lia);
      try (intros _; right; exists (n # d); split; [done|]; unfold Qeq; cbn [Qnum Qden]; lia).
  - cbn. repeat split; try done; try (intros [? ?]; done).
    intros [?|(q & ? & _)]; done.
  - cbn. repeat split; try done; try (intros [? ?]; done).
    intros [?|(q & ? & _)]; done.
  - cbn. repeat split; try done; try (intros [? ?]; done). intros _. by left.
Qed.

(** X27.  The analysis does not look at the market data.  Whatever data
    [get_crypto_data] returned, [analyze] reports the sentiment
    ["Mildly Bullish"] and the trend ["Uptrend"]; the confidence is 72 for
    ["BTC"], 68 for ["ETH"] and 65 for every other symbol, and the whole
    result is the same for any two data of the same symbol. *)
Theorem analyze_ignores_market_data (format_1f : pyfloat → string)
    (data : Fetcher.crypto_data) (coin : string) :
  let r := AnalysisEngine.analyze format_1f data coin in
  AnalysisEngine.sentiment r = "Mildly Bullish"
  ∧ AnalysisEngine.trend r = "Uptrend"
  ∧ AnalysisEngine.confidence r
    = (if String.eqb coin "BTC" then 72 else if String.eqb coin "ETH" then 68 else 65)
  ∧ ∀ data', AnalysisEngine.analyze format_1f data' coin = r.
Proof.
  cbv zeta. unfold AnalysisEngine.analyze.
  destruct (AnalysisEngine._generate_prediction data
              (AnalysisEngine._calculate_indicators data) coin) as [p c] eqn:E.
  cbn [AnalysisEngine.sentiment AnalysisEngine.trend AnalysisEngine.confidence].
  split; [reflexivity|]. split; [reflexivity|]. split.
  - unfold AnalysisEngine._generate_prediction in E. cbn [assoc] in E.
    rewrite (String.eqb_sym coin "BTC"), (String.eqb_sym coin "ETH").
    destruct (String.eqb "BTC" coin); [by injection E as _ <-|].
    destruct (String.eqb "ETH" coin); [by injection E as _ <-|].
    destruct (String.eqb "default" coin); by injection E as _ <-.
  - intros data'.
    change (AnalysisEngine._generate_prediction data'
              (AnalysisEngine._calculate_indicators data') coin)
      with (AnalysisEngine._generate_prediction data
              (AnalysisEngine._calculate_indicators data) coin).
    by rewrite E.
Qed.

(** * Edge cases of the store *)

(** X28.  An id is removed once.  When the ids of the owner's list are
    pairwise distinct, a second [remove_alert] with the same owner and id
    returns [False] and changes nothing. *)
Theorem remove_alert_twice (uid aid : Z) (s : AlertSystem) :
  (∀ l, alerts s !! str uid = Some l → NoDup (alert_id <$> l)) →
  let s1 := (remove_alert uid aid s).2 in
  (remove_alert uid aid s1).1 = false ∧ (remove_alert uid aid s1).2 = s1.
Proof.
  intros Hnd. cbv zeta.
  destruct (remove_alert_cases uid aid s)
    as [[E _]|(l1 & a & l2 & Hl & Hid & Hbefore & E)]; rewrite E; cbn [snd].
  { by rewrite E. }
  set (s1 := {| alerts := <[str uid := l1 ++ l2]> (alerts s); next_id := next_id s |}).
  destruct (remove_alert_cases uid aid s1)
    as [[-> _]|(k1 & b & k2 & Hk & Hidb & _ & _)]; [done|].
  exfalso. unfold s1 in Hk. cbn [alerts] in Hk. rewrite lookup_insert_eq in Hk.
  injection Hk as Hk.
  assert (b ∈ l1 ++ l2) as [Hb|Hb]%elem_of_app
    by (rewrite Hk; apply elem_of_app; right; left).
  - by apply (Hbefore b).
  - specialize (Hnd _ Hl). rewrite fmap_app, fmap_cons in Hnd.
    apply NoDup_app in Hnd as (_ & _ & Hnd). apply NoDup_cons in Hnd as [Hnotin _].
    apply Hnotin. rewrite Hid, <- Hidb. apply list_elem_of_fmap. by exists b.
Qed.

Lemma remove_alert_twice_witness :
  (remove_alert 1 1 (remove_alert 1 1 w_store).2).1 = false.
Proof.
  refine (proj1 (remove_alert_twice 1 1 w_store _)).
  intros l Hl. vm_compute in Hl. injection Hl as <-. simpl. apply NoDup_singleton.
Defined.

Lemma positive_ge_nonpositive p q :
  Float.gt p Float.zero = true → (q <= 0)%Q → Float.ge p (Fin q) = true.
Proof.
  unfold Float.gt, Float.ge, Float.lt, Float.le, Float.zero.
  destruct p as [x| | |]; try done. intros Hgt Hq.
  apply Qle_bool_iff. apply negb_true_iff in Hgt.
  destruct (Qlt_le_dec 0 x) as [Hx|Hx].
  - apply Qlt_le_weak. by eapply Qle_lt_trans.
  - apply Qle_bool_iff in Hx. congruence.
Qed.

(** X29.  Thresholds are not validated.  In the evaluation loop, an
    ["above"] alert whose threshold is zero or negative, and a ["below"]
    alert whose threshold is plus infinity, trigger as soon as a price
    above zero is observed for their symbol, whatever that price; an alert
    whose threshold is NaN is never triggered and never reported. *)
Theorem unvalidated_thresholds (prices : gmap string pyfloat) (a : Alert) :
  triggered a = false →
  let p := default Float.zero (prices !! coin a) in
  (∀ q, condition a = "above" → price a = Fin q → (q <= 0)%Q →
     Float.gt p Float.zero = true →
     check_alert prices a = (set_triggered a, [(set_triggered a, p)]))
  ∧ (condition a = "below" → price a = PosInf →
       Float.gt p Float.zero = true →
       check_alert prices a = (set_triggered a, [(set_triggered a, p)]))
  ∧ (price a = NaN → check_alert prices a = (a, [])).
Proof.
  intros Ht. cbv zeta. rewrite check_alert_mark_report. unfold mark, report.
  fold (observed prices a). split; [|split].
  - intros q Hc Hp Hq Hgt.
    assert (fires prices a = true) as ->; [|done].
    rewrite fires_iff, (condition_met_above a _ Hc), Hp.
    split; [done|]. split; [done|]. by apply positive_ge_nonpositive.
  - intros Hc Hp Hgt.
    assert (fires prices a = true) as ->; [|done].
    rewrite fires_iff, (condition_met_below a _ Hc), Hp.
    split; [done|]. split; [done|].
    unfold Float.gt, Float.lt, Float.zero in Hgt. by destruct (observed prices a).
  - intros Hp. destruct (fires prices a) eqn:Hf; [|done].
    apply fires_iff in Hf as (_ & _ & Hmet). unfold condition_met in Hmet.
    rewrite Hp in Hmet. unfold Float.ge, Float.le in Hmet.
    destruct (observed prices a); simpl in Hmet;
      rewrite ?andb_false_r in Hmet; done.
Qed.

Lemma unvalidated_thresholds_witness :
  check_alert {[ "BTC" := of_Z 1 ]} w_negative
  = (set_triggered w_negative,
     [(set_triggered w_negative,
       default Float.zero (({[ "BTC" := of_Z 1 ]} : gmap string pyfloat)
                           !! coin w_negative))]).
Proof.
  apply (proj1 (unvalidated_thresholds {[ "BTC" := of_Z 1 ]} w_negative eq_refl)
           (-5 # 1)%Q eq_refl eq_refl).
  - discriminate.
  - reflexivity.
Defined.

